(** * Cortex tensor runtime: a shallow embedding of [runtime/src/cortex.c]

    The C functions of the runtime are written as Rocq functions over

    - IEEE-754 binary64 values ([cortex_float_t] is [double]), taken from the
      kernel's primitive floats, so that arithmetic rounds, overflows and
      produces NaN as the compiled code does;
    - 64-bit signed integers as [Z] with the wrap-around written out;
    - tensors as records holding the flat buffer and the shape array;
    - a small state monad threading the process-wide error slot and the
      bytes the allocator can still hand out, with a third outcome for an
      access outside a buffer (undefined behaviour in C). *)

From Stdlib Require Import String ZArith List Bool Lia.
From Stdlib Require Import Floats Uint63.
Import ListNotations.

Local Open Scope string_scope.
Local Open Scope list_scope.
Local Open Scope Z_scope.

(** ** Machine integers *)

Module I64.
Definition modulus : Z := 2 ^ 64.
Definition half : Z := 2 ^ 63.
Definition max_signed : Z := half - 1.
Definition min_signed : Z := - half.

(** Two's-complement reduction of a mathematical integer to [int64_t]. *)
Definition wrap (z : Z) : Z := (z + half) mod modulus - half.

Definition add (a b : Z) : Z := wrap (a + b).
Definition mul (a b : Z) : Z := wrap (a * b).

(** Conversion of an [int64_t] to [size_t]. *)
Definition to_size_t (z : Z) : Z := z mod modulus.
End I64.

Definition INT32_MAX : Z := 2 ^ 31 - 1.

(** ** Floating point *)

(** [typedef double cortex_float_t;] *)
Abbreviation cortex_float_t := float (only parsing).

(** Conversion of an [int64_t] to [double] (round to nearest). *)
Definition float_of_int64 (z : Z) : cortex_float_t :=
  if z =? I64.min_signed then PrimFloat.opp 0x1p63%float
  else if z <? 0 then PrimFloat.opp (PrimFloat.of_uint63 (Uint63.of_Z (- z)))
  else PrimFloat.of_uint63 (Uint63.of_Z z).

(** Conversion of a [double] to [int64_t]: truncation toward zero.  The
    conversion of a NaN, of an infinity or of a value outside the range of
    [int64_t] is undefined. *)
Definition int64_of_float (x : cortex_float_t) : option Z :=
  match Prim2SF x with
  | S754_zero _ => Some 0
  | S754_finite sgn m e =>
      let mag := if 0 <=? e then Z.pos m * 2 ^ e else Z.pos m / 2 ^ (- e) in
      let z := if sgn then - mag else mag in
      if (I64.min_signed <=? z) && (z <=? I64.max_signed) then Some z else None
  | _ => None
  end.

(** [fmax] and [fmin] of the C library: a NaN operand is treated as missing. *)
Definition fmax (x y : cortex_float_t) : cortex_float_t :=
  if (PrimFloat.leb y x || PrimFloat.is_nan y)%bool then x else y.

Definition fmin (x y : cortex_float_t) : cortex_float_t :=
  if (PrimFloat.leb x y || PrimFloat.is_nan y)%bool then x else y.

(** ** Tensors *)

Record cortex_tensor_t : Type := mk_tensor {
  data : list cortex_float_t;
  shape : list Z;
  ndim : Z;
  size : Z;
  requires_grad : bool
}.

Definition set_data (t : cortex_tensor_t) (d : list cortex_float_t) : cortex_tensor_t :=
  mk_tensor d (shape t) (ndim t) (size t) (requires_grad t).

Definition set_requires_grad (t : cortex_tensor_t) (g : bool) : cortex_tensor_t :=
  mk_tensor (data t) (shape t) (ndim t) (size t) g.

(** Object sizes on an LP64 target. *)
Definition sizeof_tensor : Z := 40.
Definition sizeof_int64 : Z := 8.
Definition sizeof_float : Z := 8.

(** ** Runtime state and the monad of the C functions *)

Record runtime : Type := mk_runtime {
  g_error_message : option string;
  heap_free : Z
}.

Inductive outcome (A : Type) : Type :=
| Done (a : A) (s : runtime)
| Undefined.
Arguments Done {A} a s.
Arguments Undefined {A}.

Definition M (A : Type) : Type := runtime -> outcome A.

Definition ret {A} (a : A) : M A := fun s => Done a s.

Definition bind {A B} (m : M A) (k : A -> M B) : M B :=
  fun s => match m s with
           | Done a s' => k a s'
           | Undefined => Undefined
           end.

Definition undefined {A} : M A := fun _ => Undefined.

Notation "x <- m ;; k" := (bind m (fun x => k))
  (at level 61, m at next level, right associativity).
Notation "m ;; k" := (bind m (fun _ => k))
  (at level 61, right associativity).

(** ** Loops over local buffers *)

(** What one iteration of a loop body does: fall through to the next
    iteration, leave the function through a [return] inside the loop, or
    touch memory outside a buffer. *)
Inductive step (R A : Type) : Type :=
| Next (a : A)
| Exit (r : R)
| Trap.
Arguments Next {R A} a.
Arguments Exit {R A} r.
Arguments Trap {R A}.

Fixpoint for_loop {R A} (n : nat) (i : Z) (body : Z -> A -> step R A) (acc : A)
  : step R A :=
  match n with
  | O => Next acc
  | S n' =>
      match body i acc with
      | Next acc' => for_loop n' (i + 1) body acc'
      | Exit r => Exit r
      | Trap => Trap
      end
  end.

(** [for (i = lo; i < hi; i++) body]. *)
Definition for_range {R A} (lo hi : Z) (body : Z -> A -> step R A) (acc : A)
  : step R A :=
  for_loop (Z.to_nat (hi - lo)) lo body acc.

(** [buf[i]] as an rvalue. *)
Definition load {A} (buf : list A) (i : Z) : option A :=
  if i <? 0 then None else nth_error buf (Z.to_nat i).

Fixpoint store_nat {A} (buf : list A) (n : nat) (v : A) : option (list A) :=
  match buf, n with
  | [], _ => None
  | _ :: tl, O => Some (v :: tl)
  | x :: tl, S n' => option_map (cons x) (store_nat tl n' v)
  end.

(** [buf[i] = v]. *)
Definition store {A} (buf : list A) (i : Z) (v : A) : option (list A) :=
  if i <? 0 then None else store_nat buf (Z.to_nat i) v.

(** [buf[i]] read inside a loop body, and what follows it. *)
Definition read {R A B} (buf : list A) (i : Z) (k : A -> step R B) : step R B :=
  match load buf i with
  | Some x => k x
  | None => Trap
  end.

(** [buf[i] = v] inside a loop body. *)
Definition write {R A} (buf : list A) (i : Z) (v : A) : step R (list A) :=
  match store buf i v with
  | Some buf' => Next buf'
  | None => Trap
  end.

(** [buf[i] = f(buf[i])], the shape of every element-wise loop body. *)
Definition update_at {R} (buf : list cortex_float_t) (i : Z)
  (f : cortex_float_t -> step R cortex_float_t) : step R (list cortex_float_t) :=
  read buf i (fun x =>
    match f x with
    | Next y => write buf i y
    | Exit r => Exit r
    | Trap => Trap
    end).

(** A loop that has no [return] in its body either runs to its end or traps. *)
Definition run_loop {A} (r : step Empty_set A) : M A :=
  match r with
  | Next a => ret a
  | Exit e => match e with end
  | Trap => undefined
  end.

(** [memcpy(dst, src, n * sizeof(elem))] on element buffers. *)
Definition memcpy {A} (dst src : list A) (n : Z) : option (list A) :=
  if (0 <=? n) && (n <=? Z.of_nat (length src)) && (n <=? Z.of_nat (length dst))
  then Some (firstn (Z.to_nat n) src ++ skipn (Z.to_nat n) dst)
  else None.

(** ** Error channel *)

(** The slot owns a private copy of the message; the copy made by [strdup]
    is not checked by the source and is taken to succeed, and message storage
    is not charged to [heap_free]. *)
Definition cortex_set_error (message : string) : M unit :=
  fun s => Done tt (mk_runtime (Some message) (heap_free s)).

Definition cortex_get_error : M (option string) :=
  fun s => Done (g_error_message s) s.

Definition cortex_clear_error : M unit :=
  fun s => Done tt (mk_runtime None (heap_free s)).

(** ** Allocation *)

(** [malloc(n)]: the request is granted when the allocator still has [n]
    bytes; the result says whether the pointer is non-null. *)
Definition malloc (n : Z) : M bool :=
  fun s => if n <=? heap_free s
           then Done true (mk_runtime (g_error_message s) (heap_free s - n))
           else Done false s.

(** [calloc(count, size)] also refuses a request whose byte count does not
    fit [size_t]. *)
Definition calloc (count sz : Z) : M bool :=
  if I64.modulus <=? count * sz then ret false else malloc (count * sz).

(** [free] of a block of [n] bytes. *)
Definition free (n : Z) : M unit :=
  fun s => Done tt (mk_runtime (g_error_message s) (heap_free s + n)).

Definition cortex_malloc (n : Z) : M bool :=
  ptr <- malloc n ;;
  if negb ptr then cortex_set_error "Memory allocation failed" ;; ret ptr
  else ret ptr.

Definition cortex_calloc (count sz : Z) : M bool :=
  ptr <- calloc count sz ;;
  if negb ptr then cortex_set_error "Memory allocation failed" ;; ret ptr
  else ret ptr.

(** ** Memory management *)

(** The [size] loop of [cortex_tensor_create]: [size = 1; size *= shape[i]]. *)
Definition shape_product (sh : list Z) : Z :=
  fold_left I64.mul sh 1.

Definition cortex_tensor_create (shape : option (list Z)) (ndim : Z)
  : M (option cortex_tensor_t) :=
  match shape with
  | None => cortex_set_error "Invalid tensor shape" ;; ret None
  | Some sh =>
      if ndim <=? 0 then cortex_set_error "Invalid tensor shape" ;; ret None
      else
        tensor <- cortex_malloc sizeof_tensor ;;
        if negb tensor then ret None
        else
          tshape <- cortex_malloc (I64.to_size_t ndim * sizeof_int64) ;;
          if negb tshape then free sizeof_tensor ;; ret None
          else
            match memcpy (repeat 0 (Z.to_nat ndim)) sh ndim with
            | None => undefined
            | Some sh' =>
                let size := shape_product sh' in
                tdata <- cortex_calloc (I64.to_size_t size) sizeof_float ;;
                if negb tdata then
                  free (I64.to_size_t ndim * sizeof_int64) ;;
                  free sizeof_tensor ;;
                  ret None
                else
                  ret (Some (mk_tensor (repeat 0%float (Z.to_nat size))
                                       sh' ndim size false))
            end
  end.

Definition tensor_bytes (t : cortex_tensor_t) : Z :=
  sizeof_tensor
  + Z.of_nat (length (shape t)) * sizeof_int64
  + Z.of_nat (length (data t)) * sizeof_float.

Definition cortex_tensor_free (tensor : option cortex_tensor_t) : M unit :=
  match tensor with
  | Some t =>
      free (Z.of_nat (length (data t)) * sizeof_float) ;;
      free (Z.of_nat (length (shape t)) * sizeof_int64) ;;
      free sizeof_tensor
  | None => ret tt
  end.

Definition cortex_tensor_copy (tensor : option cortex_tensor_t)
  : M (option cortex_tensor_t) :=
  match tensor with
  | None => cortex_set_error "Cannot copy NULL tensor" ;; ret None
  | Some t =>
      copy <- cortex_tensor_create (Some (shape t)) (ndim t) ;;
      match copy with
      | None => ret None
      | Some c =>
          match memcpy (data c) (data t) (size t) with
          | None => undefined
          | Some d => ret (Some (set_requires_grad (set_data c d) (requires_grad t)))
          end
      end
  end.

(** ** Tensor creation functions *)

Definition cortex_zeros (shape : option (list Z)) (ndim : Z)
  : M (option cortex_tensor_t) :=
  tensor <- cortex_tensor_create shape ndim ;;
  match tensor with
  | None => ret None
  | Some t => ret (Some t)
  end.

Definition cortex_ones (shape : option (list Z)) (ndim : Z)
  : M (option cortex_tensor_t) :=
  tensor <- cortex_tensor_create shape ndim ;;
  match tensor with
  | None => ret None
  | Some t =>
      d <- run_loop (for_range 0 (size t)
                       (fun i buf => write buf i 1%float) (data t)) ;;
      ret (Some (set_data t d))
  end.

Definition cortex_eye (n : Z) : M (option cortex_tensor_t) :=
  tensor <- cortex_tensor_create (Some [n; n]) 2 ;;
  match tensor with
  | None => ret None
  | Some t =>
      d <- run_loop (for_range 0 n
                       (fun i buf => write buf (I64.add (I64.mul i n) i) 1%float)
                       (data t)) ;;
      ret (Some (set_data t d))
  end.

Definition cortex_arange (start stop step : cortex_float_t)
  : M (option cortex_tensor_t) :=
  match int64_of_float ((stop - start) / step)%float with
  | None => undefined
  | Some n =>
      tensor <- cortex_tensor_create (Some [n]) 1 ;;
      match tensor with
      | None => ret None
      | Some t =>
          d <- run_loop (for_range 0 n
                 (fun i buf => write buf i (start + float_of_int64 i * step)%float)
                 (data t)) ;;
          ret (Some (set_data t d))
      end
  end.

(** ** Basic tensor operations *)

Definition cortex_tensor_add (a b : option cortex_tensor_t)
  : M (option cortex_tensor_t) :=
  match a, b with
  | Some ta, Some tb =>
      if negb (size ta =? size tb) then
        cortex_set_error "Tensor size mismatch for addition" ;; ret None
      else
        result <- cortex_tensor_copy a ;;
        match result with
        | None => ret None
        | Some r =>
            d <- run_loop (for_range 0 (size r)
                   (fun i buf => update_at buf i (fun x =>
                      read (data tb) i (fun y => Next (x + y)%float)))
                   (data r)) ;;
            ret (Some (set_data r d))
        end
  | _, _ => cortex_set_error "Cannot add NULL tensors" ;; ret None
  end.

Definition cortex_tensor_subtract (a b : option cortex_tensor_t)
  : M (option cortex_tensor_t) :=
  match a, b with
  | Some ta, Some tb =>
      if negb (size ta =? size tb) then
        cortex_set_error "Tensor size mismatch for subtraction" ;; ret None
      else
        result <- cortex_tensor_copy a ;;
        match result with
        | None => ret None
        | Some r =>
            d <- run_loop (for_range 0 (size r)
                   (fun i buf => update_at buf i (fun x =>
                      read (data tb) i (fun y => Next (x - y)%float)))
                   (data r)) ;;
            ret (Some (set_data r d))
        end
  | _, _ => cortex_set_error "Cannot subtract NULL tensors" ;; ret None
  end.

Definition cortex_tensor_multiply (a b : option cortex_tensor_t)
  : M (option cortex_tensor_t) :=
  match a, b with
  | Some ta, Some tb =>
      if negb (size ta =? size tb) then
        cortex_set_error "Tensor size mismatch for multiplication" ;; ret None
      else
        result <- cortex_tensor_copy a ;;
        match result with
        | None => ret None
        | Some r =>
            d <- run_loop (for_range 0 (size r)
                   (fun i buf => update_at buf i (fun x =>
                      read (data tb) i (fun y => Next (x * y)%float)))
                   (data r)) ;;
            ret (Some (set_data r d))
        end
  | _, _ => cortex_set_error "Cannot multiply NULL tensors" ;; ret None
  end.

(** The loop of [cortex_tensor_divide]; it leaves through [Exit] at the first
    divisor that compares equal to [0.0]. *)
Definition divide_loop (r tb : cortex_tensor_t) : step unit (list cortex_float_t) :=
  for_range 0 (size r)
    (fun i buf =>
       read (data tb) i (fun y =>
         if (y =? 0)%float then Exit tt
         else update_at buf i (fun x => Next (x / y)%float)))
    (data r).

Definition cortex_tensor_divide (a b : option cortex_tensor_t)
  : M (option cortex_tensor_t) :=
  match a, b with
  | Some ta, Some tb =>
      if negb (size ta =? size tb) then
        cortex_set_error "Tensor size mismatch for division" ;; ret None
      else
        result <- cortex_tensor_copy a ;;
        match result with
        | None => ret None
        | Some r =>
            match divide_loop r tb with
            | Next d => ret (Some (set_data r d))
            | Exit _ =>
                cortex_set_error "Division by zero" ;;
                cortex_tensor_free result ;;
                ret None
            | Trap => undefined
            end
        end
  | _, _ => cortex_set_error "Cannot divide NULL tensors" ;; ret None
  end.

(** ** Scalar operations *)

Definition cortex_tensor_add_scalar (tensor : option cortex_tensor_t)
  (scalar : cortex_float_t) : M (option cortex_tensor_t) :=
  match tensor with
  | None => cortex_set_error "Cannot add scalar to NULL tensor" ;; ret None
  | Some _ =>
      result <- cortex_tensor_copy tensor ;;
      match result with
      | None => ret None
      | Some r =>
          d <- run_loop (for_range 0 (size r)
                 (fun i buf => update_at buf i (fun x => Next (x + scalar)%float))
                 (data r)) ;;
          ret (Some (set_data r d))
      end
  end.

Definition cortex_tensor_multiply_scalar (tensor : option cortex_tensor_t)
  (scalar : cortex_float_t) : M (option cortex_tensor_t) :=
  match tensor with
  | None => cortex_set_error "Cannot multiply NULL tensor by scalar" ;; ret None
  | Some _ =>
      result <- cortex_tensor_copy tensor ;;
      match result with
      | None => ret None
      | Some r =>
          d <- run_loop (for_range 0 (size r)
                 (fun i buf => update_at buf i (fun x => Next (x * scalar)%float))
                 (data r)) ;;
          ret (Some (set_data r d))
      end
  end.

(** ** Matrix operations *)

Definition cortex_tensor_matmul (a b : option cortex_tensor_t)
  : M (option cortex_tensor_t) :=
  match a, b with
  | Some ta, Some tb =>
      if negb (ndim ta =? 2) || negb (ndim tb =? 2) then
        cortex_set_error "Matrix multiplication requires 2D tensors" ;; ret None
      else
        match load (shape ta) 0, load (shape ta) 1,
              load (shape tb) 0, load (shape tb) 1 with
        | Some a0, Some a1, Some b0, Some b1 =>
            if negb (a1 =? b0) then
              cortex_set_error "Matrix dimension mismatch for multiplication" ;;
              ret None
            else
              result <- cortex_tensor_create (Some [a0; b1]) 2 ;;
              match result with
              | None => ret None
              | Some r =>
                  d <- run_loop (for_range 0 a0 (fun i buf =>
                         for_range 0 b1 (fun j buf =>
                           match for_range 0 a1 (fun k sum =>
                                   read (data ta) (I64.add (I64.mul i a1) k) (fun x =>
                                   read (data tb) (I64.add (I64.mul k b1) j) (fun y =>
                                   Next (sum + x * y)%float))) 0%float with
                           | Next sum => write buf (I64.add (I64.mul i b1) j) sum
                           | Exit e => Exit e
                           | Trap => Trap
                           end) buf) (data r)) ;;
                  ret (Some (set_data r d))
              end
        | _, _, _, _ => undefined
        end
  | _, _ => cortex_set_error "Cannot multiply NULL tensors" ;; ret None
  end.

Definition cortex_tensor_transpose (tensor : option cortex_tensor_t)
  : M (option cortex_tensor_t) :=
  match tensor with
  | None => cortex_set_error "Cannot transpose NULL tensor" ;; ret None
  | Some t =>
      if negb (ndim t =? 2) then
        cortex_set_error "Transpose requires 2D tensor" ;; ret None
      else
        match load (shape t) 0, load (shape t) 1 with
        | Some t0, Some t1 =>
            result <- cortex_tensor_create (Some [t1; t0]) 2 ;;
            match result with
            | None => ret None
            | Some r =>
                d <- run_loop (for_range 0 t0 (fun i buf =>
                       for_range 0 t1 (fun j buf =>
                         read (data t) (I64.add (I64.mul i t1) j) (fun x =>
                         write buf (I64.add (I64.mul j t0) i) x)) buf) (data r)) ;;
                ret (Some (set_data r d))
            end
        | _, _ => undefined
        end
  end.

(** ** Statistical functions *)

Definition cortex_tensor_sum (tensor : option cortex_tensor_t) : M cortex_float_t :=
  match tensor with
  | None => cortex_set_error "Cannot compute sum of NULL tensor" ;; ret 0%float
  | Some t =>
      run_loop (for_range 0 (size t)
                  (fun i sum => read (data t) i (fun x => Next (sum + x)%float))
                  0%float)
  end.

Definition cortex_tensor_mean (tensor : option cortex_tensor_t) : M cortex_float_t :=
  match tensor with
  | None => cortex_set_error "Cannot compute mean of NULL tensor" ;; ret 0%float
  | Some t =>
      sum <- cortex_tensor_sum tensor ;;
      ret (sum / float_of_int64 (size t))%float
  end.

Definition cortex_tensor_std (tensor : option cortex_tensor_t) : M cortex_float_t :=
  match tensor with
  | None => cortex_set_error "Cannot compute std of NULL tensor" ;; ret 0%float
  | Some t =>
      mean_val <- cortex_tensor_mean tensor ;;
      sum_sq_diff <- run_loop (for_range 0 (size t)
                        (fun i acc => read (data t) i (fun x =>
                           let diff := (x - mean_val)%float in
                           Next (acc + diff * diff)%float))
                        0%float) ;;
      ret (PrimFloat.sqrt (sum_sq_diff / float_of_int64 (size t)))
  end.

Definition cortex_tensor_var (tensor : option cortex_tensor_t) : M cortex_float_t :=
  match tensor with
  | None => cortex_set_error "Cannot compute variance of NULL tensor" ;; ret 0%float
  | Some _ =>
      std_val <- cortex_tensor_std tensor ;;
      ret (std_val * std_val)%float
  end.

Definition cortex_tensor_min (tensor : option cortex_tensor_t) : M cortex_float_t :=
  match tensor with
  | None =>
      cortex_set_error "Cannot compute min of NULL or empty tensor" ;; ret 0%float
  | Some t =>
      if size t =? 0 then
        cortex_set_error "Cannot compute min of NULL or empty tensor" ;; ret 0%float
      else
        match load (data t) 0 with
        | None => undefined
        | Some first =>
            run_loop (for_range 1 (size t)
                        (fun i min_val => read (data t) i (fun x =>
                           Next (if (x <? min_val)%float then x else min_val)))
                        first)
        end
  end.

Definition cortex_tensor_max (tensor : option cortex_tensor_t) : M cortex_float_t :=
  match tensor with
  | None =>
      cortex_set_error "Cannot compute max of NULL or empty tensor" ;; ret 0%float
  | Some t =>
      if size t =? 0 then
        cortex_set_error "Cannot compute max of NULL or empty tensor" ;; ret 0%float
      else
        match load (data t) 0 with
        | None => undefined
        | Some first =>
            run_loop (for_range 1 (size t)
                        (fun i max_val => read (data t) i (fun x =>
                           Next (if (max_val <? x)%float then x else max_val)))
                        first)
        end
  end.

(** ** Loss functions *)

Definition cortex_mse_loss (predictions targets : option cortex_tensor_t)
  : M cortex_float_t :=
  match predictions, targets with
  | Some p, Some t =>
      if negb (size p =? size t) then
        cortex_set_error "Tensor size mismatch for MSE loss" ;; ret 0%float
      else
        sum_sq_diff <- run_loop (for_range 0 (size p)
                          (fun i acc =>
                             read (data p) i (fun x =>
                             read (data t) i (fun y =>
                             let diff := (x - y)%float in
                             Next (acc + diff * diff)%float)))
                          0%float) ;;
        ret (sum_sq_diff / float_of_int64 (size p))%float
  | _, _ => cortex_set_error "Cannot compute MSE loss of NULL tensors" ;; ret 0%float
  end.

(** ** Operations that call the C mathematical library

    [exp], [log], [pow], [tanh] and [cos] of [<math.h>] are not part of the
    runtime; the functions below take them as parameters.  [sqrt] is the
    correctly rounded IEEE-754 operation. *)

Section Libm.

Variable c_exp : cortex_float_t -> cortex_float_t.
Variable c_log : cortex_float_t -> cortex_float_t.
Variable c_pow : cortex_float_t -> cortex_float_t -> cortex_float_t.
Variable c_tanh : cortex_float_t -> cortex_float_t.
Variable c_cos : cortex_float_t -> cortex_float_t.

(** The [k]-th value of [(double)rand() / RAND_MAX] after [srand(time(NULL))]. *)
Variable uniform_draw : Z -> cortex_float_t.

Definition M_PI : cortex_float_t := 0x1.921fb54442d18p+1%float.

Definition cortex_randn (shape : option (list Z)) (ndim : Z)
  : M (option cortex_tensor_t) :=
  tensor <- cortex_tensor_create shape ndim ;;
  match tensor with
  | None => ret None
  | Some t =>
      d <- run_loop (for_range 0 (size t)
             (fun i buf =>
                let u1 := uniform_draw (2 * i) in
                let u2 := uniform_draw (2 * i + 1) in
                write buf i
                  (PrimFloat.sqrt (-2 * c_log u1) * c_cos (2 * M_PI * u2))%float)
             (data t)) ;;
      ret (Some (set_data t d))
  end.

Definition cortex_tensor_power (a b : option cortex_tensor_t)
  : M (option cortex_tensor_t) :=
  match a, b with
  | Some ta, Some tb =>
      if negb (size ta =? size tb) then
        cortex_set_error "Tensor size mismatch for power operation" ;; ret None
      else
        result <- cortex_tensor_copy a ;;
        match result with
        | None => ret None
        | Some r =>
            d <- run_loop (for_range 0 (size r)
                   (fun i buf => update_at buf i (fun x =>
                      read (data tb) i (fun y => Next (c_pow x y))))
                   (data r)) ;;
            ret (Some (set_data r d))
        end
  | _, _ => cortex_set_error "Cannot raise NULL tensors to power" ;; ret None
  end.

(** *** Mathematical functions *)

Definition cortex_tensor_exp (tensor : option cortex_tensor_t)
  : M (option cortex_tensor_t) :=
  match tensor with
  | None => cortex_set_error "Cannot compute exp of NULL tensor" ;; ret None
  | Some _ =>
      result <- cortex_tensor_copy tensor ;;
      match result with
      | None => ret None
      | Some r =>
          d <- run_loop (for_range 0 (size r)
                 (fun i buf => update_at buf i (fun x => Next (c_exp x)))
                 (data r)) ;;
          ret (Some (set_data r d))
      end
  end.

Definition log_loop (r : cortex_tensor_t) : step unit (list cortex_float_t) :=
  for_range 0 (size r)
    (fun i buf => update_at buf i (fun x =>
       if (x <=? 0)%float then Exit tt else Next (c_log x)))
    (data r).

Definition cortex_tensor_log (tensor : option cortex_tensor_t)
  : M (option cortex_tensor_t) :=
  match tensor with
  | None => cortex_set_error "Cannot compute log of NULL tensor" ;; ret None
  | Some _ =>
      result <- cortex_tensor_copy tensor ;;
      match result with
      | None => ret None
      | Some r =>
          match log_loop r with
          | Next d => ret (Some (set_data r d))
          | Exit _ =>
              cortex_set_error "Log of non-positive number" ;;
              cortex_tensor_free result ;;
              ret None
          | Trap => undefined
          end
      end
  end.

Definition sqrt_loop (r : cortex_tensor_t) : step unit (list cortex_float_t) :=
  for_range 0 (size r)
    (fun i buf => update_at buf i (fun x =>
       if (x <? 0)%float then Exit tt else Next (PrimFloat.sqrt x)))
    (data r).

Definition cortex_tensor_sqrt (tensor : option cortex_tensor_t)
  : M (option cortex_tensor_t) :=
  match tensor with
  | None => cortex_set_error "Cannot compute sqrt of NULL tensor" ;; ret None
  | Some _ =>
      result <- cortex_tensor_copy tensor ;;
      match result with
      | None => ret None
      | Some r =>
          match sqrt_loop r with
          | Next d => ret (Some (set_data r d))
          | Exit _ =>
              cortex_set_error "Sqrt of negative number" ;;
              cortex_tensor_free result ;;
              ret None
          | Trap => undefined
          end
      end
  end.

(** *** Activation functions *)

Definition cortex_tensor_relu (tensor : option cortex_tensor_t)
  : M (option cortex_tensor_t) :=
  match tensor with
  | None => cortex_set_error "Cannot compute ReLU of NULL tensor" ;; ret None
  | Some _ =>
      result <- cortex_tensor_copy tensor ;;
      match result with
      | None => ret None
      | Some r =>
          d <- run_loop (for_range 0 (size r)
                 (fun i buf => update_at buf i (fun x => Next (fmax 0%float x)))
                 (data r)) ;;
          ret (Some (set_data r d))
      end
  end.

Definition cortex_tensor_sigmoid (tensor : option cortex_tensor_t)
  : M (option cortex_tensor_t) :=
  match tensor with
  | None => cortex_set_error "Cannot compute sigmoid of NULL tensor" ;; ret None
  | Some _ =>
      result <- cortex_tensor_copy tensor ;;
      match result with
      | None => ret None
      | Some r =>
          d <- run_loop (for_range 0 (size r)
                 (fun i buf => update_at buf i (fun x =>
                    Next (1 / (1 + c_exp (- x)))%float))
                 (data r)) ;;
          ret (Some (set_data r d))
      end
  end.

Definition cortex_tensor_tanh (tensor : option cortex_tensor_t)
  : M (option cortex_tensor_t) :=
  match tensor with
  | None => cortex_set_error "Cannot compute tanh of NULL tensor" ;; ret None
  | Some _ =>
      result <- cortex_tensor_copy tensor ;;
      match result with
      | None => ret None
      | Some r =>
          d <- run_loop (for_range 0 (size r)
                 (fun i buf => update_at buf i (fun x => Next (c_tanh x)))
                 (data r)) ;;
          ret (Some (set_data r d))
      end
  end.

(** The three loops of [cortex_tensor_softmax]. *)
Definition softmax_max (r : cortex_tensor_t) (first : cortex_float_t)
  : step Empty_set cortex_float_t :=
  for_range 1 (size r)
    (fun i max_val => read (data r) i (fun x =>
       Next (if (max_val <? x)%float then x else max_val)))
    first.

Definition softmax_exp (r : cortex_tensor_t) (max_val : cortex_float_t)
  : step Empty_set (list cortex_float_t * cortex_float_t) :=
  for_range 0 (size r)
    (fun i (acc : list cortex_float_t * cortex_float_t) =>
       let (buf, sum) := acc in
       read buf i (fun x =>
       let e := c_exp (x - max_val)%float in
       match write buf i e with
       | Next buf' => Next (buf', (sum + e)%float)
       | Exit r => Exit r
       | Trap => Trap
       end))
    (data r, 0%float).

Definition softmax_normalize (r : cortex_tensor_t) (buf : list cortex_float_t)
  (sum : cortex_float_t) : step Empty_set (list cortex_float_t) :=
  for_range 0 (size r)
    (fun i buf => update_at buf i (fun x => Next (x / sum)%float))
    buf.

Definition cortex_tensor_softmax (tensor : option cortex_tensor_t)
  : M (option cortex_tensor_t) :=
  match tensor with
  | None => cortex_set_error "Cannot compute softmax of NULL tensor" ;; ret None
  | Some _ =>
      result <- cortex_tensor_copy tensor ;;
      match result with
      | None => ret None
      | Some r =>
          match load (data r) 0 with
          | None => undefined
          | Some first =>
              max_val <- run_loop (softmax_max r first) ;;
              es <- run_loop (softmax_exp r max_val) ;;
              d <- run_loop (softmax_normalize r (fst es) (snd es)) ;;
              ret (Some (set_data r d))
          end
      end
  end.

(** *** Loss functions that take logarithms *)

Definition cortex_cross_entropy_loss (predictions targets : option cortex_tensor_t)
  : M cortex_float_t :=
  match predictions, targets with
  | Some p, Some t =>
      if negb (size p =? size t) then
        cortex_set_error "Tensor size mismatch for cross-entropy loss" ;;
        ret 0%float
      else
        loss <- run_loop (for_range 0 (size p)
                  (fun i loss =>
                     read (data p) i (fun x =>
                     if (0 <? x)%float then
                       read (data t) i (fun y => Next (loss - y * c_log x)%float)
                     else Next loss))
                  0%float) ;;
        ret (loss / float_of_int64 (size p))%float
  | _, _ =>
      cortex_set_error "Cannot compute cross-entropy loss of NULL tensors" ;;
      ret 0%float
  end.

Definition bce_epsilon : cortex_float_t := 0x1.5798ee2308c3ap-27%float.

Definition cortex_binary_cross_entropy_loss
  (predictions targets : option cortex_tensor_t) : M cortex_float_t :=
  match predictions, targets with
  | Some p, Some t =>
      if negb (size p =? size t) then
        cortex_set_error "Tensor size mismatch for binary cross-entropy loss" ;;
        ret 0%float
      else
        loss <- run_loop (for_range 0 (size p)
                  (fun i loss =>
                     read (data p) i (fun p0 =>
                     read (data t) i (fun t0 =>
                     let p1 := fmax bce_epsilon (fmin (1 - bce_epsilon)%float p0) in
                     Next (loss - (t0 * c_log p1
                                   + (1 - t0) * c_log (1 - p1)))%float)))
                  0%float) ;;
        ret (loss / float_of_int64 (size p))%float
  | _, _ =>
      cortex_set_error "Cannot compute binary cross-entropy loss of NULL tensors" ;;
      ret 0%float
  end.

End Libm.

(** ** Shape transforms *)

(** Modelled from the spec: [cortex_tensor_reshape] is declared in [cortex.h]
    and has no definition in the sources.  Section 4.7: reshape is "valid only
    if the new shape's element product equals [t.size] (else [ShapeMismatch]);
    produces a tensor sharing no storage with [t] (a fresh buffer, data
    copied) but with the new axis layout".  Inputs are validated before the
    allocation (section 7), and the result is built by [cortex_tensor_create]
    as every other tensor is. *)
Definition cortex_tensor_reshape (tensor : option cortex_tensor_t)
  (new_shape : option (list Z)) (new_ndim : Z) : M (option cortex_tensor_t) :=
  match tensor, new_shape with
  | Some t, Some sh =>
      if negb (shape_product (firstn (Z.to_nat new_ndim) sh) =? size t) then
        cortex_set_error "Tensor size mismatch for reshape" ;; ret None
      else
        result <- cortex_tensor_create new_shape new_ndim ;;
        match result with
        | None => ret None
        | Some r =>
            match memcpy (data r) (data t) (size t) with
            | None => undefined
            | Some d => ret (Some (set_data r d))
            end
        end
  | _, _ => cortex_set_error "Cannot reshape NULL tensor" ;; ret None
  end.

(** * Vocabulary of the statements *)

(** The invariant of section 3 on a tensor the runtime hands out: [ndim]
    counts the extents, [size] is their product as [cortex_tensor_create]
    computes it, the buffer holds [size] elements and fits the address space. *)
Definition well_formed (t : cortex_tensor_t) : bool :=
  (ndim t =? Z.of_nat (length (shape t)))
  && (0 <? ndim t) && (ndim t <=? INT32_MAX)
  && (size t =? shape_product (shape t))
  && (size t =? Z.of_nat (length (data t)))
  && (size t * sizeof_float <? I64.modulus).

(** The state after a failure that recorded [msg]. *)
Definition with_error (s : runtime) (msg : string) : runtime :=
  mk_runtime (Some msg) (heap_free s).

(** The state after [n] bytes were handed out. *)
Definition allocated (s : runtime) (n : Z) : runtime :=
  mk_runtime (g_error_message s) (heap_free s - n).

Definition step_map {R A B} (f : A -> B) (r : step R A) : step R B :=
  match r with
  | Next a => Next (f a)
  | Exit e => Exit e
  | Trap => Trap
  end.

(** An element-wise pass over a buffer as a list recursion: position [i]
    holds [x] and receives what [g i x] computes. *)
Fixpoint map_from {R} (g : Z -> cortex_float_t -> step R cortex_float_t)
  (i : Z) (l : list cortex_float_t) : step R (list cortex_float_t) :=
  match l with
  | [] => Next []
  | x :: tl =>
      match g i x with
      | Next y => step_map (cons y) (map_from g (i + 1) tl)
      | Exit e => Exit e
      | Trap => Trap
      end
  end.

(** A loop body that rewrites position [i] of the buffer by [g i] and
    touches nothing else. *)
Definition pointwise {R} (body : Z -> list cortex_float_t -> step R (list cortex_float_t))
  (g : Z -> cortex_float_t -> step R cortex_float_t) : Prop :=
  forall pre x tl,
    body (Z.of_nat (length pre)) (pre ++ x :: tl)
    = step_map (fun y => pre ++ y :: tl) (g (Z.of_nat (length pre)) x).

(** Position-by-position combination of two flat buffers. *)
Definition zip_with (f : cortex_float_t -> cortex_float_t -> cortex_float_t)
  (la lb : list cortex_float_t) : list cortex_float_t :=
  map (fun p => f (fst p) (snd p)) (combine la lb).

(** Some divisor compares equal to [0.0] (the C comparison [==], under which
    [-0.0] is a zero too). *)
Definition has_zero (l : list cortex_float_t) : bool :=
  existsb (fun y => (y =? 0)%float) l.

(** The message a failing [cortex_tensor_create] records: the shape message
    for a null shape or [ndim <= 0], the allocation message otherwise. *)
Definition create_message (sh : option (list Z)) (n : Z) : string :=
  match sh with
  | None => "Invalid tensor shape"
  | Some _ =>
      if n <=? 0 then "Invalid tensor shape" else "Memory allocation failed"
  end.

(** The message a failing [cortex_tensor_copy] records: its own for the null
    operand, the one of the [cortex_tensor_create] it calls otherwise. *)
Definition copy_message (t : option cortex_tensor_t) : string :=
  match t with
  | None => "Cannot copy NULL tensor"
  | Some t => create_message (Some (shape t)) (ndim t)
  end.

(** The call returned a tensor. *)
Definition granted (o : outcome (option cortex_tensor_t)) : bool :=
  match o with
  | Done (Some _) _ => true
  | _ => false
  end.

(** The message of an operation that copies its operand and cannot fail
    after the copy. *)
Definition unary_message (null_msg : string) (t : option cortex_tensor_t)
  : string :=
  match t with
  | None => null_msg
  | Some _ => copy_message t
  end.

(** The message of an operation that tests the elements after the copy: once
    the copy is granted, the only failure left is the domain error. *)
Definition domain_message (null_msg domain_msg : string)
  (t : option cortex_tensor_t) (s : runtime) : string :=
  match t with
  | None => null_msg
  | Some _ =>
      if granted (cortex_tensor_copy t s) then domain_msg else copy_message t
  end.

(** The message of an element-wise operation on two tensors: the tests come
    in the order null operand, size mismatch, copy of the first operand. *)
Definition binary_message (null_msg mismatch_msg : string)
  (a b : option cortex_tensor_t) : string :=
  match a, b with
  | Some ta, Some tb =>
      if negb (size ta =? size tb) then mismatch_msg else copy_message a
  | _, _ => null_msg
  end.

Definition divide_message (a b : option cortex_tensor_t) (s : runtime)
  : string :=
  match a, b with
  | Some ta, Some tb =>
      if negb (size ta =? size tb) then "Tensor size mismatch for division"
      else if granted (cortex_tensor_copy a s) then "Division by zero"
      else copy_message a
  | _, _ => "Cannot divide NULL tensors"
  end.

Definition matmul_message (a b : option cortex_tensor_t) : string :=
  match a, b with
  | Some ta, Some tb =>
      if negb (ndim ta =? 2) || negb (ndim tb =? 2)
      then "Matrix multiplication requires 2D tensors"
      else
        match load (shape ta) 1, load (shape tb) 0 with
        | Some a1, Some b0 =>
            if negb (a1 =? b0)
            then "Matrix dimension mismatch for multiplication"
            else "Memory allocation failed"
        | _, _ => "Memory allocation failed"
        end
  | _, _ => "Cannot multiply NULL tensors"
  end.

Definition transpose_message (t : option cortex_tensor_t) : string :=
  match t with
  | None => "Cannot transpose NULL tensor"
  | Some t =>
      if negb (ndim t =? 2) then "Transpose requires 2D tensor"
      else "Memory allocation failed"
  end.

Definition loss_message (null_msg mismatch_msg : string)
  (p t : option cortex_tensor_t) : string :=
  match p, t with
  | Some _, Some _ => mismatch_msg
  | _, _ => null_msg
  end.

(** What a call that returns a tensor does to the error slot: a returned
    tensor leaves the slot as it was before the call; the null result comes
    with the slot holding [expected], the message of this very failure,
    whatever the slot held before. *)
Definition slot_written {A} (expected : string) (o : outcome (option A))
  (s : runtime) : Prop :=
  match o with
  | Done (Some _) s' => g_error_message s' = g_error_message s
  | Done None s' => g_error_message s' = Some expected /\ expected <> ""
  | Undefined => True
  end.

(** The same for a function that returns a number: [failed] says whether the
    call takes one of its error returns. *)
Definition scalar_slot_written (failed : bool) (expected : string)
  (o : outcome cortex_float_t) (s : runtime) : Prop :=
  match o with
  | Done _ s' =>
      if failed
      then g_error_message s' = Some expected /\ expected <> ""
      else g_error_message s' = g_error_message s
  | Undefined => True
  end.

(** What the rest of a call does to the slot once its allocation is granted,
    when nothing can fail any more: it returns a tensor and leaves the slot
    alone. *)
Definition slot_kept {A} (o : outcome (option A)) (s : runtime) : Prop :=
  match o with
  | Done (Some _) s' => g_error_message s' = g_error_message s
  | Done None _ => False
  | Undefined => True
  end.

(** The failure conditions the scalar-returning functions test for. *)
Definition absent (t : option cortex_tensor_t) : bool :=
  match t with
  | None => true
  | Some _ => false
  end.

Definition absent_or_empty (t : option cortex_tensor_t) : bool :=
  match t with
  | None => true
  | Some t => size t =? 0
  end.

Definition absent_or_mismatched (p t : option cortex_tensor_t) : bool :=
  match p, t with
  | Some p, Some t => negb (size p =? size t)
  | _, _ => true
  end.

(** A call that changes nothing in the runtime state. *)
Definition pure_outcome {A} (o : outcome A) (s : runtime) : Prop :=
  match o with
  | Done _ s' => s' = s
  | Undefined => True
  end.

(** The two ways a scalar-returning function ends: under its failure
    condition it records a non-empty message and returns [0.0]; otherwise it
    leaves the whole state, the error slot included, as it found it. *)
Definition scalar_outcome (failed : bool) (o : outcome cortex_float_t)
  (s : runtime) : Prop :=
  if failed
  then exists msg, msg <> "" /\ o = Done 0%float (with_error s msg)
  else pure_outcome o s.

(** The result [r] lays its elements out as the operand [a] does. *)
Definition same_layout (r a : cortex_tensor_t) : Prop :=
  ndim r = ndim a /\ shape r = shape a /\ size r = size a
  /\ requires_grad r = requires_grad a.

(** The call returned a tensor laid out as [a] whose buffer combines the
    buffers of [a] and [b] position by position, and the copy was charged to
    the heap. *)
Definition combined_by (f : cortex_float_t -> cortex_float_t -> cortex_float_t)
  (a b : cortex_tensor_t) (s : runtime) (o : outcome (option cortex_tensor_t))
  : Prop :=
  exists r,
    o = Done (Some r) (allocated s (tensor_bytes a))
    /\ same_layout r a
    /\ data r = zip_with f (data a) (data b).




(** The maximum as the scan of [cortex_tensor_softmax] finds it: the first
    element seeds it and a later element replaces it when it is greater. *)
Definition list_max (first : cortex_float_t) (rest : list cortex_float_t)
  : cortex_float_t :=
  fold_left (fun m x => if (m <? x)%float then x else m) rest first.







(** ** Sample inputs *)

Definition sample_runtime : runtime := mk_runtime None 4096.

(** A 2x3 matrix and a vector of six elements: equal size, different layout. *)
Definition sample_matrix : cortex_tensor_t :=
  mk_tensor [1; 2; 3; 4; 5; 6]%float [2; 3] 2 6 false.

Definition sample_vector : cortex_tensor_t :=
  mk_tensor [6; 5; 4; 3; 2; 1]%float [6] 1 6 true.

(** The tensor [cortex_tensor_create] builds for the shape [[0]]. *)
Definition empty_tensor : cortex_tensor_t :=
  mk_tensor [] [0] 1 0 false.





(** ** Vocabulary of the further properties *)

(** Some element fails the domain test of [cortex_tensor_log], which is the
    C comparison [x <= 0.0]; a NaN passes it. *)
Definition has_non_positive (l : list cortex_float_t) : bool :=
  existsb (fun x => (x <=? 0)%float) l.

(** Some element fails the domain test of [cortex_tensor_sqrt], which is the
    C comparison [x < 0.0]; [-0.0] and NaN pass it. *)
Definition has_negative (l : list cortex_float_t) : bool :=
  existsb (fun x => (x <? 0)%float) l.


(** The values a loop counter takes: [n] consecutive integers from [i]. *)
Fixpoint z_range (i : Z) (n : nat) : list Z :=
  match n with
  | O => []
  | S n' => i :: z_range (i + 1) n'
  end.

(** The operand of the conversion in [cortex_arange]. *)
Definition arange_count (start stop step : cortex_float_t) : option Z :=
  int64_of_float ((stop - start) / step)%float.

(** The element [cortex_arange] stores at position [i]. *)
Definition arange_element (start step : cortex_float_t) (i : Z) : cortex_float_t :=
  (start + float_of_int64 i * step)%float.


(** The minimum as the scan of [cortex_tensor_min] finds it: the first
    element seeds it and a later element replaces it when it is smaller. *)
Definition list_min (first : cortex_float_t) (rest : list cortex_float_t)
  : cortex_float_t :=
  fold_left (fun m x => if (x <? m)%float then x else m) rest first.

(** What [cortex_cross_entropy_loss] accumulates: a pair whose prediction is
    greater than [0.0] subtracts [target * log(prediction)], any other pair
    leaves the loss as it is. *)
Definition cross_entropy_step (c_log : cortex_float_t -> cortex_float_t)
  (loss : cortex_float_t) (pair : cortex_float_t * cortex_float_t)
  : cortex_float_t :=
  if (0 <? fst pair)%float
  then (loss - snd pair * c_log (fst pair))%float
  else loss.


(** A well-formed tensor of two axes, [rows] x [cols], whose extents are
    non-negative [int64_t] values with an unwrapped product. *)
Definition is_matrix (t : cortex_tensor_t) (rows cols : Z) : Prop :=
  well_formed t = true
  /\ shape t = [rows; cols]
  /\ 0 <= rows <= I64.max_signed
  /\ 0 <= cols <= I64.max_signed
  /\ rows * cols = size t.

(** The element in row [i] and column [j] of a row-major buffer of [cols]
    columns ([0.0] for a position outside the buffer). *)
Definition entry (buf : list cortex_float_t) (cols i j : Z) : cortex_float_t :=
  match load buf (i * cols + j) with
  | Some x => x
  | None => 0%float
  end.

(** Row [i] of a buffer of [inner] columns times column [j] of a buffer of
    [cols] columns, accumulated from [0.0] in the order [k = 0, 1, ...] of
    the innermost loop of [cortex_tensor_matmul]. *)
Definition dot_product (a b : list cortex_float_t) (inner cols i j : Z)
  : cortex_float_t :=
  fold_left (fun sum k => (sum + entry a inner i k * entry b cols k j)%float)
            (z_range 0 (Z.to_nat inner)) 0%float.

(** A 3x2 matrix, to be multiplied by the 2x3 sample. *)
Definition sample_tall : cortex_tensor_t :=
  mk_tensor [1; 0; 0; 1; 1; 1]%float [3; 2] 2 6 false.

(** The call returned a tensor laid out as [t] whose buffer holds [f] of each
    element of [t], and the copy was charged to the heap. *)
Definition mapped_by (f : cortex_float_t -> cortex_float_t)
  (t : cortex_tensor_t) (s : runtime) (o : outcome (option cortex_tensor_t))
  : Prop :=
  exists r,
    o = Done (Some r) (allocated s (tensor_bytes t))
    /\ same_layout r t
    /\ length (data r) = length (data t)
    /\ forall i v, load (data t) i = Some v -> load (data r) i = Some (f v).

(** What a call that returns a tensor does to the heap: a returned tensor
    was charged with exactly its own bytes, and a null result leaves the
    free byte count where it was before the call. *)
Definition heap_frame (o : outcome (option cortex_tensor_t)) (s : runtime)
  : Prop :=
  match o with
  | Done (Some r) s' => heap_free s' = heap_free s - tensor_bytes r
  | Done None s' => heap_free s' = heap_free s
  | Undefined => True
  end.

(** The [ndim] field of an operand holds an [int32_t] value. *)
Definition int32_ndim (t : option cortex_tensor_t) : Prop :=
  match t with
  | Some t => ndim t <= INT32_MAX
  | None => True
  end.

(** A property of the value a loop or a loop body hands on, when it hands
    one on. *)
Definition step_holds {R A} (P : A -> Prop) (r : step R A) : Prop :=
  match r with
  | Next a => P a
  | Exit _ => True
  | Trap => True
  end.

(** What the rest of a call does with the block of the tensor [r] it has
    just allocated: it returns a tensor of the same byte count and allocates
    nothing more, or it returns null after giving the block back. *)
Definition keeps_block (r : cortex_tensor_t)
  (o : outcome (option cortex_tensor_t)) (s : runtime) : Prop :=
  match o with
  | Done (Some r') s' =>
      heap_free s' = heap_free s /\ tensor_bytes r' = tensor_bytes r
  | Done None s' => heap_free s' = heap_free s + tensor_bytes r
  | Undefined => True
  end.

(** The clamp of [cortex_binary_cross_entropy_loss]:
    [fmax(1e-8, fmin(1.0 - 1e-8, p))]. *)
Definition bce_clamp (p : cortex_float_t) : cortex_float_t :=
  fmax bce_epsilon (fmin (1 - bce_epsilon)%float p).

(** What [cortex_binary_cross_entropy_loss] accumulates for one pair of a
    prediction and a target. *)
Definition bce_step (c_log : cortex_float_t -> cortex_float_t)
  (loss : cortex_float_t) (pair : cortex_float_t * cortex_float_t)
  : cortex_float_t :=
  let p := bce_clamp (fst pair) in
  let t := snd pair in
  (loss - (t * c_log p + (1 - t) * c_log (1 - p)))%float.

(** [transpose(matmul(a, b))] and [matmul(transpose(b), transpose(a))], each
    result being handed to the next call; no intermediate tensor is freed. *)
Definition transpose_of_product (a b : cortex_tensor_t)
  : M (option cortex_tensor_t) :=
  ab <- cortex_tensor_matmul (Some a) (Some b) ;;
  cortex_tensor_transpose ab.

Definition product_of_transposes (a b : cortex_tensor_t)
  : M (option cortex_tensor_t) :=
  bt <- cortex_tensor_transpose (Some b) ;;
  at' <- cortex_tensor_transpose (Some a) ;;
  cortex_tensor_matmul bt at'.

(** The Box-Muller value [cortex_randn] computes from two uniform draws. *)
Definition box_muller (c_log c_cos : cortex_float_t -> cortex_float_t)
  (u1 u2 : cortex_float_t) : cortex_float_t :=
  (PrimFloat.sqrt (-2 * c_log u1) * c_cos (2 * M_PI * u2))%float.

(** * Properties *)

(** ** Machine integers and buffers *)

Lemma to_size_t_small (z : Z) : 0 <= z < I64.modulus -> I64.to_size_t z = z.
Proof. intros H. unfold I64.to_size_t. now apply Z.mod_small. Qed.

Lemma load_app_mid {A} (pre : list A) (x : A) (tl : list A) :
  load (pre ++ x :: tl) (Z.of_nat (length pre)) = Some x.
Proof.
  unfold load.
  destruct (Z.ltb_spec (Z.of_nat (length pre)) 0) as [Hneg | _]; [lia |].
  rewrite Nat2Z.id, nth_error_app2, Nat.sub_diag by lia.
  reflexivity.
Qed.

Lemma store_nat_app_mid {A} (pre : list A) (x : A) (tl : list A) (v : A) :
  store_nat (pre ++ x :: tl) (length pre) v = Some (pre ++ v :: tl).
Proof.
  induction pre as [| p pre IH]; simpl.
  - reflexivity.
  - now rewrite IH.
Qed.

Lemma store_app_mid {A} (pre : list A) (x : A) (tl : list A) (v : A) :
  store (pre ++ x :: tl) (Z.of_nat (length pre)) v = Some (pre ++ v :: tl).
Proof.
  unfold store.
  destruct (Z.ltb_spec (Z.of_nat (length pre)) 0) as [Hneg | _]; [lia |].
  rewrite Nat2Z.id. apply store_nat_app_mid.
Qed.

Lemma update_at_pointwise {R} (g : Z -> cortex_float_t -> step R cortex_float_t) :
  pointwise (fun i buf => update_at buf i (g i)) g.
Proof.
  intros pre x tl. unfold update_at, read, write.
  rewrite load_app_mid.
  destruct (g (Z.of_nat (length pre)) x); simpl; try reflexivity.
  now rewrite store_app_mid.
Qed.

(** An element-wise loop over the tail of a buffer is [map_from] on that tail. *)
Lemma for_loop_pointwise {R} body (g : Z -> cortex_float_t -> step R cortex_float_t) :
  pointwise body g ->
  forall tl pre,
    for_loop (length tl) (Z.of_nat (length pre)) body (pre ++ tl)
    = step_map (app pre) (map_from g (Z.of_nat (length pre)) tl).
Proof.
  intros Hbody tl. induction tl as [| x tl IH]; intros pre; simpl.
  - now rewrite app_nil_r.
  - rewrite Hbody.
    destruct (g (Z.of_nat (length pre)) x) as [y | e |]; simpl; try reflexivity.
    replace (pre ++ y :: tl) with ((pre ++ [y]) ++ tl)
      by (now rewrite <- app_assoc).
    replace (Z.of_nat (length pre) + 1) with (Z.of_nat (length (pre ++ [y])))
      by (rewrite length_app; simpl; lia).
    rewrite IH.
    destruct (map_from g (Z.of_nat (length (pre ++ [y]))) tl); simpl;
      try reflexivity.
    now rewrite <- app_assoc.
Qed.

Lemma for_range_pointwise {R} body (g : Z -> cortex_float_t -> step R cortex_float_t)
  (buf : list cortex_float_t) :
  pointwise body g ->
  for_range 0 (Z.of_nat (length buf)) body buf = map_from g 0 buf.
Proof.
  intros Hbody. unfold for_range.
  rewrite Z.sub_0_r, Nat2Z.id.
  pose proof (for_loop_pointwise body g Hbody buf []) as H.
  simpl in H. rewrite H.
  destruct (map_from g 0 buf); reflexivity.
Qed.

Lemma map_from_unary {R} (f : cortex_float_t -> cortex_float_t)
  (l : list cortex_float_t) (i : Z) :
  map_from (R := R) (fun _ x => Next (f x)) i l = Next (map f l).
Proof.
  revert i. induction l as [| x l IH]; intros i; simpl.
  - reflexivity.
  - now rewrite IH.
Qed.

Lemma map_from_binary {R} (f : cortex_float_t -> cortex_float_t -> cortex_float_t) :
  forall la lb preb,
    length la = length lb ->
    map_from (R := R)
      (fun i x => read (preb ++ lb) i (fun y => Next (f x y)))
      (Z.of_nat (length preb)) la
    = Next (zip_with f la lb).
Proof.
  induction la as [| x la IH]; intros lb preb Hlen.
  - reflexivity.
  - destruct lb as [| y lb]; [discriminate |].
    simpl. unfold read at 1. rewrite load_app_mid.
    replace (preb ++ y :: lb) with ((preb ++ [y]) ++ lb)
      by (now rewrite <- app_assoc).
    replace (Z.of_nat (length preb) + 1) with (Z.of_nat (length (preb ++ [y])))
      by (rewrite length_app; simpl; lia).
    rewrite IH by (simpl in Hlen; lia).
    reflexivity.
Qed.

Lemma memcpy_full {A} (dst src : list A) :
  length dst = length src ->
  memcpy dst src (Z.of_nat (length src)) = Some src.
Proof.
  intros Hlen. unfold memcpy.
  destruct (Z.leb_spec 0 (Z.of_nat (length src))); [| lia].
  destruct (Z.leb_spec (Z.of_nat (length src)) (Z.of_nat (length src))); [| lia].
  destruct (Z.leb_spec (Z.of_nat (length src)) (Z.of_nat (length dst))); [| lia].
  simpl. rewrite Nat2Z.id, firstn_all.
  rewrite <- Hlen, skipn_all, app_nil_r. reflexivity.
Qed.

Lemma well_formed_spec (t : cortex_tensor_t) :
  well_formed t = true ->
  ndim t = Z.of_nat (length (shape t))
  /\ 0 < ndim t <= INT32_MAX
  /\ size t = shape_product (shape t)
  /\ size t = Z.of_nat (length (data t))
  /\ size t * sizeof_float < I64.modulus.
Proof.
  unfold well_formed. intros H.
  repeat (apply andb_prop in H; destruct H as [H ?]).
  repeat split; try (now apply Z.eqb_eq); try (now apply Z.ltb_lt);
    now apply Z.leb_le.
Qed.

(** ** The tensor store *)

(** On a well-formed shape [cortex_tensor_create] is decided by the heap
    alone: either the three blocks fit and the zero-filled tensor is built,
    or nothing stays allocated and the allocation error is recorded. *)
Lemma cortex_tensor_create_spec (sh : list Z) (n : Z) (s : runtime) :
  n = Z.of_nat (length sh) ->
  0 < n <= INT32_MAX ->
  0 <= shape_product sh ->
  shape_product sh * sizeof_float < I64.modulus ->
  cortex_tensor_create (Some sh) n s
  = let bytes := sizeof_tensor + n * sizeof_int64
                 + shape_product sh * sizeof_float in
    if bytes <=? heap_free s
    then Done (Some (mk_tensor (repeat 0%float (Z.to_nat (shape_product sh)))
                               sh n (shape_product sh) false))
              (allocated s bytes)
    else Done None (with_error s "Memory allocation failed").
Proof.
  intros Hn Hrank Hpos Haddr.
  assert (Hmod : I64.modulus = 18446744073709551616) by reflexivity.
  assert (Hmax : INT32_MAX = 2147483647) by reflexivity.
  unfold sizeof_float, sizeof_int64, sizeof_tensor in *.
  unfold cortex_tensor_create.
  destruct (Z.leb_spec n 0) as [Hle | _]; [lia |].
  rewrite (to_size_t_small n) by lia.
  assert (Hcpy : memcpy (repeat 0 (Z.to_nat n)) sh n = Some sh).
  { subst n. apply memcpy_full. rewrite repeat_length. now rewrite Nat2Z.id. }
  rewrite Hcpy.
  rewrite (to_size_t_small (shape_product sh)) by lia.
  unfold cortex_malloc, cortex_calloc, calloc, malloc, free, cortex_set_error,
    bind, ret, allocated, with_error, sizeof_float, sizeof_int64, sizeof_tensor.
  cbv zeta.
  destruct (Z.leb_spec I64.modulus (shape_product sh * 8)) as [Hov | _]; [lia |].
  destruct (Z.leb_spec 40 (heap_free s)) as [H1 | H1]; cbn [negb heap_free g_error_message].
  - destruct (Z.leb_spec (n * 8) (heap_free s - 40)) as [H2 | H2]; cbn [negb heap_free g_error_message].
    + destruct (Z.leb_spec (shape_product sh * 8) (heap_free s - 40 - n * 8))
        as [H3 | H3]; cbn [negb heap_free g_error_message].
      * destruct (Z.leb_spec (40 + n * 8 + shape_product sh * 8) (heap_free s));
          [| lia].
        do 2 f_equal. lia.
      * destruct (Z.leb_spec (40 + n * 8 + shape_product sh * 8) (heap_free s));
          [lia |].
        do 2 f_equal. lia.
    + destruct (Z.leb_spec (40 + n * 8 + shape_product sh * 8) (heap_free s));
        [lia |].
      do 2 f_equal. lia.
  - destruct (Z.leb_spec (40 + n * 8 + shape_product sh * 8) (heap_free s));
      [lia |].
    reflexivity.
Qed.

Lemma cortex_tensor_copy_spec (t : cortex_tensor_t) (s : runtime) :
  well_formed t = true ->
  cortex_tensor_copy (Some t) s
  = if tensor_bytes t <=? heap_free s
    then Done (Some t) (allocated s (tensor_bytes t))
    else Done None (with_error s "Memory allocation failed").
Proof.
  intros Hwf. apply well_formed_spec in Hwf.
  destruct Hwf as (Hn & Hrank & Hsize & Hdata & Haddr).
  unfold cortex_tensor_copy, bind.
  rewrite cortex_tensor_create_spec by (try assumption; rewrite <- Hsize; lia).
  cbv zeta. unfold tensor_bytes.
  rewrite <- Hsize, <- Hn, <- Hdata.
  destruct (Z.leb_spec (sizeof_tensor + ndim t * sizeof_int64
                        + size t * sizeof_float) (heap_free s)); [| reflexivity].
  cbn [data].
  assert (Hcpy : memcpy (repeat 0%float (Z.to_nat (size t))) (data t) (size t)
                 = Some (data t)).
  { rewrite Hdata at 2. apply memcpy_full.
    rewrite repeat_length, Hdata. now rewrite Nat2Z.id. }
  rewrite Hcpy. unfold ret, set_requires_grad, set_data. simpl.
  destruct t; reflexivity.
Qed.

Ltac break_if :=
  match goal with
  | |- context [if ?c then _ else _] => destruct c eqn:?
  end.

Ltac break_match :=
  match goal with
  | |- context [match ?c with _ => _ end] => destruct c eqn:?
  end.

Ltac unfold_alloc :=
  unfold cortex_malloc, cortex_calloc, calloc, malloc, free, cortex_set_error,
    bind, ret, undefined.

Ltac message_written :=
  split; [reflexivity | discriminate].

Lemma set_error_written {A} (msg : string) (s : runtime) :
  msg <> "" ->
  slot_written msg ((cortex_set_error msg ;; ret (@None A)) s) s.
Proof. intros Hmsg. cbn. now split. Qed.

Lemma cortex_tensor_create_written (sh : option (list Z)) (n : Z) (s : runtime) :
  slot_written (create_message sh n) (cortex_tensor_create sh n s) s.
Proof.
  unfold cortex_tensor_create, create_message.
  destruct sh as [sh |]; [| cbn; message_written].
  destruct (n <=? 0); [cbn; message_written |].
  unfold_alloc.
  repeat (break_if; cbn [negb heap_free g_error_message slot_written]);
    try break_match; cbn [negb heap_free g_error_message slot_written];
    repeat (break_if; cbn [negb heap_free g_error_message slot_written]);
    try reflexivity; try exact I; try message_written.
Qed.

Lemma cortex_tensor_copy_written (t : option cortex_tensor_t) (s : runtime) :
  slot_written (copy_message t) (cortex_tensor_copy t s) s.
Proof.
  unfold cortex_tensor_copy, copy_message.
  destruct t as [t |]; [| cbn; message_written].
  unfold bind.
  pose proof (cortex_tensor_create_written (Some (shape t)) (ndim t) s) as H.
  destruct (cortex_tensor_create (Some (shape t)) (ndim t) s) as [[c |] s1 |];
    cbn [slot_written] in *; try assumption.
  destruct (memcpy (data c) (data t) (size t)); cbn; auto.
Qed.

(** An allocation followed by work that cannot fail. *)
Lemma alloc_then_written (m : M (option cortex_tensor_t))
  (k : option cortex_tensor_t -> M (option cortex_tensor_t))
  (e : string) (s : runtime) :
  slot_written e (m s) s ->
  (forall s1, k None s1 = Done None s1) ->
  (forall r s1, slot_kept (k (Some r) s1) s1) ->
  slot_written e ((result <- m ;; k result) s) s.
Proof.
  intros Hm Hnone Hsome. unfold bind.
  destruct (m s) as [[r |] s1 |]; cbn [slot_written] in *.
  - specialize (Hsome r s1).
    destruct (k (Some r) s1) as [[r' |] s' |]; cbn [slot_kept slot_written] in *;
      [congruence | contradiction | exact I].
  - rewrite Hnone. exact Hm.
  - exact I.
Qed.

(** An allocation followed by work that can fail with the message [d]. *)
Lemma alloc_then_domain (m : M (option cortex_tensor_t))
  (k : option cortex_tensor_t -> M (option cortex_tensor_t))
  (e d : string) (s : runtime) :
  slot_written e (m s) s ->
  (forall s1, k None s1 = Done None s1) ->
  (forall r s1, slot_written d (k (Some r) s1) s1) ->
  slot_written (if granted (m s) then d else e) ((result <- m ;; k result) s) s.
Proof.
  intros Hm Hnone Hsome. unfold bind, granted.
  destruct (m s) as [[r |] s1 |]; cbn [slot_written] in *.
  - specialize (Hsome r s1).
    destruct (k (Some r) s1) as [[r' |] s' |]; cbn [slot_written] in *;
      [congruence | assumption | exact I].
  - rewrite Hnone. exact Hm.
  - exact I.
Qed.

Lemma run_loop_kept {A B} (r : step Empty_set A) (k : A -> M (option B))
  (s : runtime) :
  (forall a, slot_kept (k a s) s) ->
  slot_kept ((x <- run_loop r ;; k x) s) s.
Proof.
  intros Hk. unfold bind, run_loop.
  destruct r as [a | e |]; cbn; [apply Hk | destruct e | exact I].
Qed.

(** A loop with an error return that records [msg] and frees the block. *)
Lemma exit_loop_written (r : cortex_tensor_t)
  (l : step unit (list cortex_float_t)) (msg : string) (s : runtime) :
  msg <> "" ->
  slot_written msg
    (match l with
     | Next d => ret (Some (set_data r d))
     | Exit _ => cortex_set_error msg ;; cortex_tensor_free (Some r) ;; ret None
     | Trap => undefined
     end s) s.
Proof.
  intros Hmsg. destruct l as [d | e |]; cbn; [reflexivity | now split | exact I].
Qed.

Ltac kept_after_alloc :=
  intros ? ?; first
    [ reflexivity
    | apply run_loop_kept; intros; reflexivity ].

Ltac written_of_copy :=
  apply alloc_then_written;
  [ apply cortex_tensor_copy_written | reflexivity | kept_after_alloc ].

Ltac written_of_domain :=
  apply alloc_then_domain;
  [ apply cortex_tensor_copy_written
  | reflexivity
  | intros ? ?; apply exit_loop_written; discriminate ].

Ltac written_of_create msg :=
  apply (alloc_then_written _ _ msg);
  [ apply cortex_tensor_create_written | reflexivity | kept_after_alloc ].

Ltac written_of_binary :=
  intros a b s; unfold binary_message;
  destruct a as [ta |]; [destruct b as [tb |] |]; cbn beta iota;
  [ match goal with
    | |- context [negb (size ?x =? size ?y)] =>
        destruct (negb (size x =? size y))
    end;
    [ apply set_error_written; discriminate | written_of_copy ]
  | apply set_error_written; discriminate
  | apply set_error_written; discriminate ].

Ltac written_of_unary :=
  intros t s; unfold unary_message; destruct t as [t |];
  [ written_of_copy | apply set_error_written; discriminate ].

Lemma cortex_zeros_written :
  forall sh n s, slot_written (create_message sh n) (cortex_zeros sh n s) s.
Proof.
  intros sh n s. unfold cortex_zeros. written_of_create (create_message sh n).
Qed.

Lemma cortex_ones_written :
  forall sh n s, slot_written (create_message sh n) (cortex_ones sh n s) s.
Proof.
  intros sh n s. unfold cortex_ones. written_of_create (create_message sh n).
Qed.

Lemma cortex_randn_written c_log c_cos uniform_draw :
  forall sh n s,
    slot_written (create_message sh n)
      (cortex_randn c_log c_cos uniform_draw sh n s) s.
Proof.
  intros sh n s. unfold cortex_randn. written_of_create (create_message sh n).
Qed.

Lemma cortex_eye_written :
  forall n s, slot_written "Memory allocation failed" (cortex_eye n s) s.
Proof.
  intros n s. unfold cortex_eye.
  written_of_create (create_message (Some [n; n]) 2).
Qed.

Lemma cortex_arange_written :
  forall start stop step s,
    slot_written "Memory allocation failed" (cortex_arange start stop step s) s.
Proof.
  intros start stop step s. unfold cortex_arange.
  destruct (int64_of_float ((stop - start) / step)) as [n |]; [| exact I].
  written_of_create (create_message (Some [n]) 1).
Qed.

Lemma cortex_tensor_add_written :
  forall a b s,
    slot_written
      (binary_message "Cannot add NULL tensors"
         "Tensor size mismatch for addition" a b)
      (cortex_tensor_add a b s) s.
Proof. unfold cortex_tensor_add. written_of_binary. Qed.

Lemma cortex_tensor_subtract_written :
  forall a b s,
    slot_written
      (binary_message "Cannot subtract NULL tensors"
         "Tensor size mismatch for subtraction" a b)
      (cortex_tensor_subtract a b s) s.
Proof. unfold cortex_tensor_subtract. written_of_binary. Qed.

Lemma cortex_tensor_multiply_written :
  forall a b s,
    slot_written
      (binary_message "Cannot multiply NULL tensors"
         "Tensor size mismatch for multiplication" a b)
      (cortex_tensor_multiply a b s) s.
Proof. unfold cortex_tensor_multiply. written_of_binary. Qed.

Lemma cortex_tensor_power_written c_pow :
  forall a b s,
    slot_written
      (binary_message "Cannot raise NULL tensors to power"
         "Tensor size mismatch for power operation" a b)
      (cortex_tensor_power c_pow a b s) s.
Proof. unfold cortex_tensor_power. written_of_binary. Qed.

Lemma cortex_tensor_divide_written :
  forall a b s,
    slot_written (divide_message a b s) (cortex_tensor_divide a b s) s.
Proof.
  intros a b s. unfold cortex_tensor_divide, divide_message.
  destruct a as [ta |]; [destruct b as [tb |] |]; cbn beta iota;
    try (apply set_error_written; discriminate).
  destruct (negb (size ta =? size tb));
    [apply set_error_written; discriminate |].
  written_of_domain.
Qed.

Lemma cortex_tensor_add_scalar_written x :
  forall t s,
    slot_written (unary_message "Cannot add scalar to NULL tensor" t)
      (cortex_tensor_add_scalar t x s) s.
Proof. unfold cortex_tensor_add_scalar. written_of_unary. Qed.

Lemma cortex_tensor_multiply_scalar_written x :
  forall t s,
    slot_written (unary_message "Cannot multiply NULL tensor by scalar" t)
      (cortex_tensor_multiply_scalar t x s) s.
Proof. unfold cortex_tensor_multiply_scalar. written_of_unary. Qed.

Lemma cortex_tensor_exp_written c_exp :
  forall t s,
    slot_written (unary_message "Cannot compute exp of NULL tensor" t)
      (cortex_tensor_exp c_exp t s) s.
Proof. unfold cortex_tensor_exp. written_of_unary. Qed.

Lemma cortex_tensor_relu_written :
  forall t s,
    slot_written (unary_message "Cannot compute ReLU of NULL tensor" t)
      (cortex_tensor_relu t s) s.
Proof. unfold cortex_tensor_relu. written_of_unary. Qed.

Lemma cortex_tensor_sigmoid_written c_exp :
  forall t s,
    slot_written (unary_message "Cannot compute sigmoid of NULL tensor" t)
      (cortex_tensor_sigmoid c_exp t s) s.
Proof. unfold cortex_tensor_sigmoid. written_of_unary. Qed.

Lemma cortex_tensor_tanh_written c_tanh :
  forall t s,
    slot_written (unary_message "Cannot compute tanh of NULL tensor" t)
      (cortex_tensor_tanh c_tanh t s) s.
Proof. unfold cortex_tensor_tanh. written_of_unary. Qed.

Lemma cortex_tensor_softmax_written c_exp :
  forall t s,
    slot_written (unary_message "Cannot compute softmax of NULL tensor" t)
      (cortex_tensor_softmax c_exp t s) s.
Proof.
  intros t s. unfold cortex_tensor_softmax, unary_message.
  destruct t as [t |]; [| apply set_error_written; discriminate].
  apply alloc_then_written;
    [apply cortex_tensor_copy_written | reflexivity |].
  intros r s1. destruct (load (data r) 0); [| exact I].
  apply run_loop_kept; intros max_val.
  apply run_loop_kept; intros es.
  apply run_loop_kept; intros d. reflexivity.
Qed.

Lemma cortex_tensor_log_written c_log :
  forall t s,
    slot_written
      (domain_message "Cannot compute log of NULL tensor"
         "Log of non-positive number" t s)
      (cortex_tensor_log c_log t s) s.
Proof.
  intros t s. unfold cortex_tensor_log, domain_message.
  destruct t as [t |]; [| apply set_error_written; discriminate].
  written_of_domain.
Qed.

Lemma cortex_tensor_sqrt_written :
  forall t s,
    slot_written
      (domain_message "Cannot compute sqrt of NULL tensor"
         "Sqrt of negative number" t s)
      (cortex_tensor_sqrt t s) s.
Proof.
  intros t s. unfold cortex_tensor_sqrt, domain_message.
  destruct t as [t |]; [| apply set_error_written; discriminate].
  written_of_domain.
Qed.

Lemma cortex_tensor_matmul_written :
  forall a b s, slot_written (matmul_message a b) (cortex_tensor_matmul a b s) s.
Proof.
  intros a b s. unfold cortex_tensor_matmul, matmul_message.
  destruct a as [ta |]; [destruct b as [tb |] |];
    try (apply set_error_written; discriminate).
  destruct (negb (ndim ta =? 2) || negb (ndim tb =? 2));
    [apply set_error_written; discriminate |].
  destruct (load (shape ta) 0) as [a0 |]; [| exact I].
  destruct (load (shape ta) 1) as [a1 |]; [| exact I].
  destruct (load (shape tb) 0) as [b0 |]; [| exact I].
  destruct (load (shape tb) 1) as [b1 |]; [| exact I].
  destruct (negb (a1 =? b0)); [apply set_error_written; discriminate |].
  written_of_create (create_message (Some [a0; b1]) 2).
Qed.

Lemma cortex_tensor_transpose_written :
  forall t s,
    slot_written (transpose_message t) (cortex_tensor_transpose t s) s.
Proof.
  intros t s. unfold cortex_tensor_transpose, transpose_message.
  destruct t as [t |]; [| apply set_error_written; discriminate].
  destruct (negb (ndim t =? 2)); [apply set_error_written; discriminate |].
  destruct (load (shape t) 0) as [t0 |]; [| exact I].
  destruct (load (shape t) 1) as [t1 |]; [| exact I].
  written_of_create (create_message (Some [t1; t0]) 2).
Qed.

(** ** Scalar-returning functions *)

Lemma run_loop_pure {A} (r : step Empty_set A) (s : runtime) :
  pure_outcome (run_loop r s) s.
Proof. destruct r as [a | e |]; cbn; [reflexivity | destruct e | exact I]. Qed.

Lemma pure_bind {A B} (m : M A) (k : A -> M B) (s : runtime) :
  pure_outcome (m s) s ->
  (forall a, pure_outcome (k a s) s) ->
  pure_outcome ((x <- m ;; k x) s) s.
Proof.
  unfold bind. intros Hm Hk.
  destruct (m s) as [a s1 |]; cbn in *; [subst s1; apply Hk | exact I].
Qed.

Ltac failure_return :=
  cbn; eexists; split; [| reflexivity]; discriminate.

Lemma cortex_tensor_sum_outcome (t : option cortex_tensor_t) (s : runtime) :
  scalar_outcome (absent t) (cortex_tensor_sum t s) s.
Proof.
  destruct t as [t |]; [apply run_loop_pure | failure_return].
Qed.

Lemma cortex_tensor_mean_outcome (t : option cortex_tensor_t) (s : runtime) :
  scalar_outcome (absent t) (cortex_tensor_mean t s) s.
Proof.
  destruct t as [t |]; [| failure_return].
  cbn [absent scalar_outcome cortex_tensor_mean].
  apply pure_bind; [apply (cortex_tensor_sum_outcome (Some t)) | reflexivity].
Qed.

Lemma cortex_tensor_std_outcome (t : option cortex_tensor_t) (s : runtime) :
  scalar_outcome (absent t) (cortex_tensor_std t s) s.
Proof.
  destruct t as [t |]; [| failure_return].
  cbn [absent scalar_outcome cortex_tensor_std].
  apply pure_bind; [apply (cortex_tensor_mean_outcome (Some t)) |].
  intros mean_val. apply pure_bind; [apply run_loop_pure | reflexivity].
Qed.

Lemma cortex_tensor_var_outcome (t : option cortex_tensor_t) (s : runtime) :
  scalar_outcome (absent t) (cortex_tensor_var t s) s.
Proof.
  destruct t as [t |]; [| failure_return].
  cbn [absent scalar_outcome cortex_tensor_var].
  apply pure_bind; [apply (cortex_tensor_std_outcome (Some t)) | reflexivity].
Qed.

Lemma cortex_tensor_min_outcome (t : option cortex_tensor_t) (s : runtime) :
  scalar_outcome (absent_or_empty t) (cortex_tensor_min t s) s.
Proof.
  destruct t as [t |]; [| failure_return].
  cbn [absent_or_empty cortex_tensor_min].
  destruct (size t =? 0); [failure_return |].
  cbn [scalar_outcome].
  destruct (load (data t) 0); [apply run_loop_pure | exact I].
Qed.

Lemma cortex_tensor_max_outcome (t : option cortex_tensor_t) (s : runtime) :
  scalar_outcome (absent_or_empty t) (cortex_tensor_max t s) s.
Proof.
  destruct t as [t |]; [| failure_return].
  cbn [absent_or_empty cortex_tensor_max].
  destruct (size t =? 0); [failure_return |].
  cbn [scalar_outcome].
  destruct (load (data t) 0); [apply run_loop_pure | exact I].
Qed.

Ltac loss_outcome :=
  intros p t s;
  destruct p as [p |]; [destruct t as [t |] |]; try failure_return;
  cbn [absent_or_mismatched];
  destruct (size p =? size t); cbn [negb]; [| failure_return];
  cbn [scalar_outcome];
  apply pure_bind; [apply run_loop_pure | reflexivity].

Lemma cortex_mse_loss_outcome :
  forall p t s,
    scalar_outcome (absent_or_mismatched p t) (cortex_mse_loss p t s) s.
Proof. unfold cortex_mse_loss. loss_outcome. Qed.

Lemma cortex_cross_entropy_loss_outcome c_log :
  forall p t s,
    scalar_outcome (absent_or_mismatched p t)
      (cortex_cross_entropy_loss c_log p t s) s.
Proof. unfold cortex_cross_entropy_loss. loss_outcome. Qed.

Lemma cortex_binary_cross_entropy_loss_outcome c_log :
  forall p t s,
    scalar_outcome (absent_or_mismatched p t)
      (cortex_binary_cross_entropy_loss c_log p t s) s.
Proof. unfold cortex_binary_cross_entropy_loss. loss_outcome. Qed.

(** ** Element-wise operations on well-formed operands *)

Lemma zip_loop_spec (f : cortex_float_t -> cortex_float_t -> cortex_float_t)
  (r tb : cortex_tensor_t) (s : runtime) :
  size r = Z.of_nat (length (data r)) ->
  length (data r) = length (data tb) ->
  run_loop (for_range 0 (size r)
              (fun i buf => update_at buf i (fun x =>
                 read (data tb) i (fun y => Next (f x y))))
              (data r)) s
  = Done (zip_with f (data r) (data tb)) s.
Proof.
  intros Hsize Hlen. rewrite Hsize.
  rewrite (for_range_pointwise _
             (fun i x => read (data tb) i (fun y => Next (f x y))))
    by apply update_at_pointwise.
  pose proof (map_from_binary (R := Empty_set) f (data r) (data tb) [] Hlen) as H.
  simpl in H. rewrite H. reflexivity.
Qed.

Lemma map_loop_spec (f : cortex_float_t -> cortex_float_t)
  (r : cortex_tensor_t) (s : runtime) :
  size r = Z.of_nat (length (data r)) ->
  run_loop (for_range 0 (size r)
              (fun i buf => update_at buf i (fun x => Next (f x)))
              (data r)) s
  = Done (map f (data r)) s.
Proof.
  intros Hsize. rewrite Hsize.
  rewrite (for_range_pointwise _ (fun _ x => Next (f x)))
    by apply update_at_pointwise.
  rewrite map_from_unary. reflexivity.
Qed.

Lemma same_length_data (a b : cortex_tensor_t) :
  well_formed a = true -> well_formed b = true -> size a = size b ->
  size a = Z.of_nat (length (data a)) /\ length (data a) = length (data b).
Proof.
  intros Ha Hb Hab.
  apply well_formed_spec in Ha. apply well_formed_spec in Hb.
  destruct Ha as (_ & _ & _ & Ha & _). destruct Hb as (_ & _ & _ & Hb & _).
  split; [assumption | lia].
Qed.

Ltac binary_spec f :=
  intros a b s Ha Hb Hab;
  destruct (same_length_data a b Ha Hb Hab) as [Hsize Hlen];
  cbn beta iota; rewrite Hab, Z.eqb_refl; cbn [negb];
  unfold bind at 1; rewrite cortex_tensor_copy_spec by assumption;
  destruct (tensor_bytes a <=? heap_free s); [| reflexivity];
  unfold bind; rewrite (zip_loop_spec f) by assumption;
  reflexivity.

Lemma cortex_tensor_add_spec :
  forall a b s,
    well_formed a = true -> well_formed b = true -> size a = size b ->
    cortex_tensor_add (Some a) (Some b) s
    = if tensor_bytes a <=? heap_free s
      then Done (Some (set_data a (zip_with PrimFloat.add (data a) (data b))))
                (allocated s (tensor_bytes a))
      else Done None (with_error s "Memory allocation failed").
Proof. unfold cortex_tensor_add. binary_spec PrimFloat.add. Qed.

Lemma cortex_tensor_subtract_spec :
  forall a b s,
    well_formed a = true -> well_formed b = true -> size a = size b ->
    cortex_tensor_subtract (Some a) (Some b) s
    = if tensor_bytes a <=? heap_free s
      then Done (Some (set_data a (zip_with PrimFloat.sub (data a) (data b))))
                (allocated s (tensor_bytes a))
      else Done None (with_error s "Memory allocation failed").
Proof. unfold cortex_tensor_subtract. binary_spec PrimFloat.sub. Qed.

Lemma cortex_tensor_multiply_spec :
  forall a b s,
    well_formed a = true -> well_formed b = true -> size a = size b ->
    cortex_tensor_multiply (Some a) (Some b) s
    = if tensor_bytes a <=? heap_free s
      then Done (Some (set_data a (zip_with PrimFloat.mul (data a) (data b))))
                (allocated s (tensor_bytes a))
      else Done None (with_error s "Memory allocation failed").
Proof. unfold cortex_tensor_multiply. binary_spec PrimFloat.mul. Qed.

Lemma cortex_tensor_power_spec c_pow :
  forall a b s,
    well_formed a = true -> well_formed b = true -> size a = size b ->
    cortex_tensor_power c_pow (Some a) (Some b) s
    = if tensor_bytes a <=? heap_free s
      then Done (Some (set_data a (zip_with c_pow (data a) (data b))))
                (allocated s (tensor_bytes a))
      else Done None (with_error s "Memory allocation failed").
Proof. unfold cortex_tensor_power. binary_spec c_pow. Qed.

(** *** Division *)

Lemma divide_body_pointwise (tb : cortex_tensor_t) :
  pointwise
    (fun i buf =>
       read (data tb) i (fun y =>
         if (y =? 0)%float then Exit tt
         else update_at buf i (fun x => Next (x / y)%float)))
    (fun i x =>
       read (data tb) i (fun y =>
         if (y =? 0)%float then Exit tt else Next (x / y)%float)).
Proof.
  intros pre x tl. unfold read.
  destruct (load (data tb) (Z.of_nat (length pre))) as [y |]; [| reflexivity].
  destruct (y =? 0)%float; [reflexivity |].
  apply (update_at_pointwise (fun _ x => Next (x / y)%float)).
Qed.

Lemma map_from_divide :
  forall la lb preb,
    length la = length lb ->
    map_from
      (fun i x => read (preb ++ lb) i (fun y =>
         if (y =? 0)%float then Exit tt else Next (x / y)%float))
      (Z.of_nat (length preb)) la
    = if has_zero lb then Exit tt
      else Next (zip_with PrimFloat.div la lb).
Proof.
  induction la as [| x la IH]; intros lb preb Hlen.
  - destruct lb; [reflexivity | discriminate].
  - destruct lb as [| y lb]; [discriminate |].
    simpl. unfold read at 1. rewrite load_app_mid.
    destruct (y =? 0)%float; [reflexivity |].
    replace (preb ++ y :: lb) with ((preb ++ [y]) ++ lb)
      by (now rewrite <- app_assoc).
    replace (Z.of_nat (length preb) + 1) with (Z.of_nat (length (preb ++ [y])))
      by (rewrite length_app; simpl; lia).
    rewrite IH by (simpl in Hlen; lia).
    simpl. destruct (has_zero lb); reflexivity.
Qed.

Lemma divide_loop_spec (r tb : cortex_tensor_t) :
  size r = Z.of_nat (length (data r)) ->
  length (data r) = length (data tb) ->
  divide_loop r tb
  = if has_zero (data tb) then Exit tt
    else Next (zip_with PrimFloat.div (data r) (data tb)).
Proof.
  intros Hsize Hlen. unfold divide_loop. rewrite Hsize.
  rewrite (for_range_pointwise _ _ _ (divide_body_pointwise tb)).
  exact (map_from_divide (data r) (data tb) [] Hlen).
Qed.

(** [cortex_tensor_divide] on well-formed operands of equal size: the heap
    decides whether the copy is made, the divisors decide the rest; after a
    zero divisor every block of the copy is back with the allocator. *)
Lemma cortex_tensor_divide_spec (a b : cortex_tensor_t) (s : runtime) :
  well_formed a = true -> well_formed b = true -> size a = size b ->
  cortex_tensor_divide (Some a) (Some b) s
  = if tensor_bytes a <=? heap_free s
    then if has_zero (data b)
         then Done None (with_error s "Division by zero")
         else Done (Some (set_data a (zip_with PrimFloat.div (data a) (data b))))
                   (allocated s (tensor_bytes a))
    else Done None (with_error s "Memory allocation failed").
Proof.
  intros Ha Hb Hab.
  destruct (same_length_data a b Ha Hb Hab) as [Hsize Hlen].
  unfold cortex_tensor_divide.
  rewrite Hab, Z.eqb_refl; cbn [negb].
  unfold bind at 1. rewrite cortex_tensor_copy_spec by assumption.
  destruct (tensor_bytes a <=? heap_free s); [| reflexivity].
  rewrite divide_loop_spec by assumption.
  destruct (has_zero (data b)); [| reflexivity].
  unfold cortex_tensor_free, cortex_set_error, free, bind, ret, with_error,
    allocated, tensor_bytes.
  cbn [heap_free g_error_message].
  do 2 f_equal. lia.
Qed.

Lemma load_zip_with (f : cortex_float_t -> cortex_float_t -> cortex_float_t)
  (la lb : list cortex_float_t) (i : Z) (x y : cortex_float_t) :
  load la i = Some x -> load lb i = Some y ->
  load (zip_with f la lb) i = Some (f x y).
Proof.
  unfold load. destruct (i <? 0); [discriminate |].
  generalize (Z.to_nat i) as n. clear i.
  revert lb. induction la as [| a la IH]; intros lb n Ha Hb.
  - destruct n; discriminate.
  - destruct lb as [| b lb]; [destruct n; discriminate |].
    destruct n as [| n]; simpl in *.
    + now inversion Ha; inversion Hb.
    + now apply IH.
Qed.

(** ** Which message a failed allocation leaves *)

Lemma cortex_tensor_create_failure (sh : option (list Z)) (n : Z) (s s1 : runtime) :
  cortex_tensor_create sh n s = Done None s1 ->
  g_error_message s1 = Some "Memory allocation failed"
  \/ g_error_message s1 = Some "Invalid tensor shape".
Proof.
  unfold cortex_tensor_create. destruct sh as [sh |].
  - unfold_alloc.
    repeat (break_if; cbn [negb heap_free g_error_message]);
      try break_match; cbn [negb heap_free g_error_message];
      repeat (break_if; cbn [negb heap_free g_error_message]);
      intros H; inversion H; subst; cbn; auto.
  - unfold_alloc. intros H; inversion H; subst; cbn; auto.
Qed.

Lemma cortex_tensor_copy_failure (t : cortex_tensor_t) (s s1 : runtime) :
  cortex_tensor_copy (Some t) s = Done None s1 ->
  g_error_message s1 = Some "Memory allocation failed"
  \/ g_error_message s1 = Some "Invalid tensor shape".
Proof.
  unfold cortex_tensor_copy, bind.
  destruct (cortex_tensor_create (Some (shape t)) (ndim t) s)
    as [[c |] s2 |] eqn:Hc; try discriminate.
  - destruct (memcpy (data c) (data t) (size t)); discriminate.
  - intros H. inversion H; subst. eapply cortex_tensor_create_failure, Hc.
Qed.

(** With operands of equal size a binary operation never ends in its
    size-mismatch failure: what can still fail is the allocation of the copy
    or, in the division, a zero divisor. *)
Ltac no_mismatch_when_equal :=
  intros a b s Hab; cbn beta iota; rewrite Hab, Z.eqb_refl; cbn [negb];
  unfold bind at 1;
  destruct (cortex_tensor_copy (Some a) s) as [[r |] s1 |] eqn:Hc;
  [ first
      [ unfold bind, run_loop;
        match goal with
        | |- context [for_range ?lo ?hi ?body ?acc] =>
            destruct (for_range lo hi body acc) as [d | [] |]
        end; cbn; discriminate
      | break_match; cbn; try discriminate;
        intros H; inversion H ]
  | intros H; inversion H; subst;
    destruct (cortex_tensor_copy_failure _ _ _ Hc) as [Hm | Hm];
    cbn in Hm; discriminate
  | discriminate ].

Lemma add_no_mismatch :
  forall a b s, size a = size b ->
    cortex_tensor_add (Some a) (Some b) s
    <> Done None (with_error s "Tensor size mismatch for addition").
Proof. unfold cortex_tensor_add. no_mismatch_when_equal. Qed.

Lemma subtract_no_mismatch :
  forall a b s, size a = size b ->
    cortex_tensor_subtract (Some a) (Some b) s
    <> Done None (with_error s "Tensor size mismatch for subtraction").
Proof. unfold cortex_tensor_subtract. no_mismatch_when_equal. Qed.

Lemma multiply_no_mismatch :
  forall a b s, size a = size b ->
    cortex_tensor_multiply (Some a) (Some b) s
    <> Done None (with_error s "Tensor size mismatch for multiplication").
Proof. unfold cortex_tensor_multiply. no_mismatch_when_equal. Qed.

Lemma divide_no_mismatch :
  forall a b s, size a = size b ->
    cortex_tensor_divide (Some a) (Some b) s
    <> Done None (with_error s "Tensor size mismatch for division").
Proof. unfold cortex_tensor_divide. no_mismatch_when_equal. Qed.

Lemma power_no_mismatch c_pow :
  forall a b s, size a = size b ->
    cortex_tensor_power c_pow (Some a) (Some b) s
    <> Done None (with_error s "Tensor size mismatch for power operation").
Proof. unfold cortex_tensor_power. no_mismatch_when_equal. Qed.

(** ** Claims about the element-wise engine *)

Lemma combined_by_intro f (a b : cortex_tensor_t) (s : runtime) :
  combined_by f a b s
    (Done (Some (set_data a (zip_with f (data a) (data b))))
          (allocated s (tensor_bytes a))).
Proof.
  exists (set_data a (zip_with f (data a) (data b))).
  repeat split; reflexivity.
Qed.

(** C7.  A binary element-wise operation on two present tensors ends in its
    size-mismatch failure exactly when [a.size <> b.size].  The axis layouts
    are never compared: for well-formed operands of equal size, whatever
    their [ndim] and [shape], and a heap that can hold the copy, [add],
    [subtract], [multiply] and [power] return a tensor laid out as [a] whose
    flat buffer combines the operands position by position, and so does
    [divide] unless a divisor is zero. *)
Theorem binary_ops_compare_sizes_only
  (c_pow : cortex_float_t -> cortex_float_t -> cortex_float_t)
  (a b : cortex_tensor_t) (s : runtime) :
  (cortex_tensor_add (Some a) (Some b) s
   = Done None (with_error s "Tensor size mismatch for addition")
   <-> size a <> size b)
  /\ (cortex_tensor_subtract (Some a) (Some b) s
      = Done None (with_error s "Tensor size mismatch for subtraction")
      <-> size a <> size b)
  /\ (cortex_tensor_multiply (Some a) (Some b) s
      = Done None (with_error s "Tensor size mismatch for multiplication")
      <-> size a <> size b)
  /\ (cortex_tensor_divide (Some a) (Some b) s
      = Done None (with_error s "Tensor size mismatch for division")
      <-> size a <> size b)
  /\ (cortex_tensor_power c_pow (Some a) (Some b) s
      = Done None (with_error s "Tensor size mismatch for power operation")
      <-> size a <> size b)
  /\ (well_formed a = true -> well_formed b = true ->
      size a = size b -> tensor_bytes a <= heap_free s ->
      combined_by PrimFloat.add a b s (cortex_tensor_add (Some a) (Some b) s)
      /\ combined_by PrimFloat.sub a b s
           (cortex_tensor_subtract (Some a) (Some b) s)
      /\ combined_by PrimFloat.mul a b s
           (cortex_tensor_multiply (Some a) (Some b) s)
      /\ combined_by c_pow a b s (cortex_tensor_power c_pow (Some a) (Some b) s)
      /\ (has_zero (data b) = false ->
          combined_by PrimFloat.div a b s
            (cortex_tensor_divide (Some a) (Some b) s))).
Proof.
  assert (Hmis : forall (op : option cortex_tensor_t -> option cortex_tensor_t
                              -> M (option cortex_tensor_t)) msg,
            (forall x y st, size x = size y ->
               op (Some x) (Some y) st <> Done None (with_error st msg)) ->
            (size a <> size b ->
               op (Some a) (Some b) s = Done None (with_error s msg)) ->
            (op (Some a) (Some b) s = Done None (with_error s msg)
             <-> size a <> size b)).
  { intros op msg Hno Hyes. split; [| exact Hyes].
    intros Hfail Heq. exact (Hno a b s Heq Hfail). }
  assert (Hne : size a <> size b -> (size a =? size b) = false)
    by (intros H; now apply Z.eqb_neq).
  refine (conj _ (conj _ (conj _ (conj _ (conj _ _)))));
    [ | | | | | intros Ha Hb Hab Hmem;
                refine (conj _ (conj _ (conj _ (conj _ _))))].
  - apply Hmis; [apply add_no_mismatch |].
    intros H. cbn. now rewrite (Hne H).
  - apply Hmis; [apply subtract_no_mismatch |].
    intros H. cbn. now rewrite (Hne H).
  - apply Hmis; [apply multiply_no_mismatch |].
    intros H. cbn. now rewrite (Hne H).
  - apply Hmis; [apply divide_no_mismatch |].
    intros H. cbn. now rewrite (Hne H).
  - apply (Hmis (cortex_tensor_power c_pow)); [apply power_no_mismatch |].
    intros H. cbn. now rewrite (Hne H).
  - rewrite cortex_tensor_add_spec by assumption.
    destruct (Z.leb_spec (tensor_bytes a) (heap_free s)); [| lia].
    apply combined_by_intro.
  - rewrite cortex_tensor_subtract_spec by assumption.
    destruct (Z.leb_spec (tensor_bytes a) (heap_free s)); [| lia].
    apply combined_by_intro.
  - rewrite cortex_tensor_multiply_spec by assumption.
    destruct (Z.leb_spec (tensor_bytes a) (heap_free s)); [| lia].
    apply combined_by_intro.
  - rewrite cortex_tensor_power_spec by assumption.
    destruct (Z.leb_spec (tensor_bytes a) (heap_free s)); [| lia].
    apply combined_by_intro.
  - intros Hnz. rewrite cortex_tensor_divide_spec by assumption.
    destruct (Z.leb_spec (tensor_bytes a) (heap_free s)); [| lia].
    rewrite Hnz. apply combined_by_intro.
Qed.

(** The 2x3 matrix and the six-element vector are added position by position. *)
Lemma binary_ops_compare_sizes_only_witness :
  combined_by PrimFloat.add sample_matrix sample_vector sample_runtime
    (cortex_tensor_add (Some sample_matrix) (Some sample_vector) sample_runtime).
Proof.
  apply (binary_ops_compare_sizes_only (fun x _ => x)
           sample_matrix sample_vector sample_runtime);
    [reflexivity | reflexivity | reflexivity | vm_compute; discriminate].
Defined.

Lemma has_zero_iff (l : list cortex_float_t) :
  has_zero l = true <-> exists y, In y l /\ (y =? 0)%float = true.
Proof. apply existsb_exists. Qed.

(** C3.  For well-formed tensors [a] and [b] of equal size, and a heap that
    can hold the copy of [a], [cortex_tensor_divide] ends in the
    division-by-zero failure exactly when some element of [b] compares equal
    to [0.0].  In that failure no tensor is returned and the heap is as it
    was before the call, so every block of the partial result was released.
    With no such element the returned tensor holds [a_i / b_i] at every flat
    position [i]. *)
Theorem divide_fails_iff_zero_divisor (a b : cortex_tensor_t) (s : runtime) :
  well_formed a = true -> well_formed b = true ->
  size a = size b -> tensor_bytes a <= heap_free s ->
  ((exists y, In y (data b) /\ (y =? 0)%float = true)
   <-> cortex_tensor_divide (Some a) (Some b) s
       = Done None (mk_runtime (Some "Division by zero") (heap_free s)))
  /\ ((forall y, In y (data b) -> (y =? 0)%float = false) ->
      exists r,
        cortex_tensor_divide (Some a) (Some b) s
        = Done (Some r) (allocated s (tensor_bytes a))
        /\ same_layout r a
        /\ data r = zip_with PrimFloat.div (data a) (data b)
        /\ forall i x y,
             load (data a) i = Some x -> load (data b) i = Some y ->
             load (data r) i = Some (x / y)%float).
Proof.
  intros Ha Hb Hab Hmem.
  rewrite cortex_tensor_divide_spec by assumption.
  destruct (Z.leb_spec (tensor_bytes a) (heap_free s)); [| lia].
  rewrite <- has_zero_iff.
  destruct (has_zero (data b)) eqn:Hz; split.
  - split; reflexivity.
  - intros Hall. apply has_zero_iff in Hz. destruct Hz as (y & Hin & Hy).
    rewrite (Hall y Hin) in Hy. discriminate.
  - split; discriminate.
  - intros _. exists (set_data a (zip_with PrimFloat.div (data a) (data b))).
    repeat split. intros i x y Hx Hy. now apply load_zip_with.
Qed.

(** Dividing the sample matrix by the sample vector, which holds no zero. *)
Lemma divide_fails_iff_zero_divisor_witness :
  exists r,
    cortex_tensor_divide (Some sample_matrix) (Some sample_vector) sample_runtime
    = Done (Some r) (allocated sample_runtime (tensor_bytes sample_matrix))
    /\ data r = zip_with PrimFloat.div (data sample_matrix) (data sample_vector).
Proof.
  destruct (divide_fails_iff_zero_divisor sample_matrix sample_vector
              sample_runtime eq_refl eq_refl eq_refl) as [_ Hok].
  - vm_compute; discriminate.
  - destruct Hok as (r & Hrun & _ & Hdata & _).
    + intros y Hin. simpl in Hin.
      repeat (destruct Hin as [<- | Hin]; [reflexivity |]). contradiction.
    + exists r. split; assumption.
Defined.

(** ** Unary operations on well-formed operands *)

Ltac unary_spec f :=
  intros t s Hwf;
  pose proof (well_formed_spec t Hwf) as (_ & _ & _ & Hdata & _);
  cbn beta iota; unfold bind at 1;
  rewrite cortex_tensor_copy_spec by assumption;
  destruct (tensor_bytes t <=? heap_free s); [| reflexivity];
  unfold bind; rewrite (map_loop_spec f) by assumption;
  reflexivity.

Lemma cortex_tensor_add_scalar_spec (x : cortex_float_t) :
  forall t s,
    well_formed t = true ->
    cortex_tensor_add_scalar (Some t) x s
    = if tensor_bytes t <=? heap_free s
      then Done (Some (set_data t (map (fun v => v + x)%float (data t))))
                (allocated s (tensor_bytes t))
      else Done None (with_error s "Memory allocation failed").
Proof. unfold cortex_tensor_add_scalar. unary_spec (fun v => v + x)%float. Qed.

Lemma cortex_tensor_multiply_scalar_spec (x : cortex_float_t) :
  forall t s,
    well_formed t = true ->
    cortex_tensor_multiply_scalar (Some t) x s
    = if tensor_bytes t <=? heap_free s
      then Done (Some (set_data t (map (fun v => v * x)%float (data t))))
                (allocated s (tensor_bytes t))
      else Done None (with_error s "Memory allocation failed").
Proof.
  unfold cortex_tensor_multiply_scalar. unary_spec (fun v => v * x)%float.
Qed.

Lemma cortex_tensor_exp_spec c_exp :
  forall t s,
    well_formed t = true ->
    cortex_tensor_exp c_exp (Some t) s
    = if tensor_bytes t <=? heap_free s
      then Done (Some (set_data t (map c_exp (data t))))
                (allocated s (tensor_bytes t))
      else Done None (with_error s "Memory allocation failed").
Proof. unfold cortex_tensor_exp. unary_spec c_exp. Qed.

Lemma cortex_tensor_relu_spec :
  forall t s,
    well_formed t = true ->
    cortex_tensor_relu (Some t) s
    = if tensor_bytes t <=? heap_free s
      then Done (Some (set_data t (map (fmax 0) (data t))))
                (allocated s (tensor_bytes t))
      else Done None (with_error s "Memory allocation failed").
Proof. unfold cortex_tensor_relu. unary_spec (fmax 0). Qed.

Lemma cortex_tensor_sigmoid_spec c_exp :
  forall t s,
    well_formed t = true ->
    cortex_tensor_sigmoid c_exp (Some t) s
    = if tensor_bytes t <=? heap_free s
      then Done (Some (set_data t
                   (map (fun v => 1 / (1 + c_exp (- v)))%float (data t))))
                (allocated s (tensor_bytes t))
      else Done None (with_error s "Memory allocation failed").
Proof.
  unfold cortex_tensor_sigmoid.
  unary_spec (fun v => 1 / (1 + c_exp (- v)))%float.
Qed.

Lemma cortex_tensor_tanh_spec c_tanh :
  forall t s,
    well_formed t = true ->
    cortex_tensor_tanh c_tanh (Some t) s
    = if tensor_bytes t <=? heap_free s
      then Done (Some (set_data t (map c_tanh (data t))))
                (allocated s (tensor_bytes t))
      else Done None (with_error s "Memory allocation failed").
Proof. unfold cortex_tensor_tanh. unary_spec c_tanh. Qed.

Lemma same_layout_set_data (t : cortex_tensor_t) (d : list cortex_float_t) :
  same_layout (set_data t d) t.
Proof. repeat split. Qed.

(** A unary operation that returns a tensor built it from the copy of its
    operand, whose layout no loop touches. *)
Ltac layout_of_unary :=
  intros t s r s' Hwf; cbn beta iota; unfold bind at 1;
  rewrite cortex_tensor_copy_spec by assumption;
  destruct (tensor_bytes t <=? heap_free s); [| discriminate];
  first
    [ unfold bind, run_loop;
      match goal with
      | |- context [for_range ?lo ?hi ?body ?acc] =>
          destruct (for_range lo hi body acc) as [d | [] |]
      end; cbn; intros H; inversion H; apply same_layout_set_data
    | break_match; cbn; intros H; inversion H; apply same_layout_set_data ].

Lemma add_scalar_layout (x : cortex_float_t) :
  forall t s r s',
    well_formed t = true ->
    cortex_tensor_add_scalar (Some t) x s = Done (Some r) s' -> same_layout r t.
Proof. unfold cortex_tensor_add_scalar. layout_of_unary. Qed.

Lemma multiply_scalar_layout (x : cortex_float_t) :
  forall t s r s',
    well_formed t = true ->
    cortex_tensor_multiply_scalar (Some t) x s = Done (Some r) s' ->
    same_layout r t.
Proof. unfold cortex_tensor_multiply_scalar. layout_of_unary. Qed.

Lemma exp_layout c_exp :
  forall t s r s',
    well_formed t = true ->
    cortex_tensor_exp c_exp (Some t) s = Done (Some r) s' -> same_layout r t.
Proof. unfold cortex_tensor_exp. layout_of_unary. Qed.

Lemma log_layout c_log :
  forall t s r s',
    well_formed t = true ->
    cortex_tensor_log c_log (Some t) s = Done (Some r) s' -> same_layout r t.
Proof. unfold cortex_tensor_log. layout_of_unary. Qed.

Lemma sqrt_layout :
  forall t s r s',
    well_formed t = true ->
    cortex_tensor_sqrt (Some t) s = Done (Some r) s' -> same_layout r t.
Proof. unfold cortex_tensor_sqrt. layout_of_unary. Qed.

Lemma relu_layout :
  forall t s r s',
    well_formed t = true ->
    cortex_tensor_relu (Some t) s = Done (Some r) s' -> same_layout r t.
Proof. unfold cortex_tensor_relu. layout_of_unary. Qed.

Lemma sigmoid_layout c_exp :
  forall t s r s',
    well_formed t = true ->
    cortex_tensor_sigmoid c_exp (Some t) s = Done (Some r) s' -> same_layout r t.
Proof. unfold cortex_tensor_sigmoid. layout_of_unary. Qed.

Lemma tanh_layout c_tanh :
  forall t s r s',
    well_formed t = true ->
    cortex_tensor_tanh c_tanh (Some t) s = Done (Some r) s' -> same_layout r t.
Proof. unfold cortex_tensor_tanh. layout_of_unary. Qed.

Lemma softmax_layout c_exp :
  forall t s r s',
    well_formed t = true ->
    cortex_tensor_softmax c_exp (Some t) s = Done (Some r) s' -> same_layout r t.
Proof.
  unfold cortex_tensor_softmax.
  intros t s r s' Hwf. unfold bind at 1.
  rewrite cortex_tensor_copy_spec by assumption.
  destruct (tensor_bytes t <=? heap_free s); [| discriminate].
  destruct (load (data t) 0) as [first |]; [| discriminate].
  unfold bind, run_loop.
  destruct (softmax_max t first) as [m | [] |]; [| discriminate].
  cbn. destruct (softmax_exp c_exp t m) as [es | [] |]; [| discriminate].
  cbn. destruct (softmax_normalize t (fst es) (snd es)) as [d | [] |];
    [| discriminate].
  cbn. intros H. inversion H. apply same_layout_set_data.
Qed.

(** C10.  Every unary tensor-to-tensor operation seeds its result with
    [cortex_tensor_copy]; when it returns a tensor for a well-formed operand,
    that tensor has the operand's [ndim], [shape], [size] and
    [requires_grad]. *)
Theorem unary_ops_keep_layout
  (c_exp c_log c_tanh : cortex_float_t -> cortex_float_t)
  (x : cortex_float_t) (t r : cortex_tensor_t) (s s' : runtime) :
  well_formed t = true ->
  (cortex_tensor_add_scalar (Some t) x s = Done (Some r) s' -> same_layout r t)
  /\ (cortex_tensor_multiply_scalar (Some t) x s = Done (Some r) s' ->
      same_layout r t)
  /\ (cortex_tensor_exp c_exp (Some t) s = Done (Some r) s' -> same_layout r t)
  /\ (cortex_tensor_log c_log (Some t) s = Done (Some r) s' -> same_layout r t)
  /\ (cortex_tensor_sqrt (Some t) s = Done (Some r) s' -> same_layout r t)
  /\ (cortex_tensor_relu (Some t) s = Done (Some r) s' -> same_layout r t)
  /\ (cortex_tensor_sigmoid c_exp (Some t) s = Done (Some r) s' ->
      same_layout r t)
  /\ (cortex_tensor_tanh c_tanh (Some t) s = Done (Some r) s' -> same_layout r t)
  /\ (cortex_tensor_softmax c_exp (Some t) s = Done (Some r) s' ->
      same_layout r t).
Proof.
  intros Hwf.
  refine (conj _ (conj _ (conj _ (conj _ (conj _ (conj _ (conj _ (conj _ _))))))));
    intros Hrun.
  - exact (add_scalar_layout x t s r s' Hwf Hrun).
  - exact (multiply_scalar_layout x t s r s' Hwf Hrun).
  - exact (exp_layout c_exp t s r s' Hwf Hrun).
  - exact (log_layout c_log t s r s' Hwf Hrun).
  - exact (sqrt_layout t s r s' Hwf Hrun).
  - exact (relu_layout t s r s' Hwf Hrun).
  - exact (sigmoid_layout c_exp t s r s' Hwf Hrun).
  - exact (tanh_layout c_tanh t s r s' Hwf Hrun).
  - exact (softmax_layout c_exp t s r s' Hwf Hrun).
Qed.

(** Doubling the grad-tracking sample vector returns a grad-tracking vector
    of six elements. *)
Lemma unary_ops_keep_layout_witness :
  same_layout
    (mk_tensor [12; 10; 8; 6; 4; 2]%float [6] 1 6 true) sample_vector.
Proof.
  refine (proj1 (proj2 (unary_ops_keep_layout (fun v => v) (fun v => v)
                          (fun v => v) 2%float sample_vector _
                          sample_runtime (mk_runtime None 4000) _)) _);
    reflexivity.
Defined.

(** ** Claims about the error channel and the scalar returns *)

Lemma scalar_written_intro (failed : bool) (expected : string)
  (o : outcome cortex_float_t) (s : runtime) :
  scalar_outcome failed o s ->
  (failed = true -> o = Done 0%float (with_error s expected)) ->
  expected <> "" ->
  scalar_slot_written failed expected o s.
Proof.
  unfold scalar_outcome, scalar_slot_written, pure_outcome.
  destruct failed.
  - intros _ Hfail Hmsg. rewrite (Hfail eq_refl). cbn. now split.
  - destruct o as [v s1 |]; [now intros -> | trivial].
Qed.

Ltac scalar_written outcome_lemma :=
  apply scalar_written_intro;
  [ apply outcome_lemma
  | repeat match goal with
           | t : option cortex_tensor_t |- _ => destruct t
           end;
    cbn; try discriminate; try reflexivity;
    repeat match goal with
           | |- context [size ?x =? ?y] => destruct (size x =? y)
           end;
    cbn; try discriminate; reflexivity
  | repeat match goal with
           | t : option cortex_tensor_t |- _ => destruct t
           end;
    discriminate ].

(** C8.  Every fallible operation of the runtime either returns its result
    and leaves the error slot exactly as it was before the call, or returns
    its failure value with the slot overwritten: whatever the slot held
    before the call, after the failure it holds the message of this failure,
    which is the literal the source passes to [cortex_set_error] on the path
    taken (null operand, mismatch, rank, refused allocation or invalid shape
    of the [cortex_tensor_create] underneath, domain error).  For the
    tensor-returning operations the failure value is the null tensor; the
    scalar-returning ones fail exactly under the condition named for each. *)
Theorem error_slot_written_only_on_failure
  (c_exp c_log c_tanh c_cos : cortex_float_t -> cortex_float_t)
  (c_pow : cortex_float_t -> cortex_float_t -> cortex_float_t)
  (uniform_draw : Z -> cortex_float_t) (s : runtime) :
  (forall sh n,
     slot_written (create_message sh n) (cortex_tensor_create sh n s) s)
  /\ (forall t, slot_written (copy_message t) (cortex_tensor_copy t s) s)
  /\ (forall sh n, slot_written (create_message sh n) (cortex_zeros sh n s) s)
  /\ (forall sh n, slot_written (create_message sh n) (cortex_ones sh n s) s)
  /\ (forall sh n,
       slot_written (create_message sh n)
         (cortex_randn c_log c_cos uniform_draw sh n s) s)
  /\ (forall n, slot_written "Memory allocation failed" (cortex_eye n s) s)
  /\ (forall start stop step,
       slot_written "Memory allocation failed"
         (cortex_arange start stop step s) s)
  /\ (forall a b,
       slot_written
         (binary_message "Cannot add NULL tensors"
            "Tensor size mismatch for addition" a b)
         (cortex_tensor_add a b s) s)
  /\ (forall a b,
       slot_written
         (binary_message "Cannot subtract NULL tensors"
            "Tensor size mismatch for subtraction" a b)
         (cortex_tensor_subtract a b s) s)
  /\ (forall a b,
       slot_written
         (binary_message "Cannot multiply NULL tensors"
            "Tensor size mismatch for multiplication" a b)
         (cortex_tensor_multiply a b s) s)
  /\ (forall a b,
       slot_written (divide_message a b s) (cortex_tensor_divide a b s) s)
  /\ (forall a b,
       slot_written
         (binary_message "Cannot raise NULL tensors to power"
            "Tensor size mismatch for power operation" a b)
         (cortex_tensor_power c_pow a b s) s)
  /\ (forall t x,
       slot_written (unary_message "Cannot add scalar to NULL tensor" t)
         (cortex_tensor_add_scalar t x s) s)
  /\ (forall t x,
       slot_written (unary_message "Cannot multiply NULL tensor by scalar" t)
         (cortex_tensor_multiply_scalar t x s) s)
  /\ (forall a b,
       slot_written (matmul_message a b) (cortex_tensor_matmul a b s) s)
  /\ (forall t,
       slot_written (transpose_message t) (cortex_tensor_transpose t s) s)
  /\ (forall t,
       slot_written (unary_message "Cannot compute exp of NULL tensor" t)
         (cortex_tensor_exp c_exp t s) s)
  /\ (forall t,
       slot_written
         (domain_message "Cannot compute log of NULL tensor"
            "Log of non-positive number" t s)
         (cortex_tensor_log c_log t s) s)
  /\ (forall t,
       slot_written
         (domain_message "Cannot compute sqrt of NULL tensor"
            "Sqrt of negative number" t s)
         (cortex_tensor_sqrt t s) s)
  /\ (forall t,
       slot_written (unary_message "Cannot compute ReLU of NULL tensor" t)
         (cortex_tensor_relu t s) s)
  /\ (forall t,
       slot_written (unary_message "Cannot compute sigmoid of NULL tensor" t)
         (cortex_tensor_sigmoid c_exp t s) s)
  /\ (forall t,
       slot_written (unary_message "Cannot compute tanh of NULL tensor" t)
         (cortex_tensor_tanh c_tanh t s) s)
  /\ (forall t,
       slot_written (unary_message "Cannot compute softmax of NULL tensor" t)
         (cortex_tensor_softmax c_exp t s) s)
  /\ (forall t,
       scalar_slot_written (absent t) "Cannot compute sum of NULL tensor"
         (cortex_tensor_sum t s) s)
  /\ (forall t,
       scalar_slot_written (absent t) "Cannot compute mean of NULL tensor"
         (cortex_tensor_mean t s) s)
  /\ (forall t,
       scalar_slot_written (absent t) "Cannot compute std of NULL tensor"
         (cortex_tensor_std t s) s)
  /\ (forall t,
       scalar_slot_written (absent t) "Cannot compute variance of NULL tensor"
         (cortex_tensor_var t s) s)
  /\ (forall t,
       scalar_slot_written (absent_or_empty t)
         "Cannot compute min of NULL or empty tensor"
         (cortex_tensor_min t s) s)
  /\ (forall t,
       scalar_slot_written (absent_or_empty t)
         "Cannot compute max of NULL or empty tensor"
         (cortex_tensor_max t s) s)
  /\ (forall p t,
       scalar_slot_written (absent_or_mismatched p t)
         (loss_message "Cannot compute MSE loss of NULL tensors"
            "Tensor size mismatch for MSE loss" p t)
         (cortex_mse_loss p t s) s)
  /\ (forall p t,
       scalar_slot_written (absent_or_mismatched p t)
         (loss_message "Cannot compute cross-entropy loss of NULL tensors"
            "Tensor size mismatch for cross-entropy loss" p t)
         (cortex_cross_entropy_loss c_log p t s) s)
  /\ (forall p t,
       scalar_slot_written (absent_or_mismatched p t)
         (loss_message
            "Cannot compute binary cross-entropy loss of NULL tensors"
            "Tensor size mismatch for binary cross-entropy loss" p t)
         (cortex_binary_cross_entropy_loss c_log p t s) s).
Proof.
  repeat match goal with |- _ /\ _ => split end; intros.
  - apply cortex_tensor_create_written.
  - apply cortex_tensor_copy_written.
  - apply cortex_zeros_written.
  - apply cortex_ones_written.
  - apply cortex_randn_written.
  - apply cortex_eye_written.
  - apply cortex_arange_written.
  - apply cortex_tensor_add_written.
  - apply cortex_tensor_subtract_written.
  - apply cortex_tensor_multiply_written.
  - apply cortex_tensor_divide_written.
  - apply cortex_tensor_power_written.
  - apply cortex_tensor_add_scalar_written.
  - apply cortex_tensor_multiply_scalar_written.
  - apply cortex_tensor_matmul_written.
  - apply cortex_tensor_transpose_written.
  - apply cortex_tensor_exp_written.
  - apply cortex_tensor_log_written.
  - apply cortex_tensor_sqrt_written.
  - apply cortex_tensor_relu_written.
  - apply cortex_tensor_sigmoid_written.
  - apply cortex_tensor_tanh_written.
  - apply cortex_tensor_softmax_written.
  - scalar_written cortex_tensor_sum_outcome.
  - scalar_written cortex_tensor_mean_outcome.
  - scalar_written cortex_tensor_std_outcome.
  - scalar_written cortex_tensor_var_outcome.
  - scalar_written cortex_tensor_min_outcome.
  - scalar_written cortex_tensor_max_outcome.
  - scalar_written cortex_mse_loss_outcome.
  - scalar_written cortex_cross_entropy_loss_outcome.
  - scalar_written cortex_binary_cross_entropy_loss_outcome.
Qed.

(** C9.  Each of the nine scalar-returning operations returns exactly [0.0],
    with a message recorded, on every one of its error returns: the absent
    operand for all of them, the empty tensor for [min] and [max], the size
    mismatch for the losses; on every other input it records nothing.  A
    legitimate result can be the same [0.0] (the sum and the minimum of the
    one-element tensor [[0.0]], the loss of a tensor against itself), so the
    value alone does not tell a failure from a result. *)
Theorem scalar_failures_return_zero
  (c_log : cortex_float_t -> cortex_float_t) (s : runtime) :
  (forall t, scalar_outcome (absent t) (cortex_tensor_sum t s) s)
  /\ (forall t, scalar_outcome (absent t) (cortex_tensor_mean t s) s)
  /\ (forall t, scalar_outcome (absent t) (cortex_tensor_std t s) s)
  /\ (forall t, scalar_outcome (absent t) (cortex_tensor_var t s) s)
  /\ (forall t, scalar_outcome (absent_or_empty t) (cortex_tensor_min t s) s)
  /\ (forall t, scalar_outcome (absent_or_empty t) (cortex_tensor_max t s) s)
  /\ (forall p t,
       scalar_outcome (absent_or_mismatched p t) (cortex_mse_loss p t s) s)
  /\ (forall p t,
       scalar_outcome (absent_or_mismatched p t)
         (cortex_cross_entropy_loss c_log p t s) s)
  /\ (forall p t,
       scalar_outcome (absent_or_mismatched p t)
         (cortex_binary_cross_entropy_loss c_log p t s) s)
  /\ cortex_tensor_sum (Some (mk_tensor [0%float] [1] 1 1 false)) s
     = Done 0%float s
  /\ cortex_tensor_min (Some (mk_tensor [0%float] [1] 1 1 false)) s
     = Done 0%float s
  /\ cortex_mse_loss (Some sample_matrix) (Some sample_matrix) s
     = Done 0%float s.
Proof.
  repeat match goal with |- _ /\ _ => split end; intros.
  - apply cortex_tensor_sum_outcome.
  - apply cortex_tensor_mean_outcome.
  - apply cortex_tensor_std_outcome.
  - apply cortex_tensor_var_outcome.
  - apply cortex_tensor_min_outcome.
  - apply cortex_tensor_max_outcome.
  - apply cortex_mse_loss_outcome.
  - apply cortex_cross_entropy_loss_outcome.
  - apply cortex_binary_cross_entropy_loss_outcome.
  - reflexivity.
  - reflexivity.
  - reflexivity.
Qed.

(** ** Reductions and activations on the empty tensor *)

(** C1, evaluated on the tensor of shape [[0]].  Only [min] and [max] test
    for [size == 0]: [sum] returns [0.0] and [mean], [std] and [var] return
    NaN (from [0.0 / 0]), all four without recording an error. *)
Theorem reductions_on_empty_tensor (s : runtime) :
  cortex_tensor_sum (Some empty_tensor) s = Done 0%float s
  /\ cortex_tensor_mean (Some empty_tensor) s = Done nan s
  /\ cortex_tensor_std (Some empty_tensor) s = Done nan s
  /\ cortex_tensor_var (Some empty_tensor) s = Done nan s
  /\ cortex_tensor_min (Some empty_tensor) s
     = Done 0%float (with_error s "Cannot compute min of NULL or empty tensor")
  /\ cortex_tensor_max (Some empty_tensor) s
     = Done 0%float (with_error s "Cannot compute max of NULL or empty tensor").
Proof. repeat split. Qed.

(** C2, evaluated on the same tensor.  An absent operand makes each
    activation fail with its message; on the empty tensor [relu], [sigmoid]
    and [tanh] return the empty tensor unless the copy cannot be allocated;
    but [cortex_tensor_softmax] reads [result->data[0]] before looking at
    [size], which on the empty tensor is a read outside the buffer. *)
Theorem softmax_reads_outside_empty_buffer
  (c_exp c_tanh : cortex_float_t -> cortex_float_t) (s : runtime) :
  cortex_tensor_relu None s
  = Done None (with_error s "Cannot compute ReLU of NULL tensor")
  /\ cortex_tensor_sigmoid c_exp None s
     = Done None (with_error s "Cannot compute sigmoid of NULL tensor")
  /\ cortex_tensor_tanh c_tanh None s
     = Done None (with_error s "Cannot compute tanh of NULL tensor")
  /\ cortex_tensor_softmax c_exp None s
     = Done None (with_error s "Cannot compute softmax of NULL tensor")
  /\ cortex_tensor_relu (Some empty_tensor) s
     = (if tensor_bytes empty_tensor <=? heap_free s
        then Done (Some empty_tensor) (allocated s (tensor_bytes empty_tensor))
        else Done None (with_error s "Memory allocation failed"))
  /\ cortex_tensor_sigmoid c_exp (Some empty_tensor) s
     = (if tensor_bytes empty_tensor <=? heap_free s
        then Done (Some empty_tensor) (allocated s (tensor_bytes empty_tensor))
        else Done None (with_error s "Memory allocation failed"))
  /\ cortex_tensor_tanh c_tanh (Some empty_tensor) s
     = (if tensor_bytes empty_tensor <=? heap_free s
        then Done (Some empty_tensor) (allocated s (tensor_bytes empty_tensor))
        else Done None (with_error s "Memory allocation failed"))
  /\ cortex_tensor_softmax c_exp (Some empty_tensor) s
     = (if tensor_bytes empty_tensor <=? heap_free s
        then Undefined
        else Done None (with_error s "Memory allocation failed")).
Proof.
  repeat split.
  - now rewrite cortex_tensor_relu_spec.
  - now rewrite cortex_tensor_sigmoid_spec.
  - now rewrite cortex_tensor_tanh_spec.
  - unfold cortex_tensor_softmax, bind.
    rewrite cortex_tensor_copy_spec by reflexivity.
    destruct (tensor_bytes empty_tensor <=? heap_free s); reflexivity.
Qed.

(** ** Addition followed by subtraction *)



Lemma well_formed_set_data (t : cortex_tensor_t) (d : list cortex_float_t) :
  well_formed t = true -> length d = length (data t) ->
  well_formed (set_data t d) = true.
Proof.
  unfold well_formed, set_data. cbn [data shape ndim size].
  now intros H ->.
Qed.

Lemma tensor_bytes_set_data (t : cortex_tensor_t) (d : list cortex_float_t) :
  length d = length (data t) -> tensor_bytes (set_data t d) = tensor_bytes t.
Proof. unfold tensor_bytes, set_data. cbn [data shape]. now intros ->. Qed.

(** ** Floating-point operations that do not round *)

Lemma SFcompare_refl (x : spec_float) :
  x <> S754_nan -> SFcompare x x = Some Eq.
Proof.
  destruct x as [sx | sx | | sx mx ex]; intros Hx; cbn [SFcompare];
    try congruence; try (destruct sx; reflexivity).
  destruct sx; rewrite Z.compare_refl, Pos.compare_cont_refl; reflexivity.
Qed.

Lemma not_nan_spec (x : cortex_float_t) :
  PrimFloat.is_nan x = false -> Prim2SF x <> S754_nan.
Proof.
  unfold PrimFloat.is_nan. rewrite FloatAxioms.eqb_spec. intros H Hn.
  rewrite Hn in H. discriminate.
Qed.









(** ** Softmax *)

(** A loop that only reads a buffer and accumulates is a left fold. *)
Lemma for_loop_read_fold {R A} (f : A -> cortex_float_t -> A)
  (buf : list cortex_float_t) :
  forall tl pre acc,
    buf = pre ++ tl ->
    for_loop (R := R) (length tl) (Z.of_nat (length pre))
      (fun i acc => read buf i (fun x => Next (f acc x))) acc
    = Next (fold_left f tl acc).
Proof.
  induction tl as [| x tl IH]; intros pre acc Hbuf; simpl.
  - reflexivity.
  - unfold read at 1. rewrite Hbuf at 1. rewrite load_app_mid.
    replace (Z.of_nat (length pre) + 1) with (Z.of_nat (length (pre ++ [x])))
      by (rewrite length_app; simpl; lia).
    apply IH. now rewrite <- app_assoc.
Qed.







Lemma load_map {A B} (f : A -> B) (l : list A) (i : Z) (x : A) :
  load l i = Some x -> load (map f l) i = Some (f x).
Proof.
  unfold load. destruct (i <? 0); [discriminate |].
  intros H. now rewrite nth_error_map, H.
Qed.







(** ** Reshape *)

(** C4, on the reshape modelled from section 4.7.  For a well-formed tensor,
    a new shape of [new_ndim >= 1] extents and a heap that can hold the
    result, reshape returns a tensor exactly when the product of the new
    extents equals [t.size], and fails with the size-mismatch message
    otherwise.  The returned tensor is newly allocated (its bytes are charged
    to the heap), has the new extents, and its flat buffer is the flat
    buffer of [t], element for element. *)
Theorem reshape_succeeds_iff_same_size
  (t : cortex_tensor_t) (sh : list Z) (n : Z) (s : runtime) :
  well_formed t = true ->
  n = Z.of_nat (length sh) -> 0 < n <= INT32_MAX ->
  sizeof_tensor + n * sizeof_int64 + size t * sizeof_float <= heap_free s ->
  ((exists r s', cortex_tensor_reshape (Some t) (Some sh) n s = Done (Some r) s')
   <-> shape_product sh = size t)
  /\ (shape_product sh = size t ->
      cortex_tensor_reshape (Some t) (Some sh) n s
      = Done (Some (mk_tensor (data t) sh n (size t) false))
             (allocated s (sizeof_tensor + n * sizeof_int64
                           + size t * sizeof_float)))
  /\ (shape_product sh <> size t ->
      cortex_tensor_reshape (Some t) (Some sh) n s
      = Done None (with_error s "Tensor size mismatch for reshape")).
Proof.
  intros Hwf Hn Hrank Hmem.
  pose proof (well_formed_spec t Hwf) as (_ & _ & _ & Hdata & Haddr).
  assert (Hfirst : firstn (Z.to_nat n) sh = sh).
  { subst n. rewrite Nat2Z.id. apply firstn_all. }
  assert (Hyes : shape_product sh = size t ->
            cortex_tensor_reshape (Some t) (Some sh) n s
            = Done (Some (mk_tensor (data t) sh n (size t) false))
                   (allocated s (sizeof_tensor + n * sizeof_int64
                                 + size t * sizeof_float))).
  { intros Hprod. unfold cortex_tensor_reshape.
    rewrite Hfirst, Hprod, Z.eqb_refl. cbn [negb]. unfold bind.
    rewrite cortex_tensor_create_spec by (try assumption; rewrite Hprod; lia).
    cbv zeta. rewrite Hprod.
    destruct (Z.leb_spec (sizeof_tensor + n * sizeof_int64
                          + size t * sizeof_float) (heap_free s)); [| lia].
    cbn [data].
    assert (Hcpy : memcpy (repeat 0%float (Z.to_nat (size t))) (data t) (size t)
                   = Some (data t)).
    { rewrite Hdata at 2. apply memcpy_full.
      rewrite repeat_length, Hdata. now rewrite Nat2Z.id. }
    rewrite Hcpy. reflexivity. }
  assert (Hno : shape_product sh <> size t ->
            cortex_tensor_reshape (Some t) (Some sh) n s
            = Done None (with_error s "Tensor size mismatch for reshape")).
  { intros Hprod. unfold cortex_tensor_reshape. rewrite Hfirst.
    apply Z.eqb_neq in Hprod. rewrite Hprod. reflexivity. }
  split; [| split; assumption].
  split.
  - intros (r & s' & Hrun).
    destruct (Z.eq_dec (shape_product sh) (size t)) as [Heq | Hne];
      [assumption |].
    rewrite (Hno Hne) in Hrun. discriminate.
  - intros Hprod. rewrite (Hyes Hprod). eauto.
Qed.

(** The six elements of the 2x3 sample under the layout 3x2. *)
Lemma reshape_succeeds_iff_same_size_witness :
  cortex_tensor_reshape (Some sample_matrix) (Some [3; 2]) 2 sample_runtime
  = Done (Some (mk_tensor (data sample_matrix) [3; 2] 2 6 false))
         (mk_runtime None 3992).
Proof.
  destruct (reshape_succeeds_iff_same_size
              sample_matrix [3; 2] 2 sample_runtime) as (_ & Hyes & _).
  - reflexivity.
  - reflexivity.
  - unfold INT32_MAX. lia.
  - vm_compute. discriminate.
  - apply Hyes. reflexivity.
Defined.

(** ** The invariant is the one [cortex_tensor_create] establishes *)

Lemma wrap_range (z : Z) : I64.min_signed <= I64.wrap z <= I64.max_signed.
Proof.
  unfold I64.wrap, I64.min_signed, I64.max_signed.
  assert (H : 0 <= (z + I64.half) mod I64.modulus < I64.modulus)
    by (apply Z.mod_pos_bound; reflexivity).
  assert (Hm : I64.modulus = 2 * I64.half) by reflexivity.
  lia.
Qed.

Lemma shape_product_range (sh : list Z) :
  I64.min_signed <= shape_product sh <= I64.max_signed.
Proof.
  unfold shape_product.
  destruct sh as [| x sh] using rev_ind.
  - cbn. unfold I64.min_signed, I64.max_signed, I64.half. lia.
  - rewrite fold_left_app. cbn. apply wrap_range.
Qed.

Lemma memcpy_into_fresh {A} (z : A) (src : list A) (n : Z) (out : list A) :
  memcpy (repeat z (Z.to_nat n)) src n = Some out ->
  out = firstn (Z.to_nat n) src /\ Z.of_nat (length out) = n.
Proof.
  unfold memcpy.
  destruct (Z.leb_spec 0 n); [| discriminate].
  destruct (Z.leb_spec n (Z.of_nat (length src))); [| discriminate].
  destruct (Z.leb_spec n (Z.of_nat (length (repeat z (Z.to_nat n)))));
    [| discriminate].
  cbn. intros H'. inversion H' as [Hout].
  rewrite skipn_all2 by (rewrite repeat_length; lia).
  rewrite app_nil_r. split; [reflexivity |].
  rewrite length_firstn. lia.
Qed.

(** X1.  Every tensor [cortex_tensor_create] returns is well formed (its
    [size] is the product of its extents), zero-filled, and carries the
    first [ndim] extents it was given. *)
Lemma cortex_tensor_create_well_formed
  (sh : list Z) (n : Z) (s s' : runtime) (t : cortex_tensor_t) :
  n <= INT32_MAX ->
  cortex_tensor_create (Some sh) n s = Done (Some t) s' ->
  well_formed t = true
  /\ shape t = firstn (Z.to_nat n) sh
  /\ size t = shape_product (shape t)
  /\ data t = repeat 0%float (Z.to_nat (size t)).
Proof.
  intros Hmax. unfold cortex_tensor_create.
  destruct (Z.leb_spec n 0) as [| Hpos]; [discriminate |].
  unfold_alloc.
  destruct (sizeof_tensor <=? heap_free s); cbn [negb]; [| discriminate].
  cbn [heap_free g_error_message].
  destruct (I64.to_size_t n * sizeof_int64 <=? heap_free s - sizeof_tensor);
    cbn [negb]; [| discriminate].
  destruct (memcpy (repeat 0 (Z.to_nat n)) sh n) as [sh' |] eqn:Hcpy;
    [| discriminate].
  apply memcpy_into_fresh in Hcpy. destruct Hcpy as [Hsh Hlen].
  pose proof (shape_product_range sh') as Hrange.
  destruct (Z.leb_spec I64.modulus
              (I64.to_size_t (shape_product sh') * sizeof_float)) as [| Hfit];
    [discriminate |].
  cbn [heap_free g_error_message].
  break_if; cbn [negb]; [| discriminate].
  intros H. inversion H; subst t s'. clear H.
  assert (Hnonneg : 0 <= shape_product sh').
  { destruct (Z.lt_ge_cases (shape_product sh') 0) as [Hneg |]; [| assumption].
    exfalso. unfold I64.to_size_t in Hfit.
    rewrite <- (Z.mod_add _ 1), Z.mod_small in Hfit;
      unfold I64.min_signed, I64.max_signed, I64.half, I64.modulus,
        sizeof_float in *; lia. }
  rewrite to_size_t_small in Hfit
    by (unfold I64.max_signed, I64.half, I64.modulus in *; lia).
  cbn [shape size data]. repeat split; try assumption.
  unfold well_formed. cbn [shape size data ndim].
  rewrite repeat_length, Z2Nat.id by assumption.
  rewrite Hlen, !Z.eqb_refl.
  destruct (Z.ltb_spec 0 n); [| lia].
  destruct (Z.leb_spec n INT32_MAX); [| lia].
  destruct (Z.ltb_spec (shape_product sh' * sizeof_float) I64.modulus); [| lia].
  reflexivity.
Qed.

Lemma cortex_tensor_create_well_formed_witness :
  well_formed (mk_tensor (repeat 0%float 6) [2; 3] 2 6 false) = true.
Proof.
  refine (proj1 (cortex_tensor_create_well_formed [2; 3] 2 sample_runtime
                   (mk_runtime None 3992) _ _ _)).
  - unfold INT32_MAX. lia.
  - reflexivity.
Defined.

(** ** The concrete scenarios of section 8 *)

(** Scenarios 1, 2, 4 and 5 of section 8: [zeros([2,3])]; [eye(3)]; [divide(ones([2]),
    zeros([2]))], which fails with the division-by-zero message after both
    operands were allocated and the partial result released; and
    [mse_loss] of a tensor against itself. *)
Example section_8_scenarios :
  cortex_zeros (Some [2; 3]) 2 sample_runtime
  = Done (Some (mk_tensor [0; 0; 0; 0; 0; 0]%float [2; 3] 2 6 false))
         (mk_runtime None 3992)
  /\ cortex_eye 3 sample_runtime
     = Done (Some (mk_tensor [1; 0; 0; 0; 1; 0; 0; 0; 1]%float [3; 3] 2 9 false))
            (mk_runtime None 3968)
  /\ (a <- cortex_ones (Some [2]) 1 ;;
      b <- cortex_zeros (Some [2]) 1 ;;
      cortex_tensor_divide a b) sample_runtime
     = Done None (mk_runtime (Some "Division by zero") 3968)
  /\ cortex_mse_loss (Some (mk_tensor [1; 2; 3]%float [3] 1 3 false))
       (Some (mk_tensor [1; 2; 3]%float [3] 1 3 false)) sample_runtime
     = Done 0%float sample_runtime.
Proof. repeat split. Qed.

(** * Further properties of the runtime *)

(** ** Domain checks of [log] and [sqrt] *)

Lemma map_from_guard (bad : cortex_float_t -> bool)
  (f : cortex_float_t -> cortex_float_t) :
  forall l i,
    map_from (fun _ x => if bad x then Exit tt else Next (f x)) i l
    = if existsb bad l then Exit tt else Next (map f l).
Proof.
  induction l as [| x l IH]; intros i; simpl.
  - reflexivity.
  - destruct (bad x); [reflexivity |].
    rewrite IH. simpl. destruct (existsb bad l); reflexivity.
Qed.

Lemma log_loop_spec c_log (r : cortex_tensor_t) :
  size r = Z.of_nat (length (data r)) ->
  log_loop c_log r
  = if has_non_positive (data r) then Exit tt
    else Next (map c_log (data r)).
Proof.
  intros Hsize. unfold log_loop. rewrite Hsize.
  rewrite (for_range_pointwise _
             (fun _ x => if (x <=? 0)%float then Exit tt else Next (c_log x)))
    by apply update_at_pointwise.
  apply (map_from_guard (fun x => (x <=? 0)%float)).
Qed.

Lemma sqrt_loop_spec (r : cortex_tensor_t) :
  size r = Z.of_nat (length (data r)) ->
  sqrt_loop r
  = if has_negative (data r) then Exit tt
    else Next (map PrimFloat.sqrt (data r)).
Proof.
  intros Hsize. unfold sqrt_loop. rewrite Hsize.
  rewrite (for_range_pointwise _
             (fun _ x => if (x <? 0)%float then Exit tt
                         else Next (PrimFloat.sqrt x)))
    by apply update_at_pointwise.
  apply (map_from_guard (fun x => (x <? 0)%float)).
Qed.

Lemma released_after_failure (t : cortex_tensor_t) (s : runtime) (msg : string) :
  (cortex_set_error msg ;; cortex_tensor_free (Some t) ;; ret (@None cortex_tensor_t))
    (allocated s (tensor_bytes t))
  = Done None (with_error s msg).
Proof.
  unfold cortex_tensor_free, cortex_set_error, free, bind, ret, with_error,
    allocated, tensor_bytes.
  cbn [heap_free g_error_message].
  do 2 f_equal. lia.
Qed.

Lemma cortex_tensor_log_spec c_log (t : cortex_tensor_t) (s : runtime) :
  well_formed t = true ->
  cortex_tensor_log c_log (Some t) s
  = if tensor_bytes t <=? heap_free s
    then if has_non_positive (data t)
         then Done None (with_error s "Log of non-positive number")
         else Done (Some (set_data t (map c_log (data t))))
                   (allocated s (tensor_bytes t))
    else Done None (with_error s "Memory allocation failed").
Proof.
  intros Hwf.
  pose proof (well_formed_spec t Hwf) as (_ & _ & _ & Hdata & _).
  unfold cortex_tensor_log. unfold bind at 1.
  rewrite cortex_tensor_copy_spec by assumption.
  destruct (tensor_bytes t <=? heap_free s); [| reflexivity].
  rewrite log_loop_spec by assumption.
  destruct (has_non_positive (data t)); [| reflexivity].
  apply released_after_failure.
Qed.

Lemma cortex_tensor_sqrt_spec (t : cortex_tensor_t) (s : runtime) :
  well_formed t = true ->
  cortex_tensor_sqrt (Some t) s
  = if tensor_bytes t <=? heap_free s
    then if has_negative (data t)
         then Done None (with_error s "Sqrt of negative number")
         else Done (Some (set_data t (map PrimFloat.sqrt (data t))))
                   (allocated s (tensor_bytes t))
    else Done None (with_error s "Memory allocation failed").
Proof.
  intros Hwf.
  pose proof (well_formed_spec t Hwf) as (_ & _ & _ & Hdata & _).
  unfold cortex_tensor_sqrt. unfold bind at 1.
  rewrite cortex_tensor_copy_spec by assumption.
  destruct (tensor_bytes t <=? heap_free s); [| reflexivity].
  rewrite sqrt_loop_spec by assumption.
  destruct (has_negative (data t)); [| reflexivity].
  apply released_after_failure.
Qed.

(** X2.  For a well-formed tensor and a heap that can hold the copy,
    [cortex_tensor_log] fails with its domain message exactly when some
    element satisfies [x <= 0.0]; the heap is then as before the call.
    Otherwise it returns the operand's layout with [log] applied at every
    position, so a NaN element is passed to [log], not rejected. *)
Theorem log_fails_iff_non_positive c_log (t : cortex_tensor_t) (s : runtime) :
  well_formed t = true -> tensor_bytes t <= heap_free s ->
  ((exists x, In x (data t) /\ (x <=? 0)%float = true)
   <-> cortex_tensor_log c_log (Some t) s
       = Done None (mk_runtime (Some "Log of non-positive number") (heap_free s)))
  /\ ((forall x, In x (data t) -> (x <=? 0)%float = false) ->
      exists r,
        cortex_tensor_log c_log (Some t) s
        = Done (Some r) (allocated s (tensor_bytes t))
        /\ same_layout r t
        /\ data r = map c_log (data t)).
Proof.
  intros Hwf Hmem.
  rewrite cortex_tensor_log_spec by assumption.
  destruct (Z.leb_spec (tensor_bytes t) (heap_free s)); [| lia].
  unfold has_non_positive.
  rewrite <- (existsb_exists (fun x => (x <=? 0)%float)).
  destruct (existsb (fun x => (x <=? 0)%float) (data t)) eqn:Hz; split.
  - split; reflexivity.
  - intros Hall. apply existsb_exists in Hz. destruct Hz as (x & Hin & Hx).
    rewrite (Hall x Hin) in Hx. discriminate.
  - split; discriminate.
  - intros _. exists (set_data t (map c_log (data t))). repeat split.
Qed.

(** The sample matrix holds positive elements only. *)
Lemma log_fails_iff_non_positive_witness :
  exists r,
    cortex_tensor_log (fun x => x) (Some sample_matrix) sample_runtime
    = Done (Some r) (allocated sample_runtime (tensor_bytes sample_matrix))
    /\ data r = data sample_matrix.
Proof.
  destruct (log_fails_iff_non_positive (fun x => x) sample_matrix
              sample_runtime eq_refl) as [_ Hok].
  - vm_compute. discriminate.
  - destruct Hok as (r & Hrun & _ & Hdata).
    + intros x Hin. simpl in Hin.
      repeat (destruct Hin as [<- | Hin]; [reflexivity |]). contradiction.
    + exists r. split; [assumption |]. rewrite Hdata. apply map_id.
Defined.

(** X3.  For a well-formed tensor and a heap that can hold the copy,
    [cortex_tensor_sqrt] fails with its domain message exactly when some
    element satisfies [x < 0.0]; the heap is then as before the call.
    Otherwise it returns the operand's layout with the IEEE square root at
    every position; [-0.0] and NaN elements are accepted. *)
Theorem sqrt_fails_iff_negative (t : cortex_tensor_t) (s : runtime) :
  well_formed t = true -> tensor_bytes t <= heap_free s ->
  ((exists x, In x (data t) /\ (x <? 0)%float = true)
   <-> cortex_tensor_sqrt (Some t) s
       = Done None (mk_runtime (Some "Sqrt of negative number") (heap_free s)))
  /\ ((forall x, In x (data t) -> (x <? 0)%float = false) ->
      exists r,
        cortex_tensor_sqrt (Some t) s
        = Done (Some r) (allocated s (tensor_bytes t))
        /\ same_layout r t
        /\ data r = map PrimFloat.sqrt (data t)).
Proof.
  intros Hwf Hmem.
  rewrite cortex_tensor_sqrt_spec by assumption.
  destruct (Z.leb_spec (tensor_bytes t) (heap_free s)); [| lia].
  unfold has_negative.
  rewrite <- (existsb_exists (fun x => (x <? 0)%float)).
  destruct (existsb (fun x => (x <? 0)%float) (data t)) eqn:Hz; split.
  - split; reflexivity.
  - intros Hall. apply existsb_exists in Hz. destruct Hz as (x & Hin & Hx).
    rewrite (Hall x Hin) in Hx. discriminate.
  - split; discriminate.
  - intros _. exists (set_data t (map PrimFloat.sqrt (data t))). repeat split.
Qed.

(** A buffer holding [-0.0], NaN and [4.0] is accepted. *)
Lemma sqrt_fails_iff_negative_witness :
  exists r,
    cortex_tensor_sqrt
      (Some (mk_tensor [(-0)%float; nan; 4%float] [3] 1 3 false)) sample_runtime
    = Done (Some r) (mk_runtime None 4024)
    /\ data r = [(-0)%float; nan; 2%float].
Proof.
  destruct (sqrt_fails_iff_negative
              (mk_tensor [(-0)%float; nan; 4%float] [3] 1 3 false)
              sample_runtime eq_refl) as [_ Hok].
  - vm_compute. discriminate.
  - destruct Hok as (r & Hrun & _ & Hdata).
    + intros x Hin. simpl in Hin.
      repeat (destruct Hin as [<- | Hin]; [reflexivity |]). contradiction.
    + exists r. split; assumption.
Defined.

(** ** Factories: [ones] and [arange] *)

Lemma write_pointwise {R} (f : Z -> cortex_float_t) :
  pointwise (R := R) (fun i buf => write buf i (f i)) (fun i _ => Next (f i)).
Proof.
  intros pre x tl. unfold write. now rewrite store_app_mid.
Qed.

Lemma map_from_index {R} (f : Z -> cortex_float_t) :
  forall l i,
    map_from (R := R) (fun k _ => Next (f k)) i l
    = Next (map f (z_range i (length l))).
Proof.
  induction l as [| x l IH]; intros i; simpl.
  - reflexivity.
  - now rewrite IH.
Qed.

Lemma z_range_length (i : Z) (n : nat) : length (z_range i n) = n.
Proof. revert i. induction n; intros i; simpl; [reflexivity | now rewrite IHn]. Qed.

Lemma nth_error_z_range (n : nat) :
  forall i k, (k < n)%nat -> nth_error (z_range i n) k = Some (i + Z.of_nat k).
Proof.
  induction n as [| n IH]; intros i k Hk; [lia |].
  destruct k as [| k]; simpl.
  - f_equal. lia.
  - rewrite IH by lia. f_equal. lia.
Qed.

Lemma load_z_range (n : nat) (i : Z) :
  0 <= i < Z.of_nat n -> load (z_range 0 n) i = Some i.
Proof.
  intros Hi. unfold load.
  destruct (Z.ltb_spec i 0); [lia |].
  rewrite nth_error_z_range by lia. f_equal. lia.
Qed.

Lemma map_const_z_range {A} (v : A) (n : nat) (i : Z) :
  map (fun _ => v) (z_range i n) = repeat v n.
Proof. revert i. induction n; intros i; simpl; [reflexivity | now rewrite IHn]. Qed.

(** A loop that stores [f i] at every position [i] of a buffer. *)
Lemma fill_loop_spec (f : Z -> cortex_float_t) (buf : list cortex_float_t)
  (n : Z) (s : runtime) :
  n = Z.of_nat (length buf) ->
  run_loop (for_range 0 n (fun i b => write b i (f i)) buf) s
  = Done (map f (z_range 0 (length buf))) s.
Proof.
  intros ->.
  rewrite (for_range_pointwise _ (fun i _ => Next (f i)))
    by apply write_pointwise.
  now rewrite map_from_index.
Qed.

Lemma shape_product_one (n : Z) :
  I64.min_signed <= n <= I64.max_signed -> shape_product [n] = n.
Proof.
  intros Hn. unfold shape_product. cbn [fold_left]. unfold I64.mul.
  rewrite Z.mul_1_l.
  unfold I64.wrap, I64.min_signed, I64.max_signed, I64.half, I64.modulus in *.
  rewrite Z.mod_small; lia.
Qed.

(** [cortex_ones] on a shape [cortex_tensor_create] accepts. *)
Lemma cortex_ones_spec (sh : list Z) (n : Z) (s : runtime) :
  n = Z.of_nat (length sh) ->
  0 < n <= INT32_MAX ->
  0 <= shape_product sh ->
  shape_product sh * sizeof_float < I64.modulus ->
  cortex_ones (Some sh) n s
  = let bytes := sizeof_tensor + n * sizeof_int64
                 + shape_product sh * sizeof_float in
    if bytes <=? heap_free s
    then Done (Some (mk_tensor (repeat 1%float (Z.to_nat (shape_product sh)))
                               sh n (shape_product sh) false))
              (allocated s bytes)
    else Done None (with_error s "Memory allocation failed").
Proof.
  intros Hn Hrank Hpos Haddr. unfold cortex_ones, bind.
  rewrite cortex_tensor_create_spec by assumption. cbv zeta.
  destruct (sizeof_tensor + n * sizeof_int64 + shape_product sh * sizeof_float
            <=? heap_free s); [| reflexivity].
  cbn [data size].
  rewrite fill_loop_spec by (rewrite repeat_length; lia).
  rewrite map_const_z_range, repeat_length. reflexivity.
Qed.

(** X4.  For a shape of [ndim >= 1] extents whose product is a
    non-negative addressable element count, and a heap that can hold the
    tensor, [cortex_ones] returns a tensor with these extents whose buffer
    holds [1.0] at every position. *)
Theorem ones_fills_with_one (sh : list Z) (n : Z) (s : runtime) :
  n = Z.of_nat (length sh) ->
  0 < n <= INT32_MAX ->
  0 <= shape_product sh ->
  shape_product sh * sizeof_float < I64.modulus ->
  sizeof_tensor + n * sizeof_int64 + shape_product sh * sizeof_float
  <= heap_free s ->
  exists r s',
    cortex_ones (Some sh) n s = Done (Some r) s'
    /\ well_formed r = true
    /\ shape r = sh /\ ndim r = n /\ size r = shape_product sh
    /\ g_error_message s' = g_error_message s
    /\ forall i, 0 <= i < size r -> load (data r) i = Some 1%float.
Proof.
  intros Hn Hrank Hpos Haddr Hmem.
  rewrite cortex_ones_spec by assumption. cbv zeta.
  destruct (Z.leb_spec (sizeof_tensor + n * sizeof_int64
                        + shape_product sh * sizeof_float) (heap_free s));
    [| lia].
  eexists. eexists. split; [reflexivity |].
  cbn [shape ndim size data allocated g_error_message].
  repeat split; try lia.
  - unfold well_formed. cbn [shape ndim size data].
    rewrite repeat_length, Z2Nat.id, <- Hn, !Z.eqb_refl by assumption.
    destruct (Z.ltb_spec 0 n); [| lia].
    destruct (Z.leb_spec n INT32_MAX); [| lia].
    destruct (Z.ltb_spec (shape_product sh * sizeof_float) I64.modulus); [| lia].
    reflexivity.
  - intros i Hi. unfold load.
    destruct (Z.ltb_spec i 0); [lia |].
    rewrite nth_error_repeat by lia. reflexivity.
Qed.

Lemma ones_fills_with_one_witness :
  exists r s',
    cortex_ones (Some [2; 3]) 2 sample_runtime = Done (Some r) s'
    /\ size r = 6
    /\ load (data r) 5 = Some 1%float.
Proof.
  destruct (ones_fills_with_one [2; 3] 2 sample_runtime)
    as (r & s' & Hrun & _ & _ & _ & Hsize & _ & Hload).
  - reflexivity.
  - unfold INT32_MAX. lia.
  - vm_compute. discriminate.
  - reflexivity.
  - vm_compute. discriminate.
  - exists r, s'. split; [assumption |]. split; [now rewrite Hsize |].
    apply Hload. rewrite Hsize. vm_compute. split; [discriminate | reflexivity].
Defined.

Lemma int64_of_float_range (x : cortex_float_t) (n : Z) :
  int64_of_float x = Some n -> I64.min_signed <= n <= I64.max_signed.
Proof.
  unfold int64_of_float.
  destruct (Prim2SF x) as [sg | sg | | sg m e]; try discriminate.
  - intros Hn. inversion Hn.
    unfold I64.min_signed, I64.max_signed, I64.half. lia.
  - cbv zeta.
    match goal with
    | |- (if ?c then _ else _) = _ -> _ => destruct c eqn:Hc; [| discriminate]
    end.
    apply andb_prop in Hc. destruct Hc as [Hlo Hhi].
    apply Z.leb_le in Hlo, Hhi.
    intros Hn. inversion Hn. subst n. split; assumption.
Qed.

(** Division by a zero gives an infinity or NaN, which no [int64_t] holds. *)
Lemma int64_of_quotient_by_zero (x z : cortex_float_t) (sg : bool) :
  Prim2SF z = S754_zero sg -> int64_of_float (x / z)%float = None.
Proof.
  intros Hz. unfold int64_of_float.
  rewrite FloatAxioms.div_spec, Hz. unfold SF64div, SFdiv.
  destruct (Prim2SF x); reflexivity.
Qed.

(** A negative extent reaches [calloc] as a count no allocator can serve. *)
Lemma cortex_tensor_create_negative (n : Z) (s : runtime) :
  I64.min_signed <= n < 0 ->
  cortex_tensor_create (Some [n]) 1 s
  = Done None (with_error s "Memory allocation failed").
Proof.
  intros Hn.
  assert (Hprod : shape_product [n] = n)
    by (apply shape_product_one; unfold I64.max_signed, I64.half; lia).
  assert (Hsz : I64.to_size_t n = n + I64.modulus).
  { unfold I64.to_size_t. rewrite <- (Z.mod_add n 1) by discriminate.
    apply Z.mod_small.
    unfold I64.min_signed, I64.half, I64.modulus in *. lia. }
  unfold cortex_tensor_create.
  change (1 <=? 0) with false. cbv iota.
  change (memcpy (repeat 0 (Z.to_nat 1)) [n] 1) with (Some [n]).
  cbv iota beta. rewrite Hprod, Hsz.
  unfold cortex_malloc, cortex_calloc, calloc, malloc, free, cortex_set_error,
    bind, ret, with_error, sizeof_tensor, sizeof_int64, sizeof_float.
  destruct (Z.leb_spec I64.modulus ((n + I64.modulus) * 8)) as [_ | Hlt];
    [| unfold I64.min_signed, I64.half, I64.modulus in *; lia].
  destruct (40 <=? heap_free s); cbn [negb heap_free g_error_message];
    [| reflexivity].
  destruct (I64.to_size_t 1 * 8 <=? heap_free s - 40);
    cbn [negb heap_free g_error_message]; do 2 f_equal; lia.
Qed.

Lemma cortex_arange_spec (start stop step : cortex_float_t) (n : Z) (s : runtime) :
  arange_count start stop step = Some n ->
  n * sizeof_float < I64.modulus ->
  cortex_arange start stop step s
  = if (0 <=? n) && (sizeof_tensor + sizeof_int64 + n * sizeof_float
                     <=? heap_free s)
    then Done (Some (mk_tensor
                       (map (arange_element start step)
                            (z_range 0 (Z.to_nat n)))
                       [n] 1 n false))
              (allocated s (sizeof_tensor + sizeof_int64 + n * sizeof_float))
    else Done None (with_error s "Memory allocation failed").
Proof.
  intros Hcount Haddr.
  pose proof (int64_of_float_range _ _ Hcount) as Hrange.
  unfold cortex_arange. unfold arange_count in Hcount. rewrite Hcount.
  unfold bind.
  destruct (Z.leb_spec 0 n) as [Hpos | Hneg]; cbn [andb].
  - rewrite cortex_tensor_create_spec;
      rewrite ?shape_product_one by assumption;
      try assumption; try reflexivity;
      try (unfold INT32_MAX; lia).
    cbv zeta. rewrite Z.mul_1_l.
    destruct (sizeof_tensor + sizeof_int64 + n * sizeof_float <=? heap_free s);
      [| reflexivity].
    cbn [data].
    rewrite fill_loop_spec by (rewrite repeat_length; lia).
    rewrite repeat_length. reflexivity.
  - rewrite cortex_tensor_create_negative by lia. reflexivity.
Qed.

(** X5.  [cortex_arange] converts [(stop - start) / step] to the element
    count [n].  For [n >= 0] (addressable, heap permitting) it returns a
    one-axis tensor of [n] elements holding [start + i * step] at position
    [i].  For [n < 0], that is a [step] pointing away from [stop], it
    returns no tensor and records the allocation-failure message, whatever
    the heap holds.  With [step] a zero the quotient is an infinity or NaN
    and its conversion to [int64_t] is undefined. *)
Theorem arange_elements_and_edges
  (start stop step : cortex_float_t) (n : Z) (s : runtime) :
  (arange_count start stop step = Some n ->
   0 <= n -> n * sizeof_float < I64.modulus ->
   sizeof_tensor + sizeof_int64 + n * sizeof_float <= heap_free s ->
   exists r s',
     cortex_arange start stop step s = Done (Some r) s'
     /\ shape r = [n] /\ ndim r = 1 /\ size r = n
     /\ Z.of_nat (length (data r)) = n
     /\ forall i, 0 <= i < n ->
          load (data r) i = Some (start + float_of_int64 i * step)%float)
  /\ (arange_count start stop step = Some n -> n < 0 ->
      cortex_arange start stop step s
      = Done None (with_error s "Memory allocation failed"))
  /\ cortex_arange start stop 0%float s = Undefined
  /\ cortex_arange start stop (-0)%float s = Undefined.
Proof.
  refine (conj _ (conj _ (conj _ _))).
  - intros Hcount Hpos Haddr Hmem.
    rewrite (cortex_arange_spec _ _ _ n) by assumption.
    destruct (Z.leb_spec 0 n); [| lia].
    destruct (Z.leb_spec (sizeof_tensor + sizeof_int64 + n * sizeof_float)
                (heap_free s)); [| lia].
    cbn [andb]. eexists. eexists. split; [reflexivity |].
    cbn [shape ndim size data].
    repeat split.
    + rewrite length_map, z_range_length. lia.
    + intros i Hi.
      apply (load_map (arange_element start step)).
      apply load_z_range. lia.
  - intros Hcount Hneg.
    rewrite (cortex_arange_spec _ _ _ n);
      [ | assumption
        | unfold sizeof_float, I64.modulus; lia ].
    destruct (Z.leb_spec 0 n); [lia | reflexivity].
  - unfold cortex_arange.
    now rewrite (int64_of_quotient_by_zero _ 0%float false).
  - unfold cortex_arange.
    now rewrite (int64_of_quotient_by_zero _ (-0)%float true).
Qed.

(** [arange(0, 4, 1)] holds 0, 1, 2, 3. *)
Lemma arange_elements_and_edges_witness :
  exists r s',
    cortex_arange 0%float 4%float 1%float sample_runtime = Done (Some r) s'
    /\ size r = 4
    /\ load (data r) 3 = Some 3%float.
Proof.
  destruct (arange_elements_and_edges 0%float 4%float 1%float 4 sample_runtime)
    as (Hok & _).
  destruct Hok as (r & s' & Hrun & _ & _ & Hsize & _ & Hload).
  - reflexivity.
  - discriminate.
  - reflexivity.
  - vm_compute. discriminate.
  - exists r, s'. split; [assumption |]. split; [assumption |].
    rewrite (Hload 3) by (split; [discriminate | reflexivity]).
    reflexivity.
Defined.

(** ** Minimum and maximum *)

Lemma fold_pick_in (pick : cortex_float_t -> cortex_float_t -> bool) :
  forall rest first,
    In (fold_left (fun m x => if pick m x then x else m) rest first)
       (first :: rest).
Proof.
  induction rest as [| x rest IH]; intros first; simpl.
  - now left.
  - destruct (IH (if pick first x then x else first)) as [H | H].
    + destruct (pick first x); rewrite <- H; auto.
    + auto.
Qed.

Lemma ltb_nan_r (x : cortex_float_t) : (x <? nan)%float = false.
Proof.
  rewrite FloatAxioms.ltb_spec.
  change (Prim2SF nan) with S754_nan.
  unfold SFltb. destruct (Prim2SF x); reflexivity.
Qed.

Lemma ltb_nan_l (x : cortex_float_t) : (nan <? x)%float = false.
Proof.
  rewrite FloatAxioms.ltb_spec.
  change (Prim2SF nan) with S754_nan.
  reflexivity.
Qed.

Lemma list_min_nan (rest : list cortex_float_t) : list_min nan rest = nan.
Proof.
  unfold list_min. induction rest as [| x rest IH]; simpl.
  - reflexivity.
  - now rewrite ltb_nan_r.
Qed.

Lemma list_max_nan (rest : list cortex_float_t) : list_max nan rest = nan.
Proof.
  unfold list_max. induction rest as [| x rest IH]; simpl.
  - reflexivity.
  - now rewrite ltb_nan_l.
Qed.

Lemma scan_from_second {A} (f : A -> cortex_float_t -> A)
  (first : cortex_float_t) (rest : list cortex_float_t) (acc : A) (n : Z)
  (s : runtime) :
  n = Z.of_nat (length (first :: rest)) ->
  run_loop (for_range 1 n
              (fun i a => read (first :: rest) i (fun x => Next (f a x))) acc) s
  = Done (fold_left f rest acc) s.
Proof.
  intros ->. unfold for_range.
  replace (Z.to_nat (Z.of_nat (length (first :: rest)) - 1)) with (length rest)
    by (simpl length; lia).
  now rewrite (for_loop_read_fold f (first :: rest) rest [first] acc eq_refl).
Qed.

Lemma cortex_tensor_min_spec (t : cortex_tensor_t) (first : cortex_float_t)
  (rest : list cortex_float_t) (s : runtime) :
  well_formed t = true -> data t = first :: rest ->
  cortex_tensor_min (Some t) s = Done (list_min first rest) s.
Proof.
  intros Hwf Hd.
  pose proof (well_formed_spec t Hwf) as (_ & _ & _ & Hsize & _).
  unfold cortex_tensor_min. rewrite Hd in *.
  destruct (Z.eqb_spec (size t) 0) as [Hz | _]; [simpl in Hsize; lia |].
  cbn [load Z.ltb Z.compare Z.to_nat nth_error].
  exact (scan_from_second (fun m x => if (x <? m)%float then x else m)
           first rest first (size t) s Hsize).
Qed.

Lemma cortex_tensor_max_spec (t : cortex_tensor_t) (first : cortex_float_t)
  (rest : list cortex_float_t) (s : runtime) :
  well_formed t = true -> data t = first :: rest ->
  cortex_tensor_max (Some t) s = Done (list_max first rest) s.
Proof.
  intros Hwf Hd.
  pose proof (well_formed_spec t Hwf) as (_ & _ & _ & Hsize & _).
  unfold cortex_tensor_max. rewrite Hd in *.
  destruct (Z.eqb_spec (size t) 0) as [Hz | _]; [simpl in Hsize; lia |].
  cbn [load Z.ltb Z.compare Z.to_nat nth_error].
  exact (scan_from_second (fun m x => if (m <? x)%float then x else m)
           first rest first (size t) s Hsize).
Qed.

(** X6.  On a well-formed tensor with at least one element,
    [cortex_tensor_min] and [cortex_tensor_max] change nothing in the state
    and each returns one of the elements of the buffer.  A NaN in first
    position is what both return, whatever follows it, because no
    comparison with the NaN seed succeeds. *)
Theorem min_max_return_elements (t : cortex_tensor_t) (s : runtime) :
  well_formed t = true -> 0 < size t ->
  exists lo hi,
    cortex_tensor_min (Some t) s = Done lo s
    /\ cortex_tensor_max (Some t) s = Done hi s
    /\ In lo (data t) /\ In hi (data t)
    /\ (load (data t) 0 = Some nan -> lo = nan /\ hi = nan).
Proof.
  intros Hwf Hpos.
  pose proof (well_formed_spec t Hwf) as (_ & _ & _ & Hsize & _).
  destruct (data t) as [| first rest] eqn:Hd; [simpl in Hsize; lia |].
  exists (list_min first rest), (list_max first rest).
  rewrite (cortex_tensor_min_spec t first rest) by assumption.
  rewrite (cortex_tensor_max_spec t first rest) by assumption.
  repeat split.
  - apply (fold_pick_in (fun m x => (x <? m)%float)).
  - apply (fold_pick_in (fun m x => (m <? x)%float)).
  - cbn in H. inversion H. apply list_min_nan.
  - cbn in H. inversion H. apply list_max_nan.
Qed.

Lemma min_max_return_elements_witness :
  exists lo hi,
    cortex_tensor_min (Some sample_matrix) sample_runtime = Done lo sample_runtime
    /\ cortex_tensor_max (Some sample_matrix) sample_runtime
       = Done hi sample_runtime
    /\ In lo (data sample_matrix) /\ In hi (data sample_matrix).
Proof.
  destruct (min_max_return_elements sample_matrix sample_runtime)
    as (lo & hi & Hmin & Hmax & Hlo & Hhi & _).
  - reflexivity.
  - reflexivity.
  - exists lo, hi. repeat split; assumption.
Defined.

(** ** ReLU *)

Lemma ltb_leb (x y : cortex_float_t) :
  (x <? y)%float = true -> (x <=? y)%float = true.
Proof.
  rewrite FloatAxioms.ltb_spec, FloatAxioms.leb_spec. unfold SFltb, SFleb.
  destruct (SFcompare (Prim2SF x) (Prim2SF y)) as [[| |] |];
    try discriminate; reflexivity.
Qed.

(** [fmax(0.0, x)] is [0.0], or it is an [x] that is neither NaN nor
    non-positive. *)
Lemma fmax_zero_cases (x : cortex_float_t) :
  fmax 0 x = 0%float
  \/ (fmax 0 x = x /\ (x <=? 0)%float = false /\ PrimFloat.is_nan x = false).
Proof.
  unfold fmax.
  destruct (x <=? 0)%float; [now left |].
  destruct (PrimFloat.is_nan x); [now left |].
  right. repeat split.
Qed.

Lemma fmax_zero_idempotent (x : cortex_float_t) :
  fmax 0 (fmax 0 x) = fmax 0 x.
Proof.
  destruct (fmax_zero_cases x) as [H | (H & Hle & Hnan)].
  - rewrite H. reflexivity.
  - rewrite H. unfold fmax. now rewrite Hle, Hnan.
Qed.

Lemma fmax_zero_sign (x : cortex_float_t) :
  PrimFloat.is_nan (fmax 0 x) = false /\ (fmax 0 x <? 0)%float = false.
Proof.
  destruct (fmax_zero_cases x) as [H | (H & Hle & Hnan)]; rewrite H.
  - split; reflexivity.
  - split; [assumption |].
    destruct (x <? 0)%float eqn:Hlt; [| reflexivity].
    apply ltb_leb in Hlt. congruence.
Qed.

(** X7.  For a well-formed tensor and a heap that can hold the copy,
    [cortex_tensor_relu] returns the operand's layout with [fmax(0.0, x)]
    at every position.  No element of the result is NaN (a NaN input
    becomes [0.0]) and none compares less than [0.0]; applying
    [cortex_tensor_relu] to the result returns the result again. *)
Theorem relu_clamps_and_is_idempotent (t : cortex_tensor_t) (s : runtime) :
  well_formed t = true -> tensor_bytes t <= heap_free s ->
  exists r,
    cortex_tensor_relu (Some t) s = Done (Some r) (allocated s (tensor_bytes t))
    /\ same_layout r t
    /\ data r = map (fmax 0) (data t)
    /\ (forall x, In x (data r) ->
          PrimFloat.is_nan x = false /\ (x <? 0)%float = false)
    /\ (forall s2, tensor_bytes t <= heap_free s2 ->
          cortex_tensor_relu (Some r) s2
          = Done (Some r) (allocated s2 (tensor_bytes t))).
Proof.
  intros Hwf Hmem.
  exists (set_data t (map (fmax 0) (data t))).
  rewrite cortex_tensor_relu_spec by assumption.
  destruct (Z.leb_spec (tensor_bytes t) (heap_free s)); [| lia].
  repeat split.
  - cbn [data set_data] in H0. apply in_map_iff in H0.
    destruct H0 as (y & <- & _). apply fmax_zero_sign.
  - cbn [data set_data] in H0. apply in_map_iff in H0.
    destruct H0 as (y & <- & _). apply fmax_zero_sign.
  - intros s2 Hmem2.
    rewrite cortex_tensor_relu_spec
      by (apply well_formed_set_data; [assumption | apply length_map]).
    rewrite tensor_bytes_set_data by apply length_map.
    destruct (Z.leb_spec (tensor_bytes t) (heap_free s2)); [| lia].
    cbn [data set_data]. rewrite map_map.
    do 2 f_equal. unfold set_data. cbn [shape ndim size requires_grad].
    f_equal. apply map_ext. intros x. apply fmax_zero_idempotent.
Qed.

(** ReLU of [[-1.0; NaN; 2.0]] is [[0.0; 0.0; 2.0]]. *)
Lemma relu_clamps_and_is_idempotent_witness :
  exists r,
    cortex_tensor_relu
      (Some (mk_tensor [(-1)%float; nan; 2%float] [3] 1 3 false)) sample_runtime
    = Done (Some r) (mk_runtime None 4024)
    /\ data r = [0%float; 0%float; 2%float].
Proof.
  destruct (relu_clamps_and_is_idempotent
              (mk_tensor [(-1)%float; nan; 2%float] [3] 1 3 false)
              sample_runtime eq_refl) as (r & Hrun & _ & Hdata & _).
  - vm_compute. discriminate.
  - exists r. split; assumption.
Defined.

(** ** Loss functions *)

Lemma cross_entropy_loop (c_log : cortex_float_t -> cortex_float_t)
  (bufa bufb : list cortex_float_t) :
  forall la lb prea preb acc,
    bufa = prea ++ la -> bufb = preb ++ lb ->
    length prea = length preb -> length la = length lb ->
    for_loop (R := Empty_set) (length la) (Z.of_nat (length prea))
      (fun i loss =>
         read bufa i (fun x =>
           if (0 <? x)%float
           then read bufb i (fun y => Next (loss - y * c_log x)%float)
           else Next loss))
      acc
    = Next (fold_left (cross_entropy_step c_log) (combine la lb) acc).
Proof.
  induction la as [| x la IH]; intros lb prea preb acc Ha Hb Hpre Hlen.
  - reflexivity.
  - destruct lb as [| y lb]; [discriminate |].
    cbn [length for_loop combine fold_left].
    unfold read at 1. rewrite Ha at 1. rewrite load_app_mid.
    assert (Hstep :
              (if (0 <? x)%float
               then read bufb (Z.of_nat (length prea))
                      (fun y0 => Next (R := Empty_set) (acc - y0 * c_log x)%float)
               else Next acc)
              = Next (cross_entropy_step c_log acc (x, y))).
    { unfold cross_entropy_step. cbn [fst snd].
      destruct (0 <? x)%float; [| reflexivity].
      unfold read. now rewrite Hb, Hpre, load_app_mid. }
    rewrite Hstep.
    replace (Z.of_nat (length prea) + 1)
      with (Z.of_nat (length (prea ++ [x])))
      by (rewrite length_app; simpl; lia).
    apply (IH lb (prea ++ [x]) (preb ++ [y])).
    + now rewrite <- app_assoc.
    + now rewrite <- app_assoc.
    + rewrite !length_app. simpl. lia.
    + simpl in Hlen. lia.
Qed.

Lemma cortex_cross_entropy_loss_spec c_log (p t : cortex_tensor_t) (s : runtime) :
  well_formed p = true -> well_formed t = true -> size p = size t ->
  cortex_cross_entropy_loss c_log (Some p) (Some t) s
  = Done (fold_left (cross_entropy_step c_log) (combine (data p) (data t)) 0
          / float_of_int64 (size p))%float s.
Proof.
  intros Hp Ht Hpt.
  destruct (same_length_data p t Hp Ht Hpt) as [Hsize Hlen].
  unfold cortex_cross_entropy_loss.
  rewrite Hpt, Z.eqb_refl. cbn [negb]. unfold bind, for_range.
  rewrite <- Hpt, Hsize at 1. rewrite Z.sub_0_r, Nat2Z.id.
  pose proof (cross_entropy_loop c_log (data p) (data t)
                (data p) (data t) [] [] 0%float eq_refl eq_refl eq_refl Hlen)
    as Hloop.
  cbn [length Z.of_nat] in Hloop. rewrite Hloop. reflexivity.
Qed.

Lemma cross_entropy_skips_non_positive c_log :
  forall la lb acc,
    (forall x, In x la -> (0 <? x)%float = false) ->
    fold_left (cross_entropy_step c_log) (combine la lb) acc = acc.
Proof.
  induction la as [| x la IH]; intros lb acc Hall; [reflexivity |].
  destruct lb as [| y lb]; [reflexivity |].
  cbn [combine fold_left]. unfold cross_entropy_step at 2. cbn [fst snd].
  rewrite (Hall x) by now left.
  apply IH. intros z Hz. apply Hall. now right.
Qed.

(** X8.  For well-formed operands of equal size,
    [cortex_cross_entropy_loss] changes nothing in the state and returns the
    accumulated loss divided by the element count, where only the pairs
    whose prediction is greater than [0.0] contribute.  When no prediction
    is greater than [0.0] (zeros, negatives and NaN included) the result is
    [0.0 / size] whatever the targets and whatever [log] is. *)
Theorem cross_entropy_ignores_non_positive
  c_log (p t : cortex_tensor_t) (s : runtime) :
  well_formed p = true -> well_formed t = true -> size p = size t ->
  cortex_cross_entropy_loss c_log (Some p) (Some t) s
  = Done (fold_left (cross_entropy_step c_log) (combine (data p) (data t)) 0
          / float_of_int64 (size p))%float s
  /\ ((forall x, In x (data p) -> (0 <? x)%float = false) ->
      cortex_cross_entropy_loss c_log (Some p) (Some t) s
      = Done (0 / float_of_int64 (size p))%float s).
Proof.
  intros Hp Ht Hpt.
  rewrite cortex_cross_entropy_loss_spec by assumption.
  split; [reflexivity |].
  intros Hall. now rewrite cross_entropy_skips_non_positive.
Qed.

(** Predictions [[0.0; -1.0; NaN]] against any targets give [0.0]. *)
Lemma cross_entropy_ignores_non_positive_witness :
  cortex_cross_entropy_loss (fun x => x)
    (Some (mk_tensor [0%float; (-1)%float; nan] [3] 1 3 false))
    (Some (mk_tensor [1%float; 2%float; 3%float] [3] 1 3 false))
    sample_runtime
  = Done 0%float sample_runtime.
Proof.
  destruct (cross_entropy_ignores_non_positive (fun x => x)
              (mk_tensor [0%float; (-1)%float; nan] [3] 1 3 false)
              (mk_tensor [1%float; 2%float; 3%float] [3] 1 3 false)
              sample_runtime eq_refl eq_refl eq_refl) as [_ Hzero].
  rewrite Hzero.
  - reflexivity.
  - intros x Hin. simpl in Hin.
    repeat (destruct Hin as [<- | Hin]; [reflexivity |]). contradiction.
Defined.

(** X9.  Given two present operands whose [size] is [0], each of the three
    loss functions runs no iteration, divides [0.0] by [0] and returns NaN,
    with nothing recorded in the error slot. *)
Theorem losses_of_empty_operands_are_nan
  c_log (p t : cortex_tensor_t) (s : runtime) :
  size p = 0 -> size t = 0 ->
  cortex_mse_loss (Some p) (Some t) s = Done nan s
  /\ cortex_cross_entropy_loss c_log (Some p) (Some t) s = Done nan s
  /\ cortex_binary_cross_entropy_loss c_log (Some p) (Some t) s = Done nan s.
Proof.
  intros Hp Ht.
  unfold cortex_mse_loss, cortex_cross_entropy_loss,
    cortex_binary_cross_entropy_loss.
  rewrite Hp, Ht. repeat split.
Qed.

Lemma losses_of_empty_operands_are_nan_witness :
  cortex_mse_loss (Some empty_tensor) (Some empty_tensor) sample_runtime
  = Done nan sample_runtime.
Proof.
  exact (proj1 (losses_of_empty_operands_are_nan (fun x => x)
                  empty_tensor empty_tensor sample_runtime eq_refl eq_refl)).
Defined.

(** ** Allocation and release *)

(** What a successful [cortex_tensor_create] leaves behind: a well-formed
    tensor and a heap charged with exactly its three blocks. *)
Lemma cortex_tensor_create_success
  (sh : list Z) (n : Z) (s s' : runtime) (t : cortex_tensor_t) :
  n <= INT32_MAX ->
  cortex_tensor_create (Some sh) n s = Done (Some t) s' ->
  well_formed t = true /\ s' = allocated s (tensor_bytes t).
Proof.
  intros Hmax. unfold cortex_tensor_create.
  destruct (Z.leb_spec n 0) as [| Hpos]; [discriminate |].
  assert (Hn : I64.to_size_t n = n)
    by (apply to_size_t_small; unfold INT32_MAX, I64.modulus in *; lia).
  rewrite Hn. unfold_alloc.
  destruct (sizeof_tensor <=? heap_free s); cbn [negb]; [| discriminate].
  cbn [heap_free g_error_message].
  destruct (n * sizeof_int64 <=? heap_free s - sizeof_tensor);
    cbn [negb]; [| discriminate].
  destruct (memcpy (repeat 0 (Z.to_nat n)) sh n) as [sh' |] eqn:Hcpy;
    [| discriminate].
  apply memcpy_into_fresh in Hcpy. destruct Hcpy as [Hsh Hlen].
  pose proof (shape_product_range sh') as Hrange.
  destruct (Z.leb_spec I64.modulus
              (I64.to_size_t (shape_product sh') * sizeof_float)) as [| Hfit];
    [discriminate |].
  cbn [heap_free g_error_message].
  assert (Hnonneg : 0 <= shape_product sh').
  { destruct (Z.lt_ge_cases (shape_product sh') 0) as [Hneg |]; [| assumption].
    exfalso. unfold I64.to_size_t in Hfit.
    rewrite <- (Z.mod_add _ 1), Z.mod_small in Hfit;
      unfold I64.min_signed, I64.max_signed, I64.half, I64.modulus,
        sizeof_float in *; lia. }
  rewrite to_size_t_small in *
    by (unfold I64.max_signed, I64.half, I64.modulus in *; lia).
  break_if; cbn [negb]; [| discriminate].
  intros H. inversion H; subst t s'. clear H. split.
  - unfold well_formed. cbn [shape size data ndim].
    rewrite repeat_length, Z2Nat.id by assumption.
    rewrite Hlen, !Z.eqb_refl.
    destruct (Z.ltb_spec 0 n); [| lia].
    destruct (Z.leb_spec n INT32_MAX); [| lia].
    destruct (Z.ltb_spec (shape_product sh' * sizeof_float) I64.modulus);
      [| lia].
    reflexivity.
  - unfold allocated, tensor_bytes. cbn [shape data heap_free g_error_message].
    rewrite repeat_length, Z2Nat.id, Hlen by assumption.
    f_equal. lia.
Qed.

Lemma cortex_tensor_free_restores (t : cortex_tensor_t) (s : runtime) :
  cortex_tensor_free (Some t) (allocated s (tensor_bytes t)) = Done tt s.
Proof.
  unfold cortex_tensor_free, free, bind, allocated, tensor_bytes.
  destruct s as [e h]. cbn [heap_free g_error_message].
  do 2 f_equal. lia.
Qed.

(** X10.  [cortex_tensor_create] fails with the invalid-shape message when
    the shape is absent or [ndim <= 0], and otherwise only with the
    allocation-failure message; in every failure the heap is as before the
    call, so the blocks obtained before the failing allocation were released. *)
Theorem create_failure_leaves_no_block
  (sh : option (list Z)) (n : Z) (s : runtime) :
  (sh = None \/ n <= 0 ->
   cortex_tensor_create sh n s = Done None (with_error s "Invalid tensor shape"))
  /\ (forall s',
        cortex_tensor_create sh n s = Done None s' ->
        s' = with_error s "Invalid tensor shape"
        \/ s' = with_error s "Memory allocation failed")
  /\ (forall s',
        cortex_tensor_create sh n s = Done None s' ->
        sh <> None -> 0 < n ->
        s' = with_error s "Memory allocation failed").
Proof.
  assert (Hmodes : forall s',
            cortex_tensor_create sh n s = Done None s' ->
            (s' = with_error s "Invalid tensor shape" /\ (sh = None \/ n <= 0))
            \/ s' = with_error s "Memory allocation failed").
  { intros s'. unfold cortex_tensor_create. destruct sh as [l |].
    - destruct (Z.leb_spec n 0) as [Hle | Hlt].
      + intros Hrun. inversion Hrun. left. split; [reflexivity | now right].
      + unfold_alloc.
        repeat (break_if; cbn [negb heap_free g_error_message]);
          try break_match; cbn [negb heap_free g_error_message];
          repeat (break_if; cbn [negb heap_free g_error_message]);
          intros Hrun; inversion Hrun; right; unfold with_error; f_equal; lia.
    - intros Hrun. inversion Hrun. left. split; [reflexivity | now left]. }
  refine (conj _ (conj _ _)).
  - intros [-> | Hn]; [reflexivity |].
    unfold cortex_tensor_create. destruct sh; [| reflexivity].
    destruct (Z.leb_spec n 0); [reflexivity | lia].
  - intros s' H. destruct (Hmodes s' H) as [[-> _] | ->]; auto.
  - intros s' H Hsh Hn.
    destruct (Hmodes s' H) as [[_ [-> | Hle]] | ->];
      [contradiction | lia | reflexivity].
Qed.

(** [ndim = 0] is refused; and a heap of 50 bytes, which holds the header
    and not the shape of [[2; 3]], is left at 50 bytes. *)
Lemma create_failure_leaves_no_block_witness :
  cortex_tensor_create (Some [2; 3]) 0 sample_runtime
  = Done None (with_error sample_runtime "Invalid tensor shape")
  /\ mk_runtime (Some "Memory allocation failed") 50
     = with_error (mk_runtime None 50) "Memory allocation failed".
Proof.
  split.
  - apply (create_failure_leaves_no_block (Some [2; 3]) 0 sample_runtime).
    right. lia.
  - apply (create_failure_leaves_no_block (Some [2; 3]) 2 (mk_runtime None 50)).
    + reflexivity.
    + discriminate.
    + lia.
Defined.

(** X11.  Releasing a tensor gives back exactly what its allocation took:
    after [cortex_tensor_create] or [cortex_tensor_copy] returned a tensor,
    [cortex_tensor_free] on it leaves the runtime state, heap and error slot,
    as it was before the allocation; the copy of a well-formed tensor equals
    its source; and [cortex_tensor_free] on the null tensor does nothing. *)
Theorem free_gives_back_what_was_allocated
  (sh : list Z) (n : Z) (t src : cortex_tensor_t) (s s' : runtime) :
  (n <= INT32_MAX ->
   cortex_tensor_create (Some sh) n s = Done (Some t) s' ->
   cortex_tensor_free (Some t) s' = Done tt s)
  /\ (well_formed src = true ->
      cortex_tensor_copy (Some src) s = Done (Some t) s' ->
      t = src /\ cortex_tensor_free (Some t) s' = Done tt s)
  /\ cortex_tensor_free None s = Done tt s.
Proof.
  refine (conj _ (conj _ _)).
  - intros Hmax Hrun.
    destruct (cortex_tensor_create_success sh n s s' t Hmax Hrun) as [_ ->].
    apply cortex_tensor_free_restores.
  - intros Hwf Hrun.
    rewrite cortex_tensor_copy_spec in Hrun by assumption.
    destruct (tensor_bytes src <=? heap_free s); [| discriminate].
    inversion Hrun. subst. split; [reflexivity |].
    apply cortex_tensor_free_restores.
  - reflexivity.
Qed.

Lemma free_gives_back_what_was_allocated_witness :
  cortex_tensor_free (Some (mk_tensor (repeat 0%float 6) [2; 3] 2 6 false))
    (mk_runtime None 3992)
  = Done tt sample_runtime.
Proof.
  refine (proj1 (free_gives_back_what_was_allocated [2; 3] 2 _ sample_matrix
                   sample_runtime (mk_runtime None 3992)) _ _).
  - unfold INT32_MAX. lia.
  - reflexivity.
Defined.

(** ** Loops with an invariant, and buffers read and written by index *)

Lemma for_loop_invariant {R A} (P : Z -> A -> Prop) (body : Z -> A -> step R A) :
  forall n lo acc,
    P lo acc ->
    (forall i a, lo <= i < lo + Z.of_nat n -> P i a ->
                 exists a', body i a = Next a' /\ P (i + 1) a') ->
    exists a', for_loop n lo body acc = Next a' /\ P (lo + Z.of_nat n) a'.
Proof.
  induction n as [| n IH]; intros lo acc Hinit Hstep.
  - exists acc. split; [reflexivity |]. now rewrite Z.add_0_r.
  - destruct (Hstep lo acc) as (a1 & Hbody & Hnext); [lia | assumption |].
    cbn [for_loop]. rewrite Hbody.
    destruct (IH (lo + 1) a1 Hnext) as (a' & Hrun & Hend).
    + intros i a Hi. apply Hstep. lia.
    + exists a'. split; [assumption |].
      replace (lo + Z.of_nat (S n)) with (lo + 1 + Z.of_nat n) by lia.
      assumption.
Qed.

Lemma for_range_invariant {R A} (P : Z -> A -> Prop) (body : Z -> A -> step R A)
  (hi : Z) (acc : A) :
  0 <= hi ->
  P 0 acc ->
  (forall i a, 0 <= i < hi -> P i a ->
               exists a', body i a = Next a' /\ P (i + 1) a') ->
  exists a', for_range 0 hi body acc = Next a' /\ P hi a'.
Proof.
  intros Hhi Hinit Hstep. unfold for_range. rewrite Z.sub_0_r.
  destruct (for_loop_invariant P body (Z.to_nat hi) 0 acc Hinit)
    as (a' & Hrun & Hend).
  - intros i a Hi. apply Hstep. lia.
  - exists a'. split; [assumption |].
    now rewrite Z.add_0_l, Z2Nat.id in Hend.
Qed.

Lemma load_in_bounds {A} (l : list A) (i : Z) :
  0 <= i < Z.of_nat (length l) -> exists x, load l i = Some x.
Proof.
  intros Hi. unfold load. destruct (Z.ltb_spec i 0); [lia |].
  destruct (nth_error l (Z.to_nat i)) as [x |] eqn:Hx; [eauto |].
  apply nth_error_None in Hx. lia.
Qed.

Lemma load_bound {A} (l : list A) (i : Z) (x : A) :
  load l i = Some x -> 0 <= i < Z.of_nat (length l).
Proof.
  unfold load. destruct (Z.ltb_spec i 0); [discriminate |].
  intros Hx. assert (Hlt : (Z.to_nat i < length l)%nat)
    by (apply nth_error_Some; congruence).
  lia.
Qed.

Lemma store_nat_spec {A} (v : A) :
  forall (l : list A) (n : nat),
    (n < length l)%nat ->
    exists l',
      store_nat l n v = Some l'
      /\ length l' = length l
      /\ nth_error l' n = Some v
      /\ forall m, m <> n -> nth_error l' m = nth_error l m.
Proof.
  induction l as [| x l IH]; intros n Hn; [simpl in Hn; lia |].
  destruct n as [| n].
  - exists (v :: l). repeat split. intros [| m] Hm; [congruence | reflexivity].
  - destruct (IH n) as (l' & Hst & Hlen & Hget & Hother);
      [simpl in Hn; lia |].
    exists (x :: l'). cbn [store_nat]. rewrite Hst. repeat split.
    + simpl. now rewrite Hlen.
    + exact Hget.
    + intros [| m] Hm; [reflexivity |]. simpl. apply Hother. congruence.
Qed.

(** [buf[i] = v] inside the buffer: the length stays, position [i] holds
    [v], every other position holds what it held. *)
Lemma store_spec {A} (l : list A) (i : Z) (v : A) :
  0 <= i < Z.of_nat (length l) ->
  exists l',
    store l i v = Some l'
    /\ length l' = length l
    /\ load l' i = Some v
    /\ forall j, j <> i -> load l' j = load l j.
Proof.
  intros Hi. unfold store, load.
  destruct (Z.ltb_spec i 0); [lia |].
  destruct (store_nat_spec v l (Z.to_nat i)) as (l' & Hst & Hlen & Hget & Hother);
    [lia |].
  exists l'. repeat split; try assumption.
  intros j Hj. destruct (Z.ltb_spec j 0); [reflexivity |].
  apply Hother. lia.
Qed.

Lemma wrap_small (z : Z) :
  I64.min_signed <= z <= I64.max_signed -> I64.wrap z = z.
Proof.
  intros Hz.
  unfold I64.wrap, I64.min_signed, I64.max_signed, I64.half, I64.modulus in *.
  rewrite Z.mod_small; lia.
Qed.

(** [i * n + j] in [int64_t] arithmetic, for an index inside a small buffer. *)
Lemma index_no_wrap (i n j bound : Z) :
  0 <= i -> 0 <= n -> 0 <= j -> i * n + j <= bound -> bound <= I64.max_signed ->
  I64.add (I64.mul i n) j = i * n + j.
Proof.
  intros Hi Hn Hj Hb Hmax. unfold I64.add, I64.mul.
  assert (0 <= i * n) by lia.
  rewrite (wrap_small (i * n))
    by (unfold I64.min_signed, I64.max_signed, I64.half in *; lia).
  apply wrap_small.
  unfold I64.min_signed, I64.max_signed, I64.half in *. lia.
Qed.

(** Row-major positions are told apart by their row and column. *)
Lemma row_major_unique (n r c r' c' : Z) :
  0 <= c < n -> 0 <= c' < n -> r * n + c = r' * n + c' -> r = r' /\ c = c'.
Proof.
  intros Hc Hc' Heq.
  assert (Hr : r = r') by nia.
  subst r'. split; [reflexivity | lia].
Qed.

Lemma row_major_bound (n m r c : Z) :
  0 <= r < m -> 0 <= c < n -> 0 <= r * n + c < m * n.
Proof. intros Hr Hc. nia. Qed.

Lemma list_eq_by_load {A} (l l' : list A) :
  length l = length l' ->
  (forall i, 0 <= i < Z.of_nat (length l) -> load l i = load l' i) ->
  l = l'.
Proof.
  intros Hlen Hload. apply nth_error_ext. intros n.
  destruct (Nat.lt_ge_cases n (length l)) as [Hlt | Hge].
  - specialize (Hload (Z.of_nat n)). unfold load in Hload.
    destruct (Z.ltb_spec (Z.of_nat n) 0); [lia |].
    rewrite Nat2Z.id in Hload. apply Hload. lia.
  - rewrite (proj2 (nth_error_None l n)) by lia.
    rewrite (proj2 (nth_error_None l' n)) by lia. reflexivity.
Qed.

Lemma load_repeat {A} (v : A) (n : nat) (i : Z) :
  0 <= i < Z.of_nat n -> load (repeat v n) i = Some v.
Proof.
  intros Hi. unfold load. destruct (Z.ltb_spec i 0); [lia |].
  apply nth_error_repeat. lia.
Qed.

(** ** The identity matrix *)

Lemma shape_product_two (x y : Z) :
  I64.min_signed <= x <= I64.max_signed ->
  I64.min_signed <= x * y <= I64.max_signed ->
  shape_product [x; y] = x * y.
Proof.
  intros Hx Hxy. unfold shape_product. cbn [fold_left]. unfold I64.mul.
  rewrite Z.mul_1_l, (wrap_small x) by assumption.
  now apply wrap_small.
Qed.

Lemma small_square (n : Z) :
  n * n * sizeof_float < I64.modulus ->
  - 2 ^ 31 < n < 2 ^ 31 /\ 0 <= n * n < 2 ^ 61.
Proof.
  unfold sizeof_float, I64.modulus. intros H.
  change (2 ^ 64) with 18446744073709551616 in H.
  change (2 ^ 31) with 2147483648. change (2 ^ 61) with 2305843009213693952.
  nia.
Qed.

Lemma cortex_eye_create (n : Z) (s : runtime) :
  n * n * sizeof_float < I64.modulus ->
  sizeof_tensor + 2 * sizeof_int64 + n * n * sizeof_float <= heap_free s ->
  cortex_tensor_create (Some [n; n]) 2 s
  = Done (Some (mk_tensor (repeat 0%float (Z.to_nat (n * n))) [n; n] 2
                          (n * n) false))
         (allocated s (sizeof_tensor + 2 * sizeof_int64 + n * n * sizeof_float)).
Proof.
  intros Haddr Hmem.
  destruct (small_square n Haddr) as [Hn Hsq].
  assert (Hprod : shape_product [n; n] = n * n).
  { apply shape_product_two;
      unfold I64.min_signed, I64.max_signed, I64.half;
      change (2 ^ 63) with 9223372036854775808;
      change (2 ^ 31) with 2147483648 in Hn;
      change (2 ^ 61) with 2305843009213693952 in Hsq; lia. }
  rewrite cortex_tensor_create_spec;
    rewrite ?Hprod; try reflexivity; try lia;
    try (unfold INT32_MAX; lia).
  cbv zeta.
  destruct (Z.leb_spec (sizeof_tensor + 2 * sizeof_int64 + n * n * sizeof_float)
              (heap_free s)); [reflexivity | lia].
Qed.

(** The loop of [cortex_eye] on the zero-filled [n] x [n] buffer. *)
Lemma eye_loop_spec (n : Z) :
  0 <= n -> n * n * sizeof_float < I64.modulus ->
  exists d,
    for_range (R := Empty_set) 0 n
      (fun i buf => write buf (I64.add (I64.mul i n) i) 1%float)
      (repeat 0%float (Z.to_nat (n * n)))
    = Next d
    /\ length d = Z.to_nat (n * n)
    /\ forall r c, 0 <= r < n -> 0 <= c < n ->
         load d (r * n + c) = Some (if r =? c then 1%float else 0%float).
Proof.
  intros Hn Haddr.
  destruct (small_square n Haddr) as [_ Hsq].
  change (2 ^ 61) with 2305843009213693952 in Hsq.
  destruct (for_range_invariant
              (fun i buf =>
                 length buf = Z.to_nat (n * n)
                 /\ forall r c, 0 <= r < n -> 0 <= c < n ->
                      load buf (r * n + c)
                      = Some (if (r =? c) && (r <? i)
                              then 1%float else 0%float))
              (fun i buf => write (R := Empty_set) buf
                              (I64.add (I64.mul i n) i) 1%float)
              n (repeat 0%float (Z.to_nat (n * n))) Hn)
    as (d & Hrun & Hlen & Hload).
  - split; [apply repeat_length |].
    intros r c Hr Hc.
    rewrite load_repeat by (pose proof (row_major_bound n n r c Hr Hc); lia).
    destruct (Z.ltb_spec r 0); [lia |]. now rewrite andb_false_r.
  - intros i buf Hi (Hlen & Hload).
    rewrite (index_no_wrap i n i (n * n))
      by (unfold I64.max_signed, I64.half;
          change (2 ^ 63) with 9223372036854775808;
          pose proof (row_major_bound n n i i Hi Hi); lia).
    destruct (store_spec buf (i * n + i) 1%float)
      as (buf' & Hst & Hlen' & Hget & Hother).
    { pose proof (row_major_bound n n i i Hi Hi). lia. }
    exists buf'. unfold write. rewrite Hst. split; [reflexivity |].
    split; [congruence |].
    intros r c Hr Hc.
    destruct (Z.eq_dec (r * n + c) (i * n + i)) as [Heq | Hne].
    + destruct (row_major_unique n r c i i Hc Hi Heq) as [-> ->].
      rewrite Hget, Z.eqb_refl.
      destruct (Z.ltb_spec i (i + 1)); [reflexivity | lia].
    + rewrite (Hother _ Hne), (Hload r c Hr Hc).
      destruct (Z.eqb_spec r c) as [-> | _]; [| reflexivity].
      cbn [andb].
      destruct (Z.ltb_spec c i), (Z.ltb_spec c (i + 1));
        try reflexivity; try lia.
      assert (c = i) by lia. subst c. congruence.
  - exists d. split; [assumption |]. split; [assumption |].
    intros r c Hr Hc. rewrite (Hload r c Hr Hc).
    destruct (Z.ltb_spec r n); [| lia]. now rewrite andb_true_r.
Qed.

(** X12.  For [n >= 0] (an addressable [n * n], heap permitting)
    [cortex_eye n] returns the [n] x [n] tensor whose element in row [r] and
    column [c] is [1.0] when [r = c] and [0.0] otherwise.  A negative [n] is
    not rejected: the loop runs no iteration and the result carries the two
    negative extents and [n * n] zeros. *)
Theorem eye_is_identity (n : Z) (s : runtime) :
  n * n * sizeof_float < I64.modulus ->
  sizeof_tensor + 2 * sizeof_int64 + n * n * sizeof_float <= heap_free s ->
  (0 <= n ->
   exists r,
     cortex_eye n s
     = Done (Some r)
            (allocated s (sizeof_tensor + 2 * sizeof_int64
                          + n * n * sizeof_float))
     /\ shape r = [n; n] /\ ndim r = 2 /\ size r = n * n
     /\ Z.of_nat (length (data r)) = n * n
     /\ forall i j, 0 <= i < n -> 0 <= j < n ->
          load (data r) (i * n + j)
          = Some (if i =? j then 1%float else 0%float))
  /\ (n < 0 ->
      cortex_eye n s
      = Done (Some (mk_tensor (repeat 0%float (Z.to_nat (n * n))) [n; n] 2
                              (n * n) false))
             (allocated s (sizeof_tensor + 2 * sizeof_int64
                           + n * n * sizeof_float))).
Proof.
  intros Haddr Hmem. split; intros Hn.
  - destruct (eye_loop_spec n Hn Haddr) as (d & Hrun & Hlen & Hload).
    unfold cortex_eye, bind. rewrite cortex_eye_create by assumption.
    cbn [data]. rewrite Hrun. cbn [run_loop ret].
    eexists. split; [reflexivity |].
    cbn [shape ndim size data set_data]. repeat split.
    + rewrite Hlen. destruct (small_square n Haddr). lia.
    + assumption.
  - unfold cortex_eye, bind. rewrite cortex_eye_create by assumption.
    unfold for_range.
    replace (Z.to_nat (n - 0)) with 0%nat by lia. reflexivity.
Qed.

Lemma eye_is_identity_witness :
  exists r s',
    cortex_eye 3 sample_runtime = Done (Some r) s'
    /\ load (data r) 4 = Some 1%float
    /\ load (data r) 5 = Some 0%float.
Proof.
  destruct (eye_is_identity 3 sample_runtime) as [Hpos _].
  - reflexivity.
  - vm_compute. discriminate.
  - destruct Hpos as (r & Hrun & _ & _ & _ & _ & Hload); [discriminate |].
    exists r. eexists. split; [exact Hrun |]. split.
    + apply (Hload 1 1); split; (discriminate || reflexivity).
    + apply (Hload 1 2); split; (discriminate || reflexivity).
Defined.

(** ** Transpose *)

Lemma matrix_create (x y : Z) (s : runtime) :
  0 <= x <= I64.max_signed -> 0 <= x * y ->
  x * y * sizeof_float < I64.modulus ->
  cortex_tensor_create (Some [x; y]) 2 s
  = if sizeof_tensor + 2 * sizeof_int64 + x * y * sizeof_float <=? heap_free s
    then Done (Some (mk_tensor (repeat 0%float (Z.to_nat (x * y))) [x; y] 2
                               (x * y) false))
              (allocated s (sizeof_tensor + 2 * sizeof_int64
                            + x * y * sizeof_float))
    else Done None (with_error s "Memory allocation failed").
Proof.
  intros Hx Hxy Haddr.
  assert (Hprod : shape_product [x; y] = x * y).
  { apply shape_product_two;
      unfold I64.min_signed, I64.max_signed, I64.half, sizeof_float,
        I64.modulus in *;
      change (2 ^ 63) with 9223372036854775808 in *;
      change (2 ^ 64) with 18446744073709551616 in *; lia. }
  rewrite cortex_tensor_create_spec;
    rewrite ?Hprod; try reflexivity; try lia;
    try (unfold INT32_MAX; lia).
Qed.

Lemma is_matrix_facts (t : cortex_tensor_t) (rows cols : Z) :
  is_matrix t rows cols ->
  ndim t = 2
  /\ Z.of_nat (length (data t)) = rows * cols
  /\ rows * cols * sizeof_float < I64.modulus
  /\ tensor_bytes t
     = sizeof_tensor + 2 * sizeof_int64 + rows * cols * sizeof_float.
Proof.
  intros (Hwf & Hshape & Hrows & Hcols & Hprod).
  pose proof (well_formed_spec t Hwf) as (Hn & _ & _ & Hdata & Haddr).
  rewrite Hshape in Hn. cbn in Hn.
  repeat split; try lia.
  unfold tensor_bytes. rewrite Hshape. cbn [length]. lia.
Qed.

(** The two loops of [cortex_tensor_transpose], writing into the zero-filled
    buffer of the result. *)
Lemma transpose_loop_spec (src : list cortex_float_t) (rows cols : Z) :
  0 <= rows -> 0 <= cols ->
  rows * cols * sizeof_float < I64.modulus ->
  Z.of_nat (length src) = rows * cols ->
  exists d,
    for_range (R := Empty_set) 0 rows
      (fun i buf =>
         for_range 0 cols
           (fun j buf =>
              read src (I64.add (I64.mul i cols) j) (fun x =>
              write buf (I64.add (I64.mul j rows) i) x))
           buf)
      (repeat 0%float (Z.to_nat (rows * cols)))
    = Next d
    /\ Z.of_nat (length d) = rows * cols
    /\ forall i j, 0 <= i < rows -> 0 <= j < cols ->
         load d (j * rows + i) = load src (i * cols + j).
Proof.
  intros Hrows Hcols Haddr Hsrc.
  assert (Hmax : rows * cols <= I64.max_signed).
  { unfold I64.max_signed, I64.half, sizeof_float, I64.modulus in *.
    change (2 ^ 63) with 9223372036854775808.
    change (2 ^ 64) with 18446744073709551616 in *. lia. }
  destruct (for_range_invariant
              (fun i buf =>
                 Z.of_nat (length buf) = rows * cols
                 /\ forall i' j, 0 <= i' < i -> 0 <= j < cols ->
                      load buf (j * rows + i') = load src (i' * cols + j))
              (fun i buf =>
                 for_range (R := Empty_set) 0 cols
                   (fun j buf =>
                      read src (I64.add (I64.mul i cols) j) (fun x =>
                      write buf (I64.add (I64.mul j rows) i) x))
                   buf)
              rows (repeat 0%float (Z.to_nat (rows * cols))) Hrows)
    as (d & Hrun & Hlen & Hload).
  - split; [rewrite repeat_length; nia | intros; lia].
  - intros i buf Hi (Hlen & Hdone).
    destruct (for_range_invariant
                (fun j b =>
                   Z.of_nat (length b) = rows * cols
                   /\ (forall i' j', 0 <= i' < i -> 0 <= j' < cols ->
                         load b (j' * rows + i') = load src (i' * cols + j'))
                   /\ forall j', 0 <= j' < j ->
                        load b (j' * rows + i) = load src (i * cols + j'))
                (fun j b =>
                   read (R := Empty_set) src (I64.add (I64.mul i cols) j)
                     (fun x => write b (I64.add (I64.mul j rows) i) x))
                cols buf Hcols)
      as (b' & Hrun' & Hlen' & Hold & Hrow).
    + split; [assumption |]. split; [assumption | intros; lia].
    + intros j b Hj (Hlenb & Holdb & Hrowb).
      pose proof (row_major_bound cols rows i j Hi Hj) as Hsrcpos.
      pose proof (row_major_bound rows cols j i Hj Hi) as Hdstpos.
      rewrite (index_no_wrap i cols j (rows * cols)) by lia.
      rewrite (index_no_wrap j rows i (rows * cols)) by lia.
      destruct (load_in_bounds src (i * cols + j)) as (x & Hx); [lia |].
      destruct (store_spec b (j * rows + i) x)
        as (b1 & Hst & Hlen1 & Hget & Hother); [lia |].
      exists b1. unfold read, write. rewrite Hx, Hst.
      split; [reflexivity |]. split; [lia |]. split.
      * intros i' j' Hi' Hj'. rewrite Hother; [now apply Holdb |].
        intros Heq.
        destruct (row_major_unique rows j' i' j i) as [_ Hii]; try lia.
      * intros j' Hj'.
        destruct (Z.eq_dec j' j) as [-> | Hne]; [now rewrite Hget |].
        rewrite Hother; [apply Hrowb; lia |].
        intros Heq.
        destruct (row_major_unique rows j' i j i) as [Hjj _]; try lia.
    + exists b'. split; [assumption |]. split; [assumption |].
      intros i' j Hi' Hj.
      destruct (Z.eq_dec i' i) as [-> | Hne];
        [apply Hrow; assumption | apply Hold; [lia | assumption]].
  - exists d. repeat split; assumption.
Qed.

Lemma cortex_tensor_transpose_spec (t : cortex_tensor_t) (rows cols : Z)
  (s : runtime) :
  is_matrix t rows cols -> tensor_bytes t <= heap_free s ->
  exists d,
    cortex_tensor_transpose (Some t) s
    = Done (Some (mk_tensor d [cols; rows] 2 (cols * rows) false))
           (allocated s (tensor_bytes t))
    /\ Z.of_nat (length d) = rows * cols
    /\ forall i j, 0 <= i < rows -> 0 <= j < cols ->
         load d (j * rows + i) = load (data t) (i * cols + j).
Proof.
  intros Hm Hmem.
  destruct (is_matrix_facts t rows cols Hm) as (Hnd & Hlen & Haddr & Hbytes).
  destruct Hm as (Hwf & Hshape & Hrows & Hcols & Hprod).
  destruct (transpose_loop_spec (data t) rows cols) as (d & Hrun & Hlend & Hload);
    try lia.
  exists d. split; [| split; assumption].
  unfold cortex_tensor_transpose. rewrite Hnd, Hshape.
  change (2 =? 2) with true.
  change (load [rows; cols] 0) with (Some rows).
  change (load [rows; cols] 1) with (Some cols).
  cbn [negb]. cbv beta iota.
  unfold bind.
  rewrite matrix_create by lia.
  replace (cols * rows) with (rows * cols) by lia.
  rewrite <- Hbytes.
  destruct (Z.leb_spec (tensor_bytes t) (heap_free s)); [| lia].
  cbn [data]. rewrite Hrun. reflexivity.
Qed.

(** X13.  For a well-formed [rows] x [cols] matrix and a heap that can hold
    two results, [cortex_tensor_transpose] returns a [cols] x [rows] tensor
    whose element in row [j] and column [i] is the element of the operand in
    row [i] and column [j]; and transposing the result gives back the
    extents and the flat buffer of the operand. *)
Theorem transpose_swaps_and_is_involutive
  (t : cortex_tensor_t) (rows cols : Z) (s : runtime) :
  is_matrix t rows cols -> 2 * tensor_bytes t <= heap_free s ->
  exists r1 r2 s1 s2,
    cortex_tensor_transpose (Some t) s = Done (Some r1) s1
    /\ shape r1 = [cols; rows] /\ ndim r1 = 2 /\ size r1 = size t
    /\ (forall i j, 0 <= i < rows -> 0 <= j < cols ->
          load (data r1) (j * rows + i) = load (data t) (i * cols + j))
    /\ cortex_tensor_transpose (Some r1) s1 = Done (Some r2) s2
    /\ shape r2 = shape t /\ ndim r2 = ndim t /\ size r2 = size t
    /\ data r2 = data t
    /\ g_error_message s2 = g_error_message s.
Proof.
  intros Hm Hmem.
  destruct (is_matrix_facts t rows cols Hm) as (Hnd & Hlen & Haddr & Hbytes).
  assert (Hpos : 0 <= tensor_bytes t)
    by (unfold tensor_bytes, sizeof_tensor, sizeof_int64, sizeof_float; lia).
  destruct (cortex_tensor_transpose_spec t rows cols s Hm)
    as (d1 & Hrun1 & Hlen1 & Hload1); [lia |].
  pose proof Hm as (Hwf & Hshape & Hrows & Hcols & Hprod).
  set (r1 := mk_tensor d1 [cols; rows] 2 (cols * rows) false) in *.
  assert (Hm1 : is_matrix r1 cols rows).
  { unfold is_matrix, r1. cbn [shape size].
    repeat split; try lia.
    unfold well_formed. cbn [shape ndim size data].
    rewrite shape_product_two
      by (unfold I64.min_signed, I64.max_signed, I64.half, sizeof_float,
            I64.modulus in *;
          change (2 ^ 63) with 9223372036854775808 in *;
          change (2 ^ 64) with 18446744073709551616 in *; lia).
    rewrite Hlen1, Z.eqb_refl.
    replace (cols * rows) with (rows * cols) by lia. rewrite Z.eqb_refl.
    destruct (Z.ltb_spec (rows * cols * sizeof_float) I64.modulus); [| lia].
    reflexivity. }
  assert (Hbytes1 : tensor_bytes r1 = tensor_bytes t).
  { rewrite Hbytes. unfold tensor_bytes, r1. cbn [shape data length]. lia. }
  destruct (cortex_tensor_transpose_spec r1 cols rows
              (allocated s (tensor_bytes t)) Hm1)
    as (d2 & Hrun2 & Hlen2 & Hload2).
  { rewrite Hbytes1. unfold allocated. cbn [heap_free]. lia. }
  exists r1, (mk_tensor d2 [rows; cols] 2 (rows * cols) false).
  exists (allocated s (tensor_bytes t)).
  exists (allocated (allocated s (tensor_bytes t)) (tensor_bytes r1)).
  refine (conj Hrun1 (conj eq_refl (conj eq_refl (conj _ (conj Hload1
           (conj Hrun2 (conj _ (conj _ (conj _ (conj _ eq_refl))))))))));
    cbn [shape ndim size data r1]; try lia; try (symmetry; assumption).
  apply list_eq_by_load; [lia |].
  intros p Hp.
  assert (Hcols_pos : 0 < cols) by nia.
  pose proof (Z.div_mod p cols ltac:(lia)) as Hdm.
  pose proof (Z.mod_pos_bound p cols Hcols_pos) as Hmod.
  assert (Hdiv : 0 <= p / cols < rows).
  { split; [apply Z.div_pos; lia |].
    apply Z.div_lt_upper_bound; nia. }
  replace p with (p / cols * cols + p mod cols) by lia.
  rewrite (Hload2 (p mod cols) (p / cols)) by lia.
  apply Hload1; lia.
Qed.

Lemma sample_is_matrix : is_matrix sample_matrix 2 3.
Proof.
  unfold is_matrix, I64.max_signed, I64.half.
  repeat split; try reflexivity; try discriminate.
Qed.

Lemma transpose_swaps_and_is_involutive_witness :
  exists r1 r2 s1 s2,
    cortex_tensor_transpose (Some sample_matrix) sample_runtime
    = Done (Some r1) s1
    /\ shape r1 = [3; 2]
    /\ cortex_tensor_transpose (Some r1) s1 = Done (Some r2) s2
    /\ data r2 = data sample_matrix.
Proof.
  destruct (transpose_swaps_and_is_involutive sample_matrix 2 3 sample_runtime)
    as (r1 & r2 & s1 & s2 & H1 & Hsh & _ & _ & _ & H2 & _ & _ & _ & Hd & _).
  - exact sample_is_matrix.
  - vm_compute. discriminate.
  - exists r1, r2, s1, s2. repeat split; assumption.
Defined.

(** ** Matrix product *)

Lemma z_range_snoc (n : nat) :
  forall i, z_range i (S n) = z_range i n ++ [i + Z.of_nat n].
Proof.
  induction n as [| n IH]; intros i.
  - simpl. now rewrite Z.add_0_r.
  - change (z_range i (S (S n))) with (i :: z_range (i + 1) (S n)).
    rewrite IH. cbn [z_range app]. do 3 f_equal. lia.
Qed.

(** The innermost loop of [cortex_tensor_matmul]. *)
Lemma matmul_inner_spec (da db : list cortex_float_t) (m n p i j : Z) :
  0 <= n -> 0 <= p ->
  m * n <= I64.max_signed -> n * p <= I64.max_signed ->
  Z.of_nat (length da) = m * n -> Z.of_nat (length db) = n * p ->
  0 <= i < m -> 0 <= j < p ->
  for_range (R := Empty_set) 0 n
    (fun k sum =>
       read da (I64.add (I64.mul i n) k) (fun x =>
       read db (I64.add (I64.mul k p) j) (fun y =>
       Next (sum + x * y)%float)))
    0%float
  = Next (dot_product da db n p i j).
Proof.
  intros Hn Hp Hmn Hnp Hda Hdb Hi Hj.
  destruct (for_range_invariant
              (fun k sum =>
                 sum = fold_left
                         (fun sum k =>
                            (sum + entry da n i k * entry db p k j)%float)
                         (z_range 0 (Z.to_nat k)) 0%float)
              (fun k sum =>
                 read (R := Empty_set) da (I64.add (I64.mul i n) k) (fun x =>
                 read db (I64.add (I64.mul k p) j) (fun y =>
                 Next (sum + x * y)%float)))
              n 0%float Hn)
    as (r & Hrun & Hr).
  - reflexivity.
  - intros k sum Hk Hsum.
    pose proof (row_major_bound n m i k Hi Hk) as Hapos.
    pose proof (row_major_bound p n k j Hk Hj) as Hbpos.
    rewrite (index_no_wrap i n k (m * n)) by lia.
    rewrite (index_no_wrap k p j (n * p)) by lia.
    destruct (load_in_bounds da (i * n + k)) as (x & Hx); [lia |].
    destruct (load_in_bounds db (k * p + j)) as (y & Hy); [lia |].
    exists (sum + x * y)%float. unfold read. rewrite Hx, Hy.
    split; [reflexivity |].
    replace (Z.to_nat (k + 1)) with (S (Z.to_nat k)) by lia.
    rewrite z_range_snoc, fold_left_app, <- Hsum. cbn [fold_left].
    rewrite Z.add_0_l, Z2Nat.id by lia.
    unfold entry. rewrite Hx, Hy. reflexivity.
  - rewrite Hrun, Hr. reflexivity.
Qed.

(** The three loops of [cortex_tensor_matmul], writing into the zero-filled
    buffer of the result. *)
Lemma matmul_loop_spec (da db : list cortex_float_t) (m n p : Z) :
  0 <= m -> 0 <= n -> 0 <= p ->
  m * n <= I64.max_signed -> n * p <= I64.max_signed ->
  m * p <= I64.max_signed ->
  Z.of_nat (length da) = m * n -> Z.of_nat (length db) = n * p ->
  exists d,
    for_range (R := Empty_set) 0 m
      (fun i buf =>
         for_range 0 p
           (fun j buf =>
              match
                for_range 0 n
                  (fun k sum =>
                     read da (I64.add (I64.mul i n) k) (fun x =>
                     read db (I64.add (I64.mul k p) j) (fun y =>
                     Next (sum + x * y)%float)))
                  0%float
              with
              | Next sum => write buf (I64.add (I64.mul i p) j) sum
              | Exit e => Exit e
              | Trap => Trap
              end)
           buf)
      (repeat 0%float (Z.to_nat (m * p)))
    = Next d
    /\ Z.of_nat (length d) = m * p
    /\ forall i j, 0 <= i < m -> 0 <= j < p ->
         load d (i * p + j) = Some (dot_product da db n p i j).
Proof.
  intros Hm Hn Hp Hmn Hnp Hmp Hda Hdb.
  destruct (for_range_invariant
              (fun i buf =>
                 Z.of_nat (length buf) = m * p
                 /\ forall i' j, 0 <= i' < i -> 0 <= j < p ->
                      load buf (i' * p + j)
                      = Some (dot_product da db n p i' j))
              (fun i buf =>
                 for_range (R := Empty_set) 0 p
                   (fun j buf =>
                      match
                        for_range 0 n
                          (fun k sum =>
                             read da (I64.add (I64.mul i n) k) (fun x =>
                             read db (I64.add (I64.mul k p) j) (fun y =>
                             Next (sum + x * y)%float)))
                          0%float
                      with
                      | Next sum => write buf (I64.add (I64.mul i p) j) sum
                      | Exit e => Exit e
                      | Trap => Trap
                      end)
                   buf)
              m (repeat 0%float (Z.to_nat (m * p))) Hm)
    as (d & Hrun & Hlen & Hload).
  - split; [rewrite repeat_length; nia | intros; lia].
  - intros i buf Hi (Hlen & Hdone).
    destruct (for_range_invariant
                (fun j b =>
                   Z.of_nat (length b) = m * p
                   /\ (forall i' j', 0 <= i' < i -> 0 <= j' < p ->
                         load b (i' * p + j')
                         = Some (dot_product da db n p i' j'))
                   /\ forall j', 0 <= j' < j ->
                        load b (i * p + j')
                        = Some (dot_product da db n p i j'))
                (fun j b =>
                   match
                     for_range (R := Empty_set) 0 n
                       (fun k sum =>
                          read da (I64.add (I64.mul i n) k) (fun x =>
                          read db (I64.add (I64.mul k p) j) (fun y =>
                          Next (sum + x * y)%float)))
                       0%float
                   with
                   | Next sum => write b (I64.add (I64.mul i p) j) sum
                   | Exit e => Exit e
                   | Trap => Trap
                   end)
                p buf Hp)
      as (b' & Hrun' & Hlen' & Hold & Hrow).
    + split; [assumption |]. split; [assumption | intros; lia].
    + intros j b Hj (Hlenb & Holdb & Hrowb).
      pose proof (row_major_bound p m i j Hi Hj) as Hpos.
      rewrite (matmul_inner_spec da db m n p i j) by assumption.
      rewrite (index_no_wrap i p j (m * p)) by lia.
      destruct (store_spec b (i * p + j) (dot_product da db n p i j))
        as (b1 & Hst & Hlen1 & Hget & Hother); [lia |].
      exists b1. unfold write. rewrite Hst.
      split; [reflexivity |]. split; [lia |]. split.
      * intros i' j' Hi' Hj'. rewrite Hother; [now apply Holdb |].
        intros Heq.
        destruct (row_major_unique p i' j' i j) as [Hii _]; lia.
      * intros j' Hj'.
        destruct (Z.eq_dec j' j) as [-> | Hne]; [exact Hget |].
        rewrite Hother; [apply Hrowb; lia |].
        intros Heq.
        destruct (row_major_unique p i j' i j) as [_ Hjj]; lia.
    + exists b'. split; [assumption |]. split; [assumption |].
      intros i' j Hi' Hj.
      destruct (Z.eq_dec i' i) as [-> | Hne];
        [apply Hrow; assumption | apply Hold; [lia | assumption]].
  - exists d. repeat split; assumption.
Qed.

Lemma cortex_tensor_matmul_spec (a b : cortex_tensor_t) (m n p : Z)
  (s : runtime) :
  is_matrix a m n -> is_matrix b n p ->
  m * p * sizeof_float < I64.modulus ->
  sizeof_tensor + 2 * sizeof_int64 + m * p * sizeof_float <= heap_free s ->
  exists d,
    cortex_tensor_matmul (Some a) (Some b) s
    = Done (Some (mk_tensor d [m; p] 2 (m * p) false))
           (allocated s (sizeof_tensor + 2 * sizeof_int64
                         + m * p * sizeof_float))
    /\ Z.of_nat (length d) = m * p
    /\ forall i j, 0 <= i < m -> 0 <= j < p ->
         load d (i * p + j) = Some (dot_product (data a) (data b) n p i j).
Proof.
  intros Ha Hb Haddr Hmem.
  destruct (is_matrix_facts a m n Ha) as (Hnda & Hlena & Haddra & _).
  destruct (is_matrix_facts b n p Hb) as (Hndb & Hlenb & Haddrb & _).
  destruct Ha as (_ & Hsha & Hm & Hn & _).
  destruct Hb as (_ & Hshb & _ & Hp & _).
  assert (Hmax : m * n <= I64.max_signed /\ n * p <= I64.max_signed
                 /\ m * p <= I64.max_signed).
  { unfold I64.max_signed, I64.half, sizeof_float, I64.modulus in *.
    change (2 ^ 63) with 9223372036854775808 in *.
    change (2 ^ 64) with 18446744073709551616 in *. lia. }
  destruct Hmax as (Hmn & Hnp & Hmp).
  destruct (matmul_loop_spec (data a) (data b) m n p)
    as (d & Hrun & Hlend & Hload); try lia.
  exists d. split; [| split; assumption].
  unfold cortex_tensor_matmul. rewrite Hnda, Hndb, Hsha, Hshb.
  change (2 =? 2) with true.
  change (load [m; n] 0) with (Some m).
  change (load [m; n] 1) with (Some n).
  change (load [n; p] 0) with (Some n).
  change (load [n; p] 1) with (Some p).
  cbn [negb orb]. cbv beta iota.
  rewrite Z.eqb_refl. cbn [negb].
  unfold bind.
  rewrite matrix_create by nia.
  destruct (Z.leb_spec (sizeof_tensor + 2 * sizeof_int64 + m * p * sizeof_float)
              (heap_free s)); [| lia].
  cbn [data]. rewrite Hrun. reflexivity.
Qed.

Lemma cortex_tensor_matmul_mismatch (a b : cortex_tensor_t) (m n n' p : Z)
  (s : runtime) :
  is_matrix a m n -> is_matrix b n' p -> n <> n' ->
  cortex_tensor_matmul (Some a) (Some b) s
  = Done None (with_error s "Matrix dimension mismatch for multiplication").
Proof.
  intros Ha Hb Hne.
  destruct (is_matrix_facts a m n Ha) as (Hnda & _).
  destruct (is_matrix_facts b n' p Hb) as (Hndb & _).
  destruct Ha as (_ & Hsha & _).
  destruct Hb as (_ & Hshb & _).
  unfold cortex_tensor_matmul. rewrite Hnda, Hndb, Hsha, Hshb.
  change (2 =? 2) with true.
  change (load [m; n] 0) with (Some m).
  change (load [m; n] 1) with (Some n).
  change (load [n'; p] 0) with (Some n').
  change (load [n'; p] 1) with (Some p).
  cbn [negb orb]. cbv beta iota.
  destruct (Z.eqb_spec n n'); [contradiction |].
  reflexivity.
Qed.

(** X14.  For a well-formed [m] x [n] matrix [a] and a well-formed [n'] x [p]
    matrix [b] (an addressable [m * p], heap permitting),
    [cortex_tensor_matmul] fails with the dimension-mismatch message, taking
    nothing from the heap, when [n <> n']; when [n = n'] it returns an
    [m] x [p] tensor whose element in row [i] and column [j] is the sum over
    [k = 0 .. n-1] of [a[i][k] * b[k][j]], accumulated from [0.0] in that
    order in double precision, and the error slot stays as it was. *)
Theorem matmul_is_row_times_column
  (a b : cortex_tensor_t) (m n n' p : Z) (s : runtime) :
  is_matrix a m n -> is_matrix b n' p ->
  m * p * sizeof_float < I64.modulus ->
  sizeof_tensor + 2 * sizeof_int64 + m * p * sizeof_float <= heap_free s ->
  (n <> n' ->
     cortex_tensor_matmul (Some a) (Some b) s
     = Done None (with_error s "Matrix dimension mismatch for multiplication"))
  /\ (n = n' ->
      exists r s',
        cortex_tensor_matmul (Some a) (Some b) s = Done (Some r) s'
        /\ shape r = [m; p] /\ ndim r = 2 /\ size r = m * p
        /\ requires_grad r = false
        /\ Z.of_nat (length (data r)) = m * p
        /\ (forall i j, 0 <= i < m -> 0 <= j < p ->
              load (data r) (i * p + j)
              = Some (dot_product (data a) (data b) n p i j))
        /\ g_error_message s' = g_error_message s
        /\ heap_free s' = heap_free s - tensor_bytes r).
Proof.
  intros Ha Hb Haddr Hmem. split.
  - intros Hne. now apply (cortex_tensor_matmul_mismatch a b m n n' p).
  - intros <-.
    destruct (cortex_tensor_matmul_spec a b m n p s Ha Hb Haddr Hmem)
      as (d & Hrun & Hlen & Hload).
    eexists. eexists. split; [exact Hrun |].
    cbn [shape ndim size data requires_grad].
    refine (conj eq_refl (conj eq_refl (conj eq_refl (conj eq_refl
             (conj Hlen (conj Hload (conj eq_refl _))))))).
    unfold tensor_bytes, allocated. cbn [heap_free shape data length]. lia.
Qed.

Lemma sample_tall_is_matrix : is_matrix sample_tall 3 2.
Proof.
  unfold is_matrix, I64.max_signed, I64.half.
  repeat split; try reflexivity; try discriminate.
Qed.

(** The 2x3 sample times the 3x2 sample: a 2x2 result whose first element is
    [1*1 + 2*0 + 3*1]. *)
Lemma matmul_is_row_times_column_witness :
  exists r s',
    cortex_tensor_matmul (Some sample_matrix) (Some sample_tall) sample_runtime
    = Done (Some r) s'
    /\ shape r = [2; 2]
    /\ load (data r) 0 = Some 4%float.
Proof.
  destruct (matmul_is_row_times_column sample_matrix sample_tall 2 3 3 2
              sample_runtime sample_is_matrix sample_tall_is_matrix)
    as [_ Hok].
  - reflexivity.
  - vm_compute. discriminate.
  - destruct (Hok eq_refl)
      as (r & s' & Hrun & Hsh & _ & _ & _ & _ & Hload & _).
    exists r, s'. split; [exact Hrun |]. split; [exact Hsh |].
    exact (Hload 0 0 ltac:(lia) ltac:(lia)).
Defined.

(** ** Statistics as folds *)

Lemma read_fold_range {A} (f : A -> cortex_float_t -> A)
  (buf : list cortex_float_t) (n : Z) (acc : A) :
  n = Z.of_nat (length buf) ->
  for_range (R := Empty_set) 0 n
    (fun i acc => read buf i (fun x => Next (f acc x))) acc
  = Next (fold_left f buf acc).
Proof.
  intros ->. unfold for_range. rewrite Z.sub_0_r, Nat2Z.id.
  exact (for_loop_read_fold f buf buf [] acc eq_refl).
Qed.

Lemma cortex_tensor_sum_spec (t : cortex_tensor_t) (s : runtime) :
  size t = Z.of_nat (length (data t)) ->
  cortex_tensor_sum (Some t) s = Done (fold_left PrimFloat.add (data t) 0%float) s.
Proof.
  intros Hsize. unfold cortex_tensor_sum.
  rewrite (read_fold_range PrimFloat.add) by assumption. reflexivity.
Qed.

Lemma cortex_tensor_std_spec (t : cortex_tensor_t) (s : runtime) :
  size t = Z.of_nat (length (data t)) ->
  cortex_tensor_std (Some t) s
  = Done (let n := float_of_int64 (size t) in
          let mean := (fold_left PrimFloat.add (data t) 0 / n)%float in
          PrimFloat.sqrt
            (fold_left (fun acc x => acc + (x - mean) * (x - mean))%float
                       (data t) 0%float / n)) s.
Proof.
  intros Hsize. unfold cortex_tensor_std, cortex_tensor_mean, bind.
  rewrite cortex_tensor_sum_spec by assumption.
  cbv zeta. unfold ret.
  rewrite (read_fold_range
             (fun acc x =>
                (acc + (x - fold_left PrimFloat.add (data t) 0
                              / float_of_int64 (size t))
                       * (x - fold_left PrimFloat.add (data t) 0
                              / float_of_int64 (size t)))%float))
    by assumption.
  reflexivity.
Qed.

(** X15.  On a tensor whose buffer holds [size] elements the four statistics
    change nothing in the state; [cortex_tensor_sum] is the left-to-right
    sum from [0.0], [cortex_tensor_mean] divides it by [size],
    [cortex_tensor_std] is the population deviation (the squared differences
    to the mean are divided by [size], not [size - 1]) and
    [cortex_tensor_var] is the product of that square root with itself. *)
Theorem statistics_are_population_folds (t : cortex_tensor_t) (s : runtime) :
  size t = Z.of_nat (length (data t)) ->
  exists total mean std : cortex_float_t,
    total = fold_left PrimFloat.add (data t) 0%float
    /\ mean = (total / float_of_int64 (size t))%float
    /\ std = PrimFloat.sqrt
               (fold_left (fun acc x => acc + (x - mean) * (x - mean))%float
                          (data t) 0%float
                / float_of_int64 (size t))
    /\ cortex_tensor_sum (Some t) s = Done total s
    /\ cortex_tensor_mean (Some t) s = Done mean s
    /\ cortex_tensor_std (Some t) s = Done std s
    /\ cortex_tensor_var (Some t) s = Done (std * std)%float s.
Proof.
  intros Hsize.
  do 3 eexists.
  refine (conj eq_refl (conj eq_refl (conj eq_refl (conj _ (conj _ (conj _ _)))))).
  - now apply cortex_tensor_sum_spec.
  - unfold cortex_tensor_mean, bind.
    now rewrite cortex_tensor_sum_spec.
  - now rewrite cortex_tensor_std_spec.
  - unfold cortex_tensor_var, bind.
    now rewrite cortex_tensor_std_spec.
Qed.

(** The 2x3 sample: sum 21, mean 3.5. *)
Lemma statistics_are_population_folds_witness :
  cortex_tensor_sum (Some sample_matrix) sample_runtime
  = Done 21%float sample_runtime
  /\ cortex_tensor_mean (Some sample_matrix) sample_runtime
     = Done 3.5%float sample_runtime.
Proof.
  destruct (statistics_are_population_folds sample_matrix sample_runtime
              eq_refl)
    as (total & mean & std & -> & -> & _ & Hsum & Hmean & _).
  split; [exact Hsum | exact Hmean].
Defined.

(** ** Copies and element-wise maps *)

(** X16.  [cortex_tensor_copy] of a well-formed tensor returns a tensor equal
    to it in every field, [requires_grad] included, and takes the tensor's
    byte count from the heap; when the heap cannot hold it, the call returns
    no tensor, records the allocation message and leaves the heap as it
    was. *)
Theorem copy_returns_equal_tensor (t : cortex_tensor_t) (s : runtime) :
  well_formed t = true ->
  (tensor_bytes t <= heap_free s ->
     cortex_tensor_copy (Some t) s
     = Done (Some t) (allocated s (tensor_bytes t)))
  /\ (heap_free s < tensor_bytes t ->
      cortex_tensor_copy (Some t) s
      = Done None (with_error s "Memory allocation failed")).
Proof.
  intros Hwf. rewrite cortex_tensor_copy_spec by assumption.
  split; intros Hmem;
    destruct (Z.leb_spec (tensor_bytes t) (heap_free s)); (reflexivity || lia).
Qed.

(** The sample vector, which has [requires_grad] set. *)
Lemma copy_returns_equal_tensor_witness :
  cortex_tensor_copy (Some sample_vector) sample_runtime
  = Done (Some sample_vector)
         (allocated sample_runtime (tensor_bytes sample_vector)).
Proof.
  apply (copy_returns_equal_tensor sample_vector sample_runtime eq_refl).
  vm_compute. discriminate.
Defined.

Lemma mapped_by_set_data (f : cortex_float_t -> cortex_float_t)
  (t : cortex_tensor_t) (s : runtime) :
  mapped_by f t s
    (Done (Some (set_data t (map f (data t)))) (allocated s (tensor_bytes t))).
Proof.
  exists (set_data t (map f (data t))).
  split; [reflexivity |]. split; [apply same_layout_set_data |].
  cbn [data set_data]. split; [apply length_map |].
  intros i v. apply load_map.
Qed.

(** X17.  For a well-formed tensor and a heap that can hold the copy,
    [cortex_tensor_add_scalar], [cortex_tensor_multiply_scalar],
    [cortex_tensor_exp], [cortex_tensor_sigmoid] and [cortex_tensor_tanh]
    return a tensor with the operand's layout that holds at each position the
    function of the operand's element there: [v + scalar], [v * scalar],
    [exp(v)], [1.0 / (1.0 + exp(-v))] and [tanh(v)]. *)
Theorem unary_ops_are_elementwise
  (c_exp c_tanh : cortex_float_t -> cortex_float_t) (x : cortex_float_t)
  (t : cortex_tensor_t) (s : runtime) :
  well_formed t = true -> tensor_bytes t <= heap_free s ->
  mapped_by (fun v => v + x)%float t s (cortex_tensor_add_scalar (Some t) x s)
  /\ mapped_by (fun v => v * x)%float t s
       (cortex_tensor_multiply_scalar (Some t) x s)
  /\ mapped_by c_exp t s (cortex_tensor_exp c_exp (Some t) s)
  /\ mapped_by (fun v => 1 / (1 + c_exp (- v)))%float t s
       (cortex_tensor_sigmoid c_exp (Some t) s)
  /\ mapped_by c_tanh t s (cortex_tensor_tanh c_tanh (Some t) s).
Proof.
  intros Hwf Hmem.
  rewrite cortex_tensor_add_scalar_spec, cortex_tensor_multiply_scalar_spec,
    cortex_tensor_exp_spec, cortex_tensor_sigmoid_spec, cortex_tensor_tanh_spec
    by assumption.
  destruct (Z.leb_spec (tensor_bytes t) (heap_free s)); [| lia].
  repeat split; apply mapped_by_set_data.
Qed.

(** Adding [0.5] to the 2x3 sample. *)
Lemma unary_ops_are_elementwise_witness :
  mapped_by (fun v => v + 0.5)%float sample_matrix sample_runtime
    (cortex_tensor_add_scalar (Some sample_matrix) 0.5%float sample_runtime).
Proof.
  apply (unary_ops_are_elementwise (fun v => v) (fun v => v) 0.5%float
           sample_matrix sample_runtime eq_refl).
  vm_compute. discriminate.
Defined.

(** ** Heap accounting *)

Lemma cortex_tensor_create_heap (sh : option (list Z)) (n : Z) (s : runtime) :
  n <= INT32_MAX -> heap_frame (cortex_tensor_create sh n s) s.
Proof.
  intros Hn. unfold cortex_tensor_create.
  destruct sh as [sh |]; [| reflexivity].
  destruct (Z.leb_spec n 0); [reflexivity |].
  unfold_alloc.
  destruct (Z.leb_spec sizeof_tensor (heap_free s));
    cbn [negb heap_free g_error_message]; [| reflexivity].
  rewrite to_size_t_small by (unfold INT32_MAX, I64.modulus in *; lia).
  destruct (Z.leb_spec (n * sizeof_int64) (heap_free s - sizeof_tensor));
    cbn [negb heap_free g_error_message heap_frame]; [| lia].
  destruct (memcpy (repeat 0 (Z.to_nat n)) sh n) as [sh' |] eqn:Hcpy;
    [| exact I].
  apply memcpy_into_fresh in Hcpy. destruct Hcpy as [_ Hlen].
  pose proof (shape_product_range sh') as Hrange.
  set (size := shape_product sh') in *.
  destruct (Z.leb_spec I64.modulus (I64.to_size_t size * sizeof_float))
    as [Hbig | Hfit]; cbn [negb heap_free g_error_message].
  { cbn [heap_frame heap_free]. lia. }
  assert (Hsize : 0 <= size /\ I64.to_size_t size = size).
  { unfold I64.to_size_t, I64.min_signed, I64.max_signed, I64.half,
      I64.modulus, sizeof_float in *.
    change (2 ^ 63) with 9223372036854775808 in *.
    change (2 ^ 64) with 18446744073709551616 in *.
    destruct (Z.lt_ge_cases size 0) as [Hneg | Hpos].
    - replace (size mod 18446744073709551616)
        with (size + 18446744073709551616) in Hfit; [lia |].
      apply Z.mod_unique with (q := -1); lia.
    - rewrite Z.mod_small in * by lia. lia. }
  destruct Hsize as [Hpos Hto]. rewrite Hto.
  destruct (Z.leb_spec (size * sizeof_float)
              (heap_free s - sizeof_tensor - n * sizeof_int64));
    cbn [negb heap_free g_error_message heap_frame]; [| ring].
  unfold tensor_bytes. cbn [shape data]. rewrite repeat_length.
  rewrite Hlen, Z2Nat.id by assumption. ring.
Qed.

Lemma for_loop_holds {R A} (P : A -> Prop) (body : Z -> A -> step R A) :
  (forall i a, P a -> step_holds P (body i a)) ->
  forall n lo acc, P acc -> step_holds P (for_loop n lo body acc).
Proof.
  intros Hbody. induction n as [| n IH]; intros lo acc Hacc; [exact Hacc |].
  cbn [for_loop]. specialize (Hbody lo acc Hacc).
  destruct (body lo acc) as [a | e |]; cbn in *; [now apply IH | exact I ..].
Qed.

Lemma for_range_holds {R A} (P : A -> Prop) (body : Z -> A -> step R A)
  (lo hi : Z) (acc : A) :
  P acc ->
  (forall i a, P a -> step_holds P (body i a)) ->
  step_holds P (for_range lo hi body acc).
Proof. intros Hacc Hbody. now apply for_loop_holds. Qed.

Lemma store_nat_length {A} (v : A) :
  forall (l : list A) (n : nat) (l' : list A),
    store_nat l n v = Some l' -> length l' = length l.
Proof.
  induction l as [| x l IH]; intros n l' Hst; [discriminate |].
  destruct n as [| n]; cbn [store_nat] in Hst.
  - inversion Hst. reflexivity.
  - destruct (store_nat l n v) as [tl |] eqn:Htl; [| discriminate].
    inversion Hst. cbn [length]. f_equal. now apply (IH n).
Qed.

Lemma write_holds {R} (buf : list cortex_float_t) (i : Z) (v : cortex_float_t) :
  step_holds (R := R) (fun d => length d = length buf) (write buf i v).
Proof.
  unfold write, store. destruct (i <? 0); [exact I |].
  destruct (store_nat buf (Z.to_nat i) v) as [buf' |] eqn:Hst; [| exact I].
  cbn. now apply store_nat_length in Hst.
Qed.

Lemma read_holds {R A B} (P : B -> Prop) (buf : list A) (i : Z)
  (k : A -> step R B) :
  (forall x, step_holds P (k x)) -> step_holds P (read buf i k).
Proof. intros Hk. unfold read. destruct (load buf i); [apply Hk | exact I]. Qed.

Lemma update_at_holds {R} (buf : list cortex_float_t) (i : Z)
  (f : cortex_float_t -> step R cortex_float_t) :
  step_holds (fun d => length d = length buf) (update_at buf i f).
Proof.
  unfold update_at. apply read_holds. intros x.
  destruct (f x) as [y | e |]; [apply write_holds | exact I ..].
Qed.

Lemma memcpy_length {A} (dst src out : list A) (n : Z) :
  memcpy dst src n = Some out -> length out = length dst.
Proof.
  unfold memcpy.
  destruct (Z.leb_spec 0 n); [| discriminate].
  destruct (Z.leb_spec n (Z.of_nat (length src))); [| discriminate].
  destruct (Z.leb_spec n (Z.of_nat (length dst))); [| discriminate].
  cbn. intros Hout. inversion Hout.
  rewrite length_app, length_firstn, length_skipn. lia.
Qed.

Lemma tensor_bytes_same_lengths (r r' : cortex_tensor_t) :
  shape r' = shape r -> length (data r') = length (data r) ->
  tensor_bytes r' = tensor_bytes r.
Proof. intros Hs Hd. unfold tensor_bytes. now rewrite Hs, Hd. Qed.

(** An allocation followed by work on the block. *)
Lemma alloc_then_heap (m : M (option cortex_tensor_t))
  (k : option cortex_tensor_t -> M (option cortex_tensor_t)) (s : runtime) :
  heap_frame (m s) s ->
  (forall s1, k None s1 = Done None s1) ->
  (forall r s1, keeps_block r (k (Some r) s1) s1) ->
  heap_frame ((result <- m ;; k result) s) s.
Proof.
  intros Hm Hnone Hsome. unfold bind.
  destruct (m s) as [[r |] s1 |]; cbn [heap_frame] in *.
  - specialize (Hsome r s1).
    destruct (k (Some r) s1) as [[r' |] s' |]; cbn [keeps_block heap_frame] in *.
    + destruct Hsome as [Hheap Hbytes]. rewrite Hheap, Hbytes. exact Hm.
    + rewrite Hsome, Hm. ring.
    + exact I.
  - now rewrite Hnone.
  - exact I.
Qed.

(** The block is kept by a loop that rewrites the buffer in place. *)
Lemma loop_keeps_block (r : cortex_tensor_t)
  (l : step Empty_set (list cortex_float_t)) (s : runtime) :
  step_holds (fun d => length d = length (data r)) l ->
  keeps_block r ((d <- run_loop l ;; ret (Some (set_data r d))) s) s.
Proof.
  intros Hl. unfold bind, run_loop, ret.
  destruct l as [d | e |]; cbn in *; [| destruct e | exact I].
  split; [reflexivity |]. now apply tensor_bytes_same_lengths.
Qed.

(** The same for a loop with an error return, which frees the block. *)
Lemma exit_loop_keeps_block (r : cortex_tensor_t)
  (l : step unit (list cortex_float_t)) (msg : string) (s : runtime) :
  step_holds (fun d => length d = length (data r)) l ->
  keeps_block r
    (match l with
     | Next d => ret (Some (set_data r d))
     | Exit _ => cortex_set_error msg ;; cortex_tensor_free (Some r) ;; ret None
     | Trap => undefined
     end s) s.
Proof.
  intros Hl. destruct l as [d | e |]; cbn in *; [| | exact I].
  - split; [reflexivity |]. now apply tensor_bytes_same_lengths.
  - unfold tensor_bytes. ring.
Qed.

Lemma cortex_tensor_copy_heap (t : option cortex_tensor_t) (s : runtime) :
  int32_ndim t -> heap_frame (cortex_tensor_copy t s) s.
Proof.
  intros Hn. unfold cortex_tensor_copy. destruct t as [t |]; [| reflexivity].
  apply alloc_then_heap.
  - now apply cortex_tensor_create_heap.
  - reflexivity.
  - intros c s1.
    destruct (memcpy (data c) (data t) (size t)) as [d |] eqn:Hcpy; [| exact I].
    cbn. split; [reflexivity |].
    apply tensor_bytes_same_lengths; [reflexivity |].
    cbn [data set_requires_grad set_data]. now apply memcpy_length in Hcpy.
Qed.

Ltac keeps_length :=
  repeat match goal with
  | |- step_holds _ (if ?c then _ else _) => destruct c
  | |- step_holds _ (match ?c with _ => _ end) => destruct c
  | |- step_holds _ (Exit _) => exact I
  | |- step_holds _ Trap => exact I
  | H : length ?a = _ |- step_holds _ (write ?a _ _) =>
      rewrite <- H; apply write_holds
  | H : length ?a = _ |- step_holds _ (update_at ?a _ _) =>
      rewrite <- H; apply update_at_holds
  | |- step_holds _ (read _ _ _) => apply read_holds; intros ?
  | |- step_holds _ (for_range _ _ _ _) =>
      apply for_range_holds; [first [reflexivity | assumption] | intros ? ? ?]
  end.

Ltac heap_of_copy :=
  apply alloc_then_heap;
  [ now apply cortex_tensor_copy_heap
  | reflexivity
  | intros ? ?;
    first [ apply loop_keeps_block | apply exit_loop_keeps_block ];
    keeps_length ].

Ltac heap_of_create :=
  apply alloc_then_heap;
  [ apply cortex_tensor_create_heap; first [assumption | discriminate]
  | reflexivity
  | intros ? ?;
    first [ split; reflexivity | apply loop_keeps_block; keeps_length ] ].

Ltac heap_of_binary :=
  intros a b s Ha;
  destruct a as [ta |]; [destruct b as [tb |] |]; cbn beta iota;
  [ break_if; cbn [negb]; [reflexivity | heap_of_copy]
  | reflexivity
  | reflexivity ].

Ltac heap_of_unary :=
  intros t s Ht; destruct t as [t |]; [heap_of_copy | reflexivity].

Lemma cortex_zeros_heap :
  forall sh n s, n <= INT32_MAX -> heap_frame (cortex_zeros sh n s) s.
Proof. intros sh n s Hn. unfold cortex_zeros. heap_of_create. Qed.

Lemma cortex_ones_heap :
  forall sh n s, n <= INT32_MAX -> heap_frame (cortex_ones sh n s) s.
Proof. intros sh n s Hn. unfold cortex_ones. heap_of_create. Qed.

Lemma cortex_randn_heap c_log c_cos uniform_draw :
  forall sh n s,
    n <= INT32_MAX ->
    heap_frame (cortex_randn c_log c_cos uniform_draw sh n s) s.
Proof. intros sh n s Hn. unfold cortex_randn. heap_of_create. Qed.

Lemma cortex_eye_heap : forall n s, heap_frame (cortex_eye n s) s.
Proof. intros n s. unfold cortex_eye. heap_of_create. Qed.

Lemma cortex_arange_heap :
  forall start stop step s, heap_frame (cortex_arange start stop step s) s.
Proof.
  intros start stop step s. unfold cortex_arange.
  destruct (int64_of_float ((stop - start) / step)%float) as [n |]; [| exact I].
  heap_of_create.
Qed.

Lemma cortex_tensor_add_heap :
  forall a b s, int32_ndim a -> heap_frame (cortex_tensor_add a b s) s.
Proof. unfold cortex_tensor_add. heap_of_binary. Qed.

Lemma cortex_tensor_subtract_heap :
  forall a b s, int32_ndim a -> heap_frame (cortex_tensor_subtract a b s) s.
Proof. unfold cortex_tensor_subtract. heap_of_binary. Qed.

Lemma cortex_tensor_multiply_heap :
  forall a b s, int32_ndim a -> heap_frame (cortex_tensor_multiply a b s) s.
Proof. unfold cortex_tensor_multiply. heap_of_binary. Qed.

Lemma cortex_tensor_divide_heap :
  forall a b s, int32_ndim a -> heap_frame (cortex_tensor_divide a b s) s.
Proof. unfold cortex_tensor_divide, divide_loop. heap_of_binary. Qed.

Lemma cortex_tensor_power_heap c_pow :
  forall a b s, int32_ndim a -> heap_frame (cortex_tensor_power c_pow a b s) s.
Proof. unfold cortex_tensor_power. heap_of_binary. Qed.

Lemma cortex_tensor_add_scalar_heap x :
  forall t s, int32_ndim t -> heap_frame (cortex_tensor_add_scalar t x s) s.
Proof. unfold cortex_tensor_add_scalar. heap_of_unary. Qed.

Lemma cortex_tensor_multiply_scalar_heap x :
  forall t s,
    int32_ndim t -> heap_frame (cortex_tensor_multiply_scalar t x s) s.
Proof. unfold cortex_tensor_multiply_scalar. heap_of_unary. Qed.

Lemma cortex_tensor_exp_heap c_exp :
  forall t s, int32_ndim t -> heap_frame (cortex_tensor_exp c_exp t s) s.
Proof. unfold cortex_tensor_exp. heap_of_unary. Qed.

Lemma cortex_tensor_log_heap c_log :
  forall t s, int32_ndim t -> heap_frame (cortex_tensor_log c_log t s) s.
Proof. unfold cortex_tensor_log, log_loop. heap_of_unary. Qed.

Lemma cortex_tensor_sqrt_heap :
  forall t s, int32_ndim t -> heap_frame (cortex_tensor_sqrt t s) s.
Proof. unfold cortex_tensor_sqrt, sqrt_loop. heap_of_unary. Qed.

Lemma cortex_tensor_relu_heap :
  forall t s, int32_ndim t -> heap_frame (cortex_tensor_relu t s) s.
Proof. unfold cortex_tensor_relu. heap_of_unary. Qed.

Lemma cortex_tensor_sigmoid_heap c_exp :
  forall t s, int32_ndim t -> heap_frame (cortex_tensor_sigmoid c_exp t s) s.
Proof. unfold cortex_tensor_sigmoid. heap_of_unary. Qed.

Lemma cortex_tensor_tanh_heap c_tanh :
  forall t s, int32_ndim t -> heap_frame (cortex_tensor_tanh c_tanh t s) s.
Proof. unfold cortex_tensor_tanh. heap_of_unary. Qed.

Lemma cortex_tensor_matmul_heap :
  forall a b s, heap_frame (cortex_tensor_matmul a b s) s.
Proof.
  intros a b s. unfold cortex_tensor_matmul.
  destruct a as [ta |]; [destruct b as [tb |] |]; try reflexivity.
  break_if; [reflexivity |].
  destruct (load (shape ta) 0) as [a0 |]; [| exact I].
  destruct (load (shape ta) 1) as [a1 |]; [| exact I].
  destruct (load (shape tb) 0) as [b0 |]; [| exact I].
  destruct (load (shape tb) 1) as [b1 |]; [| exact I].
  break_if; [reflexivity |].
  heap_of_create.
Qed.

Lemma cortex_tensor_transpose_heap :
  forall t s, heap_frame (cortex_tensor_transpose t s) s.
Proof.
  intros t s. unfold cortex_tensor_transpose.
  destruct t as [t |]; [| reflexivity].
  break_if; [reflexivity |].
  destruct (load (shape t) 0) as [t0 |]; [| exact I].
  destruct (load (shape t) 1) as [t1 |]; [| exact I].
  heap_of_create.
Qed.

Lemma cortex_tensor_softmax_heap c_exp :
  forall t s, int32_ndim t -> heap_frame (cortex_tensor_softmax c_exp t s) s.
Proof.
  intros t s Ht. unfold cortex_tensor_softmax.
  destruct t as [t |]; [| reflexivity].
  apply alloc_then_heap;
    [now apply cortex_tensor_copy_heap | reflexivity |].
  intros r s1.
  destruct (load (data r) 0) as [first |]; [| exact I].
  unfold bind at 1.
  destruct (softmax_max r first) as [max_val | e |];
    [| destruct e | exact I].
  cbn [run_loop ret]. unfold bind at 1.
  assert (Hexp : step_holds (fun es => length (fst es) = length (data r))
                   (softmax_exp c_exp r max_val)).
  { unfold softmax_exp. apply for_range_holds; [reflexivity |].
    intros i [buf sum] Hbuf. cbn [fst] in Hbuf.
    apply read_holds. intros x. cbv zeta.
    pose proof (write_holds (R := Empty_set) buf i (c_exp (x - max_val)%float))
      as Hw.
    destruct (write buf i (c_exp (x - max_val)%float)) as [buf' | e |];
      cbn in *; [congruence | exact I ..]. }
  destruct (softmax_exp c_exp r max_val) as [[buf sum] | e |];
    [| destruct e | exact I].
  cbn [run_loop ret fst snd] in *.
  apply loop_keeps_block. unfold softmax_normalize.
  keeps_length.
Qed.

(** X18.  Every function of the runtime that returns a tensor accounts for
    the heap: when it returns a tensor, the free byte count has gone down by
    exactly the bytes of that tensor (its struct, its extents and its
    buffer), and when it returns null, for whatever reason (a null or
    mismatched operand, a refused allocation, a zero divisor, a logarithm of
    a non-positive or a square root of a negative element), every block it
    had allocated has been given back.  The [ndim] argument and the [ndim]
    field of the copied operand are [int32_t] values. *)
Theorem tensor_calls_account_for_the_heap
  (c_exp c_log c_tanh c_cos : cortex_float_t -> cortex_float_t)
  (c_pow : cortex_float_t -> cortex_float_t -> cortex_float_t)
  (uniform_draw : Z -> cortex_float_t)
  (a b : option cortex_tensor_t) (sh : option (list Z)) (nd n : Z)
  (x start stop step : cortex_float_t) (s : runtime) :
  nd <= INT32_MAX -> int32_ndim a ->
  heap_frame (cortex_tensor_create sh nd s) s
  /\ heap_frame (cortex_tensor_copy a s) s
  /\ heap_frame (cortex_zeros sh nd s) s
  /\ heap_frame (cortex_ones sh nd s) s
  /\ heap_frame (cortex_randn c_log c_cos uniform_draw sh nd s) s
  /\ heap_frame (cortex_eye n s) s
  /\ heap_frame (cortex_arange start stop step s) s
  /\ heap_frame (cortex_tensor_add a b s) s
  /\ heap_frame (cortex_tensor_subtract a b s) s
  /\ heap_frame (cortex_tensor_multiply a b s) s
  /\ heap_frame (cortex_tensor_divide a b s) s
  /\ heap_frame (cortex_tensor_power c_pow a b s) s
  /\ heap_frame (cortex_tensor_add_scalar a x s) s
  /\ heap_frame (cortex_tensor_multiply_scalar a x s) s
  /\ heap_frame (cortex_tensor_matmul a b s) s
  /\ heap_frame (cortex_tensor_transpose a s) s
  /\ heap_frame (cortex_tensor_exp c_exp a s) s
  /\ heap_frame (cortex_tensor_log c_log a s) s
  /\ heap_frame (cortex_tensor_sqrt a s) s
  /\ heap_frame (cortex_tensor_relu a s) s
  /\ heap_frame (cortex_tensor_sigmoid c_exp a s) s
  /\ heap_frame (cortex_tensor_tanh c_tanh a s) s
  /\ heap_frame (cortex_tensor_softmax c_exp a s) s.
Proof.
  intros Hnd Ha.
  repeat match goal with |- _ /\ _ => split end.
  - now apply cortex_tensor_create_heap.
  - now apply cortex_tensor_copy_heap.
  - now apply cortex_zeros_heap.
  - now apply cortex_ones_heap.
  - now apply cortex_randn_heap.
  - apply cortex_eye_heap.
  - apply cortex_arange_heap.
  - now apply cortex_tensor_add_heap.
  - now apply cortex_tensor_subtract_heap.
  - now apply cortex_tensor_multiply_heap.
  - now apply cortex_tensor_divide_heap.
  - now apply cortex_tensor_power_heap.
  - now apply cortex_tensor_add_scalar_heap.
  - now apply cortex_tensor_multiply_scalar_heap.
  - apply cortex_tensor_matmul_heap.
  - apply cortex_tensor_transpose_heap.
  - now apply cortex_tensor_exp_heap.
  - now apply cortex_tensor_log_heap.
  - now apply cortex_tensor_sqrt_heap.
  - now apply cortex_tensor_relu_heap.
  - now apply cortex_tensor_sigmoid_heap.
  - now apply cortex_tensor_tanh_heap.
  - now apply cortex_tensor_softmax_heap.
Qed.

(** The 2x3 sample divided by a tensor of six zeros: the copy is allocated
    and released, and the free byte count is back where it was. *)
Lemma tensor_calls_account_for_the_heap_witness :
  heap_frame
    (cortex_tensor_divide (Some sample_matrix)
       (Some (mk_tensor (repeat 0%float 6) [6] 1 6 false)) sample_runtime)
    sample_runtime
  /\ cortex_tensor_divide (Some sample_matrix)
       (Some (mk_tensor (repeat 0%float 6) [6] 1 6 false)) sample_runtime
     = Done None (with_error sample_runtime "Division by zero").
Proof.
  assert (Hnd : 2 <= INT32_MAX) by discriminate.
  assert (Ha : int32_ndim (Some sample_matrix)) by (cbn; discriminate).
  destruct (tensor_calls_account_for_the_heap
              (fun v => v) (fun v => v) (fun v => v) (fun v => v)
              (fun v _ => v) (fun _ => 0%float)
              (Some sample_matrix)
              (Some (mk_tensor (repeat 0%float 6) [6] 1 6 false))
              (Some [2; 3]) 2 3 0%float 0%float 1%float 1%float
              sample_runtime Hnd Ha)
    as (_ & _ & _ & _ & _ & _ & _ & _ & _ & _ & Hdiv & _).
  split; [exact Hdiv | vm_compute; reflexivity].
Defined.

(** ** The clamp of the binary cross-entropy *)

Lemma SFcompare_antisym (x y : spec_float) (c : comparison) :
  SFcompare x y = Some c -> SFcompare y x = Some (CompOpp c).
Proof.
  destruct x as [sx | sx | | sx mx ex], y as [sy | sy | | sy my ey];
    cbn [SFcompare]; try discriminate;
    intros H; inversion H as [Hc]; clear H Hc;
    try (destruct sx; reflexivity); try (destruct sy; reflexivity).
  - destruct sx, sy; reflexivity.
  - destruct sx, sy; try reflexivity;
      rewrite (Z.compare_antisym ex ey);
      destruct (ex ?= ey); cbn [CompOpp]; try reflexivity;
      rewrite (Pos.compare_cont_antisym mx my Eq); reflexivity.
Qed.

(** Two floating-point numbers, neither of them NaN, are comparable. *)
Lemma leb_total (x y : cortex_float_t) :
  PrimFloat.is_nan x = false -> PrimFloat.is_nan y = false ->
  (x <=? y)%float = false -> (y <=? x)%float = true.
Proof.
  intros Hx Hy. apply not_nan_spec in Hx, Hy.
  rewrite !FloatAxioms.leb_spec. unfold SFleb.
  destruct (SFcompare (Prim2SF x) (Prim2SF y)) as [c |] eqn:Hc.
  - rewrite (SFcompare_antisym _ _ c Hc).
    destruct c; cbn; (discriminate || reflexivity).
  - destruct (Prim2SF x), (Prim2SF y); cbn in Hc; congruence.
Qed.

(** What compares below or equal to something is not a NaN. *)
Lemma leb_not_nan (x y : cortex_float_t) :
  (x <=? y)%float = true -> PrimFloat.is_nan y = false.
Proof.
  rewrite FloatAxioms.leb_spec. unfold PrimFloat.is_nan.
  rewrite FloatAxioms.eqb_spec. unfold SFleb, SFeqb. intros Hle.
  rewrite SFcompare_refl; [reflexivity |].
  intros Hn. rewrite Hn in Hle.
  destruct (Prim2SF x); discriminate.
Qed.

Lemma bce_clamp_range (p : cortex_float_t) :
  (bce_epsilon <=? bce_clamp p)%float = true
  /\ (bce_clamp p <=? 1 - bce_epsilon)%float = true.
Proof.
  unfold bce_clamp, fmin.
  destruct ((1 - bce_epsilon <=? p)%float || PrimFloat.is_nan p)%bool eqn:Hq.
  - split; reflexivity.
  - apply orb_false_iff in Hq. destruct Hq as [Hle Hnan].
    unfold fmax. rewrite Hnan, orb_false_r.
    destruct (p <=? bce_epsilon)%float eqn:Hp.
    + split; reflexivity.
    + split.
      * apply leb_total; [assumption | reflexivity | assumption].
      * apply leb_total; [reflexivity | assumption | assumption].
Qed.

(** A loop that reads two buffers side by side and accumulates is a left
    fold over the pairs. *)
Lemma for_loop_read2_fold {A} (f : A -> cortex_float_t * cortex_float_t -> A)
  (bufa bufb : list cortex_float_t) :
  forall la lb prea preb acc,
    bufa = prea ++ la -> bufb = preb ++ lb ->
    length prea = length preb -> length la = length lb ->
    for_loop (R := Empty_set) (length la) (Z.of_nat (length prea))
      (fun i acc =>
         read bufa i (fun x => read bufb i (fun y => Next (f acc (x, y)))))
      acc
    = Next (fold_left f (combine la lb) acc).
Proof.
  induction la as [| x la IH]; intros lb prea preb acc Ha Hb Hpre Hlen.
  - reflexivity.
  - destruct lb as [| y lb]; [discriminate |].
    cbn [length for_loop combine fold_left].
    unfold read at 1 2. rewrite Ha at 1. rewrite load_app_mid.
    rewrite Hb at 1. rewrite Hpre at 1. rewrite load_app_mid.
    replace (Z.of_nat (length prea) + 1)
      with (Z.of_nat (length (prea ++ [x])))
      by (rewrite length_app; simpl; lia).
    apply (IH lb (prea ++ [x]) (preb ++ [y])).
    + now rewrite <- app_assoc.
    + now rewrite <- app_assoc.
    + rewrite !length_app. simpl. lia.
    + simpl in Hlen. lia.
Qed.

Lemma cortex_binary_cross_entropy_loss_spec c_log (p t : cortex_tensor_t)
  (s : runtime) :
  well_formed p = true -> well_formed t = true -> size p = size t ->
  cortex_binary_cross_entropy_loss c_log (Some p) (Some t) s
  = Done (fold_left (bce_step c_log) (combine (data p) (data t)) 0
          / float_of_int64 (size p))%float s.
Proof.
  intros Hp Ht Hpt.
  pose proof (well_formed_spec p Hp) as (_ & _ & _ & Hdp & _).
  pose proof (well_formed_spec t Ht) as (_ & _ & _ & Hdt & _).
  unfold cortex_binary_cross_entropy_loss.
  rewrite Hpt, Z.eqb_refl. cbn [negb]. unfold bind.
  assert (Hloop :
            for_range (R := Empty_set) 0 (size t)
              (fun i loss =>
                 read (data p) i (fun p0 =>
                 read (data t) i (fun t0 =>
                 let p1 := fmax bce_epsilon (fmin (1 - bce_epsilon)%float p0) in
                 Next (loss - (t0 * c_log p1
                               + (1 - t0) * c_log (1 - p1)))%float)))
              0%float
            = Next (fold_left (bce_step c_log) (combine (data p) (data t))
                      0%float)).
  { unfold for_range. rewrite Z.sub_0_r.
    replace (Z.to_nat (size t)) with (length (data p)) by lia.
    apply (for_loop_read2_fold (bce_step c_log) (data p) (data t)
             (data p) (data t) [] [] 0%float eq_refl eq_refl eq_refl).
    lia. }
  cbv zeta in Hloop. rewrite Hloop. reflexivity.
Qed.

(** X19.  For well-formed operands of equal size,
    [cortex_binary_cross_entropy_loss] changes nothing in the state and
    returns the accumulated loss divided by the element count, each
    prediction being clamped first.  The clamp puts every prediction, a NaN
    included, between [1e-8] and [1.0 - 1e-8]: the first logarithm of the
    loop is never taken of [0.0], of a negative number or of a NaN, and a NaN
    prediction is scored as [1.0 - 1e-8]. *)
Theorem bce_clamps_every_prediction
  c_log (p t : cortex_tensor_t) (s : runtime) :
  well_formed p = true -> well_formed t = true -> size p = size t ->
  cortex_binary_cross_entropy_loss c_log (Some p) (Some t) s
  = Done (fold_left (bce_step c_log) (combine (data p) (data t)) 0
          / float_of_int64 (size p))%float s
  /\ (forall x,
        (bce_epsilon <=? bce_clamp x)%float = true
        /\ (bce_clamp x <=? 1 - bce_epsilon)%float = true
        /\ PrimFloat.is_nan (bce_clamp x) = false)
  /\ bce_clamp nan = (1 - bce_epsilon)%float.
Proof.
  intros Hp Ht Hpt.
  split; [now apply cortex_binary_cross_entropy_loss_spec |].
  split; [| reflexivity].
  intros x. destruct (bce_clamp_range x) as [Hlo Hhi].
  repeat split; try assumption.
  now apply (leb_not_nan bce_epsilon).
Qed.

(** Predictions [[0.0; 1.0; NaN]] against targets [[0.0; 1.0; 1.0]], with the
    identity in the place of [log]. *)
Lemma bce_clamps_every_prediction_witness :
  exists loss,
    cortex_binary_cross_entropy_loss (fun x => x)
      (Some (mk_tensor [0%float; 1%float; nan] [3] 1 3 false))
      (Some (mk_tensor [0%float; 1%float; 1%float] [3] 1 3 false))
      sample_runtime
    = Done loss sample_runtime
    /\ PrimFloat.is_nan loss = false.
Proof.
  destruct (bce_clamps_every_prediction (fun x => x)
              (mk_tensor [0%float; 1%float; nan] [3] 1 3 false)
              (mk_tensor [0%float; 1%float; 1%float] [3] 1 3 false)
              sample_runtime eq_refl eq_refl eq_refl) as [Hrun _].
  eexists. split; [exact Hrun |]. vm_compute. reflexivity.
Defined.

(** ** The order of the comparisons, and the extrema *)

Lemma SFleb_trans (x y z : spec_float) :
  SFleb x y = true -> SFleb y z = true -> SFleb x z = true.
Proof.
  unfold SFleb.
  destruct x as [sx | sx | | sx mx ex], y as [sy | sy | | sy my ey],
    z as [sz | sz | | sz mz ez]; cbn [SFcompare];
    try discriminate; try reflexivity;
    repeat match goal with s : bool |- _ => destruct s end;
    try discriminate; try reflexivity;
    change (Pos.compare_cont Eq) with Pos.compare;
    destruct (Z.compare_spec ex ey), (Z.compare_spec ey ez),
      (Z.compare_spec ex ez);
    try discriminate; try reflexivity; try lia;
    destruct (Pos.compare_spec mx my), (Pos.compare_spec my mz),
      (Pos.compare_spec mx mz);
    cbn [CompOpp]; try discriminate; try reflexivity; lia.
Qed.

Lemma leb_trans (x y z : cortex_float_t) :
  (x <=? y)%float = true -> (y <=? z)%float = true -> (x <=? z)%float = true.
Proof. rewrite !FloatAxioms.leb_spec. apply SFleb_trans. Qed.

Lemma leb_refl (x : cortex_float_t) :
  PrimFloat.is_nan x = false -> (x <=? x)%float = true.
Proof.
  intros Hx. apply not_nan_spec in Hx.
  rewrite FloatAxioms.leb_spec. unfold SFleb.
  now rewrite SFcompare_refl.
Qed.

Lemma ltb_false_leb (x y : cortex_float_t) :
  PrimFloat.is_nan x = false -> PrimFloat.is_nan y = false ->
  (x <? y)%float = false -> (y <=? x)%float = true.
Proof.
  intros Hx Hy. apply not_nan_spec in Hx, Hy.
  rewrite FloatAxioms.ltb_spec, FloatAxioms.leb_spec. unfold SFltb, SFleb.
  destruct (SFcompare (Prim2SF x) (Prim2SF y)) as [c |] eqn:Hc.
  - rewrite (SFcompare_antisym _ _ c Hc).
    destruct c; cbn; (discriminate || reflexivity).
  - destruct (Prim2SF x), (Prim2SF y); cbn in Hc; congruence.
Qed.

(** The scan of [cortex_tensor_min] over numbers ends below its seed and
    below everything it has seen. *)
Lemma list_min_least (rest : list cortex_float_t) :
  forall m,
    PrimFloat.is_nan m = false ->
    (forall x, In x rest -> PrimFloat.is_nan x = false) ->
    (list_min m rest <=? m)%float = true
    /\ forall x, In x rest -> (list_min m rest <=? x)%float = true.
Proof.
  unfold list_min.
  induction rest as [| y rest IH]; intros m Hm Hrest; cbn [fold_left].
  - split; [now apply leb_refl | intros x []].
  - assert (Hy : PrimFloat.is_nan y = false) by (apply Hrest; now left).
    assert (Hnext :
              exists m', (if (y <? m)%float then y else m) = m'
                         /\ PrimFloat.is_nan m' = false
                         /\ (m' <=? m)%float = true
                         /\ (m' <=? y)%float = true).
    { destruct (y <? m)%float eqn:Hlt.
      - exists y. repeat split; try assumption.
        + now apply ltb_leb.
        + now apply leb_refl.
      - exists m. repeat split; try assumption.
        + now apply leb_refl.
        + now apply ltb_false_leb. }
    destruct Hnext as (m' & -> & Hm' & Hm'm & Hm'y).
    destruct (IH m' Hm') as [Hseed Hall].
    { intros x Hx. apply Hrest. now right. }
    split; [now apply (leb_trans _ m') |].
    intros x [<- | Hx]; [now apply (leb_trans _ m') | now apply Hall].
Qed.

(** The scan of [cortex_tensor_max], the other way round. *)
Lemma list_max_greatest (rest : list cortex_float_t) :
  forall m,
    PrimFloat.is_nan m = false ->
    (forall x, In x rest -> PrimFloat.is_nan x = false) ->
    (m <=? list_max m rest)%float = true
    /\ forall x, In x rest -> (x <=? list_max m rest)%float = true.
Proof.
  unfold list_max.
  induction rest as [| y rest IH]; intros m Hm Hrest; cbn [fold_left].
  - split; [now apply leb_refl | intros x []].
  - assert (Hy : PrimFloat.is_nan y = false) by (apply Hrest; now left).
    assert (Hnext :
              exists m', (if (m <? y)%float then y else m) = m'
                         /\ PrimFloat.is_nan m' = false
                         /\ (m <=? m')%float = true
                         /\ (y <=? m')%float = true).
    { destruct (m <? y)%float eqn:Hlt.
      - exists y. repeat split; try assumption.
        + now apply ltb_leb.
        + now apply leb_refl.
      - exists m. repeat split; try assumption.
        + now apply leb_refl.
        + now apply ltb_false_leb. }
    destruct Hnext as (m' & -> & Hm' & Hmm' & Hym').
    destruct (IH m' Hm') as [Hseed Hall].
    { intros x Hx. apply Hrest. now right. }
    split; [now apply (leb_trans _ m') |].
    intros x [<- | Hx]; [now apply (leb_trans _ m') | now apply Hall].
Qed.

(** X20.  On a well-formed tensor with at least one element and no NaN,
    the value [cortex_tensor_min] returns compares below or equal to every
    element of the buffer, and every element compares below or equal to the
    value [cortex_tensor_max] returns. *)
Theorem min_is_least_and_max_is_greatest (t : cortex_tensor_t) (s : runtime) :
  well_formed t = true -> 0 < size t ->
  (forall x, In x (data t) -> PrimFloat.is_nan x = false) ->
  exists lo hi,
    cortex_tensor_min (Some t) s = Done lo s
    /\ cortex_tensor_max (Some t) s = Done hi s
    /\ forall x, In x (data t) ->
         (lo <=? x)%float = true /\ (x <=? hi)%float = true.
Proof.
  intros Hwf Hpos Hnum.
  pose proof (well_formed_spec t Hwf) as (_ & _ & _ & Hsize & _).
  destruct (data t) as [| first rest] eqn:Hd; [simpl in Hsize; lia |].
  exists (list_min first rest), (list_max first rest).
  rewrite (cortex_tensor_min_spec t first rest) by assumption.
  rewrite (cortex_tensor_max_spec t first rest) by assumption.
  assert (Hfirst : PrimFloat.is_nan first = false) by (apply Hnum; now left).
  assert (Hrest : forall x, In x rest -> PrimFloat.is_nan x = false)
    by (intros x Hx; apply Hnum; now right).
  destruct (list_min_least rest first Hfirst Hrest) as [Hlo Hlos].
  destruct (list_max_greatest rest first Hfirst Hrest) as [Hhi Hhis].
  split; [reflexivity |]. split; [reflexivity |].
  intros x [<- | Hx]; split; auto.
Qed.

(** The 2x3 sample: minimum [1.0], maximum [6.0]. *)
Lemma min_is_least_and_max_is_greatest_witness :
  exists lo hi,
    cortex_tensor_min (Some sample_matrix) sample_runtime
    = Done lo sample_runtime
    /\ cortex_tensor_max (Some sample_matrix) sample_runtime
       = Done hi sample_runtime
    /\ forall x, In x (data sample_matrix) ->
         (lo <=? x)%float = true /\ (x <=? hi)%float = true.
Proof.
  apply (min_is_least_and_max_is_greatest sample_matrix sample_runtime eq_refl).
  - reflexivity.
  - intros x Hin. simpl in Hin.
    repeat (destruct Hin as [<- | Hin]; [reflexivity |]). contradiction.
Defined.

(** ** Commutative operations *)

Lemma float_mul_comm (x y : cortex_float_t) : (x * y = y * x)%float.
Proof.
  apply FloatAxioms.Prim2SF_inj. rewrite !FloatAxioms.mul_spec.
  unfold FloatAxioms.SF64mul, SFmul.
  destruct (Prim2SF x) as [sx | sx | | sx mx ex],
    (Prim2SF y) as [sy | sy | | sy my ey];
    try reflexivity; rewrite (xorb_comm sx sy); try reflexivity.
  now rewrite (Pos.mul_comm mx my), (Z.add_comm ex ey).
Qed.

Lemma float_add_comm (x y : cortex_float_t) : (x + y = y + x)%float.
Proof.
  apply FloatAxioms.Prim2SF_inj. rewrite !FloatAxioms.add_spec.
  unfold FloatAxioms.SF64add, SFadd.
  destruct (Prim2SF x) as [sx | sx | | sx mx ex],
    (Prim2SF y) as [sy | sy | | sy my ey];
    try reflexivity;
    try (destruct sx, sy; reflexivity).
  cbv zeta. rewrite (Z.min_comm ey ex). f_equal. apply Z.add_comm.
Qed.

Lemma zip_with_comm (f : cortex_float_t -> cortex_float_t -> cortex_float_t) :
  (forall x y, f x y = f y x) ->
  forall la lb, zip_with f la lb = zip_with f lb la.
Proof.
  intros Hf. unfold zip_with.
  induction la as [| x la IH]; intros [| y lb]; try reflexivity.
  cbn [combine map fst snd]. now rewrite Hf, IH.
Qed.

(** X21.  For well-formed operands of equal size and a heap that can hold
    either copy, [cortex_tensor_add] and [cortex_tensor_multiply] give the
    same elements whichever operand comes first (IEEE addition and
    multiplication commute), while the layout of the result is the layout of
    the first operand. *)
Theorem add_and_multiply_commute (a b : cortex_tensor_t) (s : runtime) :
  well_formed a = true -> well_formed b = true -> size a = size b ->
  tensor_bytes a <= heap_free s -> tensor_bytes b <= heap_free s ->
  (exists ab ba s1 s2,
     cortex_tensor_add (Some a) (Some b) s = Done (Some ab) s1
     /\ cortex_tensor_add (Some b) (Some a) s = Done (Some ba) s2
     /\ data ab = data ba /\ same_layout ab a /\ same_layout ba b)
  /\ (exists ab ba s1 s2,
        cortex_tensor_multiply (Some a) (Some b) s = Done (Some ab) s1
        /\ cortex_tensor_multiply (Some b) (Some a) s = Done (Some ba) s2
        /\ data ab = data ba /\ same_layout ab a /\ same_layout ba b).
Proof.
  intros Ha Hb Hab Hmema Hmemb.
  rewrite (cortex_tensor_add_spec a b), (cortex_tensor_add_spec b a),
    (cortex_tensor_multiply_spec a b), (cortex_tensor_multiply_spec b a)
    by (assumption || now symmetry).
  destruct (Z.leb_spec (tensor_bytes a) (heap_free s)); [| lia].
  destruct (Z.leb_spec (tensor_bytes b) (heap_free s)); [| lia].
  split; do 4 eexists;
    (split; [reflexivity |]); (split; [reflexivity |]);
    (split; [| split; apply same_layout_set_data]);
    cbn [data set_data]; apply zip_with_comm.
  - apply float_add_comm.
  - apply float_mul_comm.
Qed.

(** The 2x3 sample and the vector of six elements, in both orders. *)
Lemma add_and_multiply_commute_witness :
  exists ab ba s1 s2,
    cortex_tensor_add (Some sample_matrix) (Some sample_vector) sample_runtime
    = Done (Some ab) s1
    /\ cortex_tensor_add (Some sample_vector) (Some sample_matrix)
         sample_runtime
       = Done (Some ba) s2
    /\ data ab = data ba /\ shape ab = [2; 3] /\ shape ba = [6].
Proof.
  destruct (add_and_multiply_commute sample_matrix sample_vector sample_runtime
              eq_refl eq_refl eq_refl)
    as [(ab & ba & s1 & s2 & H1 & H2 & Hd & (_ & Hs1 & _) & (_ & Hs2 & _)) _].
  - vm_compute. discriminate.
  - vm_compute. discriminate.
  - exists ab, ba, s1, s2. repeat split; assumption.
Defined.

(** ** The transpose of a product *)

Lemma is_matrix_intro (d : list cortex_float_t) (rows cols : Z) :
  0 <= rows <= I64.max_signed -> 0 <= cols <= I64.max_signed ->
  rows * cols * sizeof_float < I64.modulus ->
  Z.of_nat (length d) = rows * cols ->
  is_matrix (mk_tensor d [rows; cols] 2 (rows * cols) false) rows cols.
Proof.
  intros Hrows Hcols Haddr Hlen.
  unfold is_matrix. cbn [shape size].
  repeat split; try lia.
  unfold well_formed. cbn [shape ndim size data].
  rewrite shape_product_two
    by (unfold I64.min_signed, I64.max_signed, I64.half, sizeof_float,
          I64.modulus in *;
        change (2 ^ 63) with 9223372036854775808 in *;
        change (2 ^ 64) with 18446744073709551616 in *; lia).
  rewrite Hlen, !Z.eqb_refl.
  destruct (Z.ltb_spec (rows * cols * sizeof_float) I64.modulus); [| lia].
  reflexivity.
Qed.

Lemma in_z_range (n : nat) :
  forall i k, In k (z_range i n) -> i <= k < i + Z.of_nat n.
Proof.
  induction n as [| n IH]; intros i k Hin; [destruct Hin |].
  destruct Hin as [<- | Hin]; [lia |].
  apply IH in Hin. lia.
Qed.

Lemma fold_left_ext_in {A B} (f g : A -> B -> A) (l : list B) :
  (forall a x, In x l -> f a x = g a x) ->
  forall a, fold_left f l a = fold_left g l a.
Proof.
  induction l as [| x l IH]; intros Hfg a; [reflexivity |].
  cbn [fold_left]. rewrite Hfg by now left.
  apply IH. intros a' y Hy. apply Hfg. now right.
Qed.

(** The dot product of row [j] of the transposed [b] with column [i] of the
    transposed [a] is the dot product of row [i] of [a] with column [j] of
    [b]. *)
Lemma dot_product_transposed (da db dat dbt : list cortex_float_t)
  (m n p i j : Z) :
  0 <= n ->
  (forall i k, 0 <= i < m -> 0 <= k < n ->
     load dat (k * m + i) = load da (i * n + k)) ->
  (forall k j, 0 <= k < n -> 0 <= j < p ->
     load dbt (j * n + k) = load db (k * p + j)) ->
  0 <= i < m -> 0 <= j < p ->
  dot_product dbt dat n m j i = dot_product da db n p i j.
Proof.
  intros Hn Hat Hbt Hi Hj. unfold dot_product.
  apply fold_left_ext_in. intros sum k Hk.
  apply in_z_range in Hk. rewrite Z2Nat.id in Hk by assumption.
  unfold entry. rewrite Hat, Hbt by lia.
  now rewrite float_mul_comm.
Qed.

(** X22.  For a well-formed [m] x [n] matrix [a] and a well-formed [n] x [p]
    matrix [b] (an addressable [m * p], a heap that can hold the
    intermediate tensors), the transpose of the product and the product of
    the transposes in the opposite order are the same [p] x [m] tensor,
    element for element: the two computations add the same products in the
    same order. *)
Theorem transpose_of_product_is_product_of_transposes
  (a b : cortex_tensor_t) (m n p : Z) (s : runtime) :
  is_matrix a m n -> is_matrix b n p ->
  m * p * sizeof_float < I64.modulus ->
  tensor_bytes a + tensor_bytes b
  + 2 * (sizeof_tensor + 2 * sizeof_int64 + m * p * sizeof_float)
  <= heap_free s ->
  exists r q s1 s2,
    transpose_of_product a b s = Done (Some r) s1
    /\ product_of_transposes a b s = Done (Some q) s2
    /\ shape r = [p; m] /\ shape q = [p; m]
    /\ data r = data q.
Proof.
  intros Ha Hb Haddr Hmem.
  destruct (is_matrix_facts a m n Ha) as (_ & Hlena & Haddra & Hbytesa).
  destruct (is_matrix_facts b n p Hb) as (_ & Hlenb & Haddrb & Hbytesb).
  pose proof Ha as (_ & _ & Hm & Hn & _).
  pose proof Hb as (_ & _ & _ & Hp & _).
  assert (Hposa : 0 <= tensor_bytes a)
    by (unfold tensor_bytes, sizeof_tensor, sizeof_int64, sizeof_float; lia).
  assert (Hposb : 0 <= tensor_bytes b)
    by (unfold tensor_bytes, sizeof_tensor, sizeof_int64, sizeof_float; lia).
  assert (Hposr : 0 <= sizeof_tensor + 2 * sizeof_int64 + m * p * sizeof_float)
    by (unfold sizeof_tensor, sizeof_int64, sizeof_float; nia).
  (* the product, then its transpose *)
  destruct (cortex_tensor_matmul_spec a b m n p s Ha Hb Haddr)
    as (d1 & Hrun1 & Hlen1 & Hload1); [lia |].
  set (bytes := sizeof_tensor + 2 * sizeof_int64 + m * p * sizeof_float) in *.
  set (ab := mk_tensor d1 [m; p] 2 (m * p) false) in *.
  assert (Hab : is_matrix ab m p) by (apply is_matrix_intro; assumption).
  assert (Hbytesab : tensor_bytes ab = bytes).
  { unfold tensor_bytes, ab, bytes. cbn [shape data length]. lia. }
  destruct (cortex_tensor_transpose_spec ab m p (allocated s bytes) Hab)
    as (d2 & Hrun2 & Hlen2 & Hload2).
  { rewrite Hbytesab. unfold allocated. cbn [heap_free]. lia. }
  (* the transposes, then their product *)
  destruct (cortex_tensor_transpose_spec b n p s Hb)
    as (dbt & Hrunb & Hlenbt & Hloadbt); [lia |].
  set (bt := mk_tensor dbt [p; n] 2 (p * n) false) in *.
  assert (Hbt : is_matrix bt p n)
    by (apply is_matrix_intro; try assumption; lia).
  destruct (cortex_tensor_transpose_spec a m n (allocated s (tensor_bytes b)) Ha)
    as (dat & Hruna & Hlenat & Hloadat).
  { unfold allocated. cbn [heap_free]. lia. }
  set (at' := mk_tensor dat [n; m] 2 (n * m) false) in *.
  assert (Hat : is_matrix at' n m)
    by (apply is_matrix_intro; try assumption; lia).
  destruct (cortex_tensor_matmul_spec bt at' p n m
              (allocated (allocated s (tensor_bytes b)) (tensor_bytes a))
              Hbt Hat)
    as (dq & Hrunq & Hlenq & Hloadq); [lia | |].
  { unfold allocated. cbn [heap_free]. fold bytes.
    replace (p * m) with (m * p) by lia. fold bytes. lia. }
  do 4 eexists.
  split.
  { unfold transpose_of_product, bind. rewrite Hrun1. exact Hrun2. }
  split.
  { unfold product_of_transposes, bind. rewrite Hrunb, Hruna. exact Hrunq. }
  cbn [shape data].
  split; [reflexivity |]. split; [reflexivity |].
  apply list_eq_by_load; [lia |].
  intros pos Hpos. rewrite Hlen2 in Hpos.
  assert (Hmpos : 0 < m) by nia.
  pose proof (Z.div_mod pos m ltac:(lia)) as Hdm.
  pose proof (Z.mod_pos_bound pos m Hmpos) as Hmod.
  assert (Hdiv : 0 <= pos / m < p).
  { split; [apply Z.div_pos; lia |].
    apply Z.div_lt_upper_bound; nia. }
  replace pos with (pos / m * m + pos mod m) by lia.
  rewrite (Hload2 (pos mod m) (pos / m)) by lia.
  rewrite (Hloadq (pos / m) (pos mod m)) by lia.
  unfold ab. cbn [data]. rewrite Hload1 by lia.
  f_equal. symmetry.
  apply (dot_product_transposed (data a) (data b) dat dbt m n p); try lia.
  - intros i k Hi Hk. unfold at'. cbn [data]. now apply Hloadat.
  - intros k j Hk Hj. unfold bt. cbn [data]. now apply Hloadbt.
Qed.

(** The 2x3 sample times the 3x2 sample, both ways. *)
Lemma transpose_of_product_is_product_of_transposes_witness :
  exists r q s1 s2,
    transpose_of_product sample_matrix sample_tall
      (mk_runtime None 65536) = Done (Some r) s1
    /\ product_of_transposes sample_matrix sample_tall
         (mk_runtime None 65536) = Done (Some q) s2
    /\ shape r = [2; 2] /\ shape q = [2; 2]
    /\ data r = data q.
Proof.
  apply (transpose_of_product_is_product_of_transposes
           sample_matrix sample_tall 2 3 2 (mk_runtime None 65536)
           sample_is_matrix sample_tall_is_matrix).
  - reflexivity.
  - vm_compute. discriminate.
Defined.

(** ** Random tensors *)

(** X23.  For a shape of [ndim >= 1] extents whose product is a
    non-negative addressable element count, and a heap that can hold the
    tensor, [cortex_randn] returns a well-formed tensor with these extents
    and writes every element: the element at position [i] is the
    Box-Muller value [sqrt(-2 log(u1)) * cos(2 pi u2)] of the draws number
    [2 i] and [2 i + 1] of the generator, which the call has just seeded. *)
Theorem randn_draws_two_numbers_per_element
  (c_log c_cos : cortex_float_t -> cortex_float_t)
  (uniform_draw : Z -> cortex_float_t)
  (sh : list Z) (n : Z) (s : runtime) :
  n = Z.of_nat (length sh) ->
  0 < n <= INT32_MAX ->
  0 <= shape_product sh ->
  shape_product sh * sizeof_float < I64.modulus ->
  sizeof_tensor + n * sizeof_int64 + shape_product sh * sizeof_float
  <= heap_free s ->
  exists r s',
    cortex_randn c_log c_cos uniform_draw (Some sh) n s = Done (Some r) s'
    /\ well_formed r = true
    /\ shape r = sh /\ ndim r = n /\ size r = shape_product sh
    /\ requires_grad r = false
    /\ g_error_message s' = g_error_message s
    /\ forall i, 0 <= i < size r ->
         load (data r) i
         = Some (box_muller c_log c_cos (uniform_draw (2 * i))
                   (uniform_draw (2 * i + 1))).
Proof.
  intros Hn Hrank Hpos Haddr Hmem.
  set (f := fun i => box_muller c_log c_cos (uniform_draw (2 * i))
                       (uniform_draw (2 * i + 1))).
  set (count := Z.to_nat (shape_product sh)).
  exists (mk_tensor (map f (z_range 0 count)) sh n (shape_product sh) false).
  eexists.
  split.
  { unfold cortex_randn, bind.
    rewrite cortex_tensor_create_spec by assumption. cbv zeta.
    destruct (Z.leb_spec (sizeof_tensor + n * sizeof_int64
                          + shape_product sh * sizeof_float) (heap_free s));
      [| lia].
    cbn [size data].
    rewrite (fill_loop_spec f) by (rewrite repeat_length; lia).
    rewrite repeat_length. reflexivity. }
  cbn [shape ndim size data requires_grad].
  refine (conj _ (conj eq_refl (conj eq_refl (conj eq_refl (conj eq_refl
           (conj eq_refl _)))))).
  - unfold well_formed. cbn [shape ndim size data].
    rewrite length_map, z_range_length. unfold count.
    rewrite Z2Nat.id by assumption.
    rewrite Hn, !Z.eqb_refl.
    destruct (Z.ltb_spec 0 (Z.of_nat (length sh))); [| lia].
    destruct (Z.leb_spec (Z.of_nat (length sh)) INT32_MAX); [| lia].
    destruct (Z.ltb_spec (shape_product sh * sizeof_float) I64.modulus);
      [| lia].
    reflexivity.
  - intros i Hi. apply (load_map f). apply load_z_range. unfold count. lia.
Qed.

(** A 2x3 tensor drawn from a generator that always returns [0.5], with the
    identity in the place of [log] and [cos]. *)
Lemma randn_draws_two_numbers_per_element_witness :
  exists r s',
    cortex_randn (fun v => v) (fun v => v) (fun _ => 0.5%float)
      (Some [2; 3]) 2 sample_runtime
    = Done (Some r) s'
    /\ shape r = [2; 3]
    /\ load (data r) 5
       = Some (box_muller (fun v => v) (fun v => v) 0.5 0.5)%float.
Proof.
  destruct (randn_draws_two_numbers_per_element
              (fun v => v) (fun v => v) (fun _ => 0.5%float)
              [2; 3] 2 sample_runtime eq_refl)
    as (r & s' & Hrun & _ & Hsh & _ & Hsize & _ & _ & Hload).
  - unfold INT32_MAX. lia.
  - vm_compute. discriminate.
  - reflexivity.
  - vm_compute. discriminate.
  - exists r, s'. split; [exact Hrun |]. split; [exact Hsh |].
    apply (Hload 5). rewrite Hsize. split; [discriminate | reflexivity].
Defined.
